(** * Information-extraction pipeline: segmentation, fusion, selection

    A shallow embedding of the extraction core of the judgment
    information extractor (segmenter.py, postprocessing.py, selectors.py,
    party_extractor.py, ner_predictor.py, the background facts of
    content_extractor.py and the record assembly of app.py), with the
    properties of its specification stated and settled against that
    embedding.

    Text model.  A Python [str] is a [list ascii]: one element per
    character, over the 8-bit range with the Latin-1 reading of the
    upper half (that is how Python classifies code points 0..255).
    Character classes, line boundaries and case mapping below are the
    ones of Python 3 on that range. *)

From Stdlib Require Import List Ascii String Bool Arith Lia ZArith Permutation Sorted.
Import ListNotations.

Local Open Scope list_scope.
Local Open Scope bool_scope.

(** ** Characters *)

Module Chr.

Definition code (c : ascii) : nat := nat_of_ascii c.

Definition between (lo hi : nat) (c : ascii) : bool :=
  (lo <=? code c) && (code c <=? hi).

Definition eqb (a b : ascii) : bool := Ascii.eqb a b.

(** [str.isspace] / regex [\s] on 0..255. *)
Definition is_space (c : ascii) : bool :=
  between 9 13 c || between 28 32 c || (code c =? 133) || (code c =? 160).

(** Line boundaries of [str.splitlines] on 0..255. *)
Definition is_linebreak (c : ascii) : bool :=
  between 10 13 c || between 28 30 c || (code c =? 133).

Definition is_digit (c : ascii) : bool := between 48 57 c.

Definition is_ascii_upper (c : ascii) : bool := between 65 90 c.
Definition is_ascii_lower (c : ascii) : bool := between 97 122 c.

(** Uppercase letters ([str.isupper] on one character). *)
Definition is_upper (c : ascii) : bool :=
  is_ascii_upper c || between 192 214 c || between 216 222 c.

(** Lowercase letters ([str.islower] on one character). *)
Definition is_lower (c : ascii) : bool :=
  is_ascii_lower c || (code c =? 170) || (code c =? 181) || (code c =? 186)
  || between 223 246 c || between 248 255 c.

(** Regex [\w]: alphanumeric or underscore. *)
Definition is_word (c : ascii) : bool :=
  is_digit c || is_ascii_upper c || is_ascii_lower c || (code c =? 95)
  || (code c =? 170) || (code c =? 178) || (code c =? 179) || (code c =? 181)
  || (code c =? 185) || (code c =? 186) || between 188 190 c
  || between 192 214 c || between 216 246 c || between 248 255 c.

(** [str.lower] on one character. *)
Definition lower (c : ascii) : ascii :=
  if is_upper c then ascii_of_nat (code c + 32) else c.

(** [str.upper] on one character, where the result is again one
    character of the range; the sharp s (223), the micro sign (181)
    and y-diaeresis (255) are handled by [Str.upper]. *)
Definition upper1 (c : ascii) : ascii :=
  if is_ascii_lower c || between 224 246 c || between 248 254 c
  then ascii_of_nat (code c - 32) else c.

Definition LF : ascii := ascii_of_nat 10.
Definition CR : ascii := ascii_of_nat 13.
Definition TAB : ascii := ascii_of_nat 9.
Definition SP : ascii := ascii_of_nat 32.

End Chr.

(** ** Strings *)

Definition str := list ascii.

(** A literal. *)
Definition L (s : string) : str := list_ascii_of_string s.

Module Str.

Fixpoint eqb (a b : str) : bool :=
  match a, b with
  | [], [] => true
  | x :: a', y :: b' => Chr.eqb x y && eqb a' b'
  | _, _ => false
  end.

Definition is_empty (s : str) : bool :=
  match s with [] => true | _ => false end.

(** Truthiness of a string: [if s:]. *)
Definition truthy (s : str) : bool := negb (is_empty s).

Definition lower (s : str) : str := map Chr.lower s.

(** [str.upper]; the sharp s becomes "SS".  The micro sign and
    y-diaeresis, whose capitals lie beyond the range, are kept. *)
Definition upper (s : str) : str :=
  flat_map (fun c => if Chr.code c =? 223 then L "SS" else [Chr.upper1 c]) s.

Fixpoint dropwhile (p : ascii -> bool) (s : str) : str :=
  match s with
  | [] => []
  | c :: s' => if p c then dropwhile p s' else s
  end.

Definition lstrip_by (p : ascii -> bool) (s : str) : str := dropwhile p s.
Definition rstrip_by (p : ascii -> bool) (s : str) : str :=
  rev (dropwhile p (rev s)).
Definition strip_by (p : ascii -> bool) (s : str) : str :=
  rstrip_by p (lstrip_by p s).

(** [s.strip()] *)
Definition strip (s : str) : str := strip_by Chr.is_space s.

Definition mem_chr (c : ascii) (cs : str) : bool := existsb (Chr.eqb c) cs.

(** [s.strip(chars)] *)
Definition strip_chars (cs : str) (s : str) : str :=
  strip_by (fun c => mem_chr c cs) s.
Definition rstrip_chars (cs : str) (s : str) : str :=
  rstrip_by (fun c => mem_chr c cs) s.

Fixpoint starts_with (p s : str) : bool :=
  match p, s with
  | [], _ => true
  | x :: p', y :: s' => Chr.eqb x y && starts_with p' s'
  | _ :: _, [] => false
  end.

(** [sub in s] *)
Fixpoint contains (sub s : str) : bool :=
  starts_with sub s ||
  match s with
  | [] => false
  | _ :: s' => contains sub s'
  end.

(** [sep.join(parts)] *)
Fixpoint join (sep : str) (parts : list str) : str :=
  match parts with
  | [] => []
  | [p] => p
  | p :: ps => p ++ sep ++ join sep ps
  end.

(** [s.split()] without argument: the maximal runs of non-space
    characters. *)
Fixpoint words_aux (cur : str) (s : str) : list str :=
  match s with
  | [] => match cur with [] => [] | _ => [rev cur] end
  | c :: s' =>
      if Chr.is_space c
      then match cur with [] => words_aux [] s' | _ => rev cur :: words_aux [] s' end
      else words_aux (c :: cur) s'
  end.
Definition words (s : str) : list str := words_aux [] s.

(** [s.splitlines()]: the text is cut at every line boundary, a
    carriage return followed by a line feed counting as one; no empty
    last line is produced.  [after_cr] remembers that the previous
    character was a carriage return; [cur] is the current line,
    reversed. *)
Fixpoint splitlines_aux (after_cr : bool) (cur : str) (s : str) : list str :=
  match s with
  | [] => match cur with [] => [] | _ => [rev cur] end
  | c :: s' =>
      if after_cr && Chr.eqb c Chr.LF then splitlines_aux false cur s'
      else if Chr.is_linebreak c
           then rev cur :: splitlines_aux (Chr.eqb c Chr.CR) [] s'
           else splitlines_aux false (c :: cur) s'
  end.
Definition splitlines (s : str) : list str := splitlines_aux false [] s.

(** [s[i:j]] for non-negative bounds. *)
Definition slice (i j : nat) (s : str) : str := firstn (j - i) (skipn i s).

(** [s.isupper()]: at least one cased character and no lowercase one. *)
Definition isupper (s : str) : bool :=
  existsb Chr.is_upper s && negb (existsb Chr.is_lower s).

Fixpoint takewhile (p : ascii -> bool) (s : str) : str :=
  match s with
  | [] => []
  | c :: s' => if p c then c :: takewhile p s' else []
  end.

(** [s.split(sep)[-1]] for a one-character separator: what follows
    the last separator. *)
Definition last_piece (sep : ascii) (s : str) : str :=
  rev (takewhile (fun c => negb (Chr.eqb c sep)) (rev s)).

(** [s.replace(old, new)] for a non-empty [old]: the occurrences are
    replaced from the left, without overlap; [skip] counts the
    characters of an occurrence still to pass over. *)
Fixpoint replace_aux (old new : str) (skip : nat) (s : str) : str :=
  match s with
  | [] => []
  | c :: s' =>
      match skip with
      | S k => replace_aux old new k s'
      | 0 =>
          if starts_with old s
          then new ++ replace_aux old new (List.length old - 1) s'
          else c :: replace_aux old new 0 s'
      end
  end.
Definition replace (old new s : str) : str := replace_aux old new 0 s.

(** Lexicographic order on code points: [a < b] on strings. *)
Fixpoint ltb (a b : str) : bool :=
  match a, b with
  | [], [] => false
  | [], _ :: _ => true
  | _ :: _, [] => false
  | x :: a', y :: b' =>
      if Chr.code x <? Chr.code y then true
      else if Chr.code y <? Chr.code x then false
      else ltb a' b'
  end.

End Str.

(** ** Regular expressions

    The patterns of the source are transcribed as terms of [regex] and
    run by a backtracking matcher that follows Python's [re]: ordered
    alternation, greedy and lazy counted repetition, capture groups,
    the anchors [^], [$], [\Z] and [\b], positive lookahead, and the
    flags IGNORECASE, MULTILINE and DOTALL. *)

Module Re.

Record flags := Flags { ignorecase : bool; multiline : bool; dotall : bool }.

Definition no_flags : flags := Flags false false false.
Definition I : flags := Flags true false false.
Definition M : flags := Flags false true false.
Definition IM : flags := Flags true true false.
Definition IS : flags := Flags true false true.

(** Members of a bracketed set. *)
Inductive citem :=
| CChr (c : ascii)
| CRng (lo hi : ascii)
| CDigit
| CSpace
| CWord.

Inductive regex :=
| Eps
| Lit (c : ascii)
| Any
| Cls (neg : bool) (items : list citem)
| Cat (r1 r2 : regex)
| Alt (r1 r2 : regex)
| Rep (greedy : bool) (lo : nat) (hi : option nat) (r : regex)
| Grp (n : nat) (r : regex)
| Bol
| Eol
| EndZ
| WordB
| Ahead (r : regex).

(** A position in the subject: the characters before it (nearest
    first), the characters from it on, its index, and the groups closed
    so far, each with its start and end index. *)
Record mstate := MState {
  m_pre : str;
  m_rest : str;
  m_pos : nat;
  m_grp : list (nat * (nat * nat))
}.

Definition chr_match (fl : flags) (c x : ascii) : bool :=
  if ignorecase fl then Chr.eqb (Chr.lower c) (Chr.lower x) else Chr.eqb c x.

Definition in_rng (lo hi x : ascii) : bool :=
  (Chr.code lo <=? Chr.code x) && (Chr.code x <=? Chr.code hi).

Definition citem_match (fl : flags) (it : citem) (x : ascii) : bool :=
  match it with
  | CChr c => chr_match fl c x
  | CRng lo hi =>
      if ignorecase fl
      then in_rng lo hi x || in_rng lo hi (Chr.lower x) || in_rng lo hi (Chr.upper1 x)
      else in_rng lo hi x
  | CDigit => Chr.is_digit x
  | CSpace => Chr.is_space x
  | CWord => Chr.is_word x
  end.

Definition cls_match (fl : flags) (neg : bool) (items : list citem) (x : ascii) : bool :=
  xorb neg (existsb (fun it => citem_match fl it x) items).

Definition advance (x : ascii) (rest : str) (st : mstate) : mstate :=
  MState (x :: m_pre st) rest (S (m_pos st)) (m_grp st).

Definition set_group (n a b : nat) (st : mstate) : mstate :=
  MState (m_pre st) (m_rest st) (m_pos st)
         ((n, (a, b)) :: filter (fun g => negb (fst g =? n)) (m_grp st)).

Definition at_bol (fl : flags) (st : mstate) : bool :=
  match m_pre st with
  | [] => true
  | c :: _ => multiline fl && Chr.eqb c Chr.LF
  end.

Definition at_eol (fl : flags) (st : mstate) : bool :=
  match m_rest st with
  | [] => true
  | c :: rest => Chr.eqb c Chr.LF && (multiline fl || Str.is_empty rest)
  end.

Definition word_before (st : mstate) : bool :=
  match m_pre st with [] => false | c :: _ => Chr.is_word c end.
Definition word_after (st : mstate) : bool :=
  match m_rest st with [] => false | c :: _ => Chr.is_word c end.
Definition at_wordb (st : mstate) : bool :=
  xorb (word_before st) (word_after st).

Definition below (cnt : nat) (hi : option nat) : bool :=
  match hi with None => true | Some h => cnt <? h end.

Definition or_else {A : Type} (a : option A) (b : unit -> option A) : option A :=
  match a with Some x => Some x | None => b tt end.

(** [run fl r st k]: match [r] at [st] and hand every way of doing so,
    in Python's order of preference, to the continuation [k]; the
    first one [k] accepts is the result.  An iteration of a repetition
    has to consume a character (no pattern of the source has a body
    that can match the empty string under a quantifier). *)
Fixpoint run (fl : flags) (r : regex) (st : mstate)
  (k : mstate -> option mstate) {struct r} : option mstate :=
  match r with
  | Eps => k st
  | Lit c =>
      match m_rest st with
      | x :: rest => if chr_match fl c x then k (advance x rest st) else None
      | [] => None
      end
  | Any =>
      match m_rest st with
      | x :: rest =>
          if dotall fl || negb (Chr.eqb x Chr.LF) then k (advance x rest st) else None
      | [] => None
      end
  | Cls neg items =>
      match m_rest st with
      | x :: rest => if cls_match fl neg items x then k (advance x rest st) else None
      | [] => None
      end
  | Cat r1 r2 => run fl r1 st (fun st1 => run fl r2 st1 k)
  | Alt r1 r2 => or_else (run fl r1 st k) (fun _ => run fl r2 st k)
  | Rep greedy lo hi r1 =>
      (fix loop (fuel cnt : nat) (s : mstate) {struct fuel} : option mstate :=
         let stop := fun _ : unit => if lo <=? cnt then k s else None in
         let more := fun _ : unit =>
           match fuel with
           | 0 => None
           | S fuel' =>
               if below cnt hi
               then run fl r1 s (fun s1 =>
                      if m_pos s <? m_pos s1 then loop fuel' (S cnt) s1 else None)
               else None
           end in
         if greedy then or_else (more tt) stop else or_else (stop tt) more)
      (List.length (m_rest st)) 0 st
  | Grp n r1 => run fl r1 st (fun s1 => k (set_group n (m_pos st) (m_pos s1) s1))
  | Bol => if at_bol fl st then k st else None
  | Eol => if at_eol fl st then k st else None
  | EndZ => if Str.is_empty (m_rest st) then k st else None
  | WordB => if at_wordb st then k st else None
  | Ahead r1 =>
      match run fl r1 st (fun s1 => Some s1) with
      | Some _ => k st
      | None => None
      end
  end.

(** A match object: [m.start()], [m.end()] and the groups. *)
Record rmatch := RMatch {
  m_start : nat;
  m_end : nat;
  m_groups : list (nat * (nat * nat))
}.

(** Match at the position [st]; with [must_advance] an empty match is
    refused (the rule of [re] after an empty match at that place). *)
Definition match_at (fl : flags) (r : regex) (must_advance : bool) (st : mstate)
  : option rmatch :=
  match run fl r st (fun s1 =>
          if must_advance && (m_pos s1 =? m_pos st) then None else Some s1) with
  | Some s1 => Some (RMatch (m_pos st) (m_pos s1) (m_grp s1))
  | None => None
  end.

(** Leftmost match at or after the position [(pre, rest)]. *)
Fixpoint scan (fl : flags) (r : regex) (must_advance : bool)
  (pre rest : str) (pos : nat) {struct rest} : option rmatch :=
  match match_at fl r must_advance (MState pre rest pos []) with
  | Some m => Some m
  | None =>
      match rest with
      | [] => None
      | x :: rest' => scan fl r false (x :: pre) rest' (S pos)
      end
  end.

(** [re.search(r, s, flags)] *)
Definition search (fl : flags) (r : regex) (s : str) : option rmatch :=
  scan fl r false [] s 0.

(** [re.match(r, s, flags)] *)
Definition match_ (fl : flags) (r : regex) (s : str) : option rmatch :=
  match_at fl r false (MState [] s 0 []).

Definition matches (fl : flags) (r : regex) (s : str) : bool :=
  match match_ fl r s with Some _ => true | None => false end.

Definition found (fl : flags) (r : regex) (s : str) : bool :=
  match search fl r s with Some _ => true | None => false end.

(** [m.group(0)] and [m.group(n)] on the subject [s]; a group that
    took no part in the match is [None]. *)
Definition group0 (s : str) (m : rmatch) : str := Str.slice (m_start m) (m_end m) s.

Definition group_span (n : nat) (m : rmatch) : option (nat * nat) :=
  match find (fun g => fst g =? n) (m_groups m) with
  | Some (_, ab) => Some ab
  | None => None
  end.

Definition group (s : str) (n : nat) (m : rmatch) : option str :=
  match group_span n m with
  | Some (a, b) => Some (Str.slice a b s)
  | None => None
  end.

(** [m.group(n) or ""] *)
Definition group_or_empty (s : str) (n : nat) (m : rmatch) : str :=
  match group s n m with Some g => g | None => [] end.

(** All matches, left to right, as [re.finditer] yields them:
    [pre]/[rest] is the place reached, [pos] its index. *)
Fixpoint finditer_aux (fuel : nat) (fl : flags) (r : regex) (must_advance : bool)
  (pre rest : str) (pos : nat) : list rmatch :=
  match fuel with
  | 0 => []
  | S fuel' =>
      match scan fl r must_advance pre rest pos with
      | None => []
      | Some m =>
          let n := m_end m - pos in
          m :: finditer_aux fuel' fl r (m_end m =? m_start m)
                 (rev (firstn n rest) ++ pre) (skipn n rest) (m_end m)
      end
  end.

Definition finditer (fl : flags) (r : regex) (s : str) : list rmatch :=
  finditer_aux (2 * List.length s + 2) fl r false [] s 0.

(** [re.sub(r, repl, s, flags)] for a replacement without group
    references. *)
Fixpoint sub_aux (repl : str) (s : str) (pos : nat) (ms : list rmatch) : str :=
  match ms with
  | [] => skipn pos s
  | m :: ms' => Str.slice pos (m_start m) s ++ repl ++ sub_aux repl s (m_end m) ms'
  end.

Definition sub (fl : flags) (r : regex) (repl : str) (s : str) : str :=
  sub_aux repl s 0 (finditer fl r s).

(** [re.sub] with a replacement computed from the match (a template
    with group references). *)
Fixpoint sub_with_aux (repl : rmatch -> str) (s : str) (pos : nat)
  (ms : list rmatch) : str :=
  match ms with
  | [] => skipn pos s
  | m :: ms' =>
      Str.slice pos (m_start m) s ++ repl m ++ sub_with_aux repl s (m_end m) ms'
  end.

Definition sub_with (fl : flags) (r : regex) (repl : str -> rmatch -> str) (s : str)
  : str :=
  sub_with_aux (repl s) s 0 (finditer fl r s).

(** [re.split(r, s, flags)] for a pattern without capture groups. *)
Fixpoint split_aux (s : str) (pos : nat) (ms : list rmatch) : list str :=
  match ms with
  | [] => [skipn pos s]
  | m :: ms' => Str.slice pos (m_start m) s :: split_aux s (m_end m) ms'
  end.

Definition split (fl : flags) (r : regex) (s : str) : list str :=
  split_aux s 0 (finditer fl r s).

(** *** Building patterns *)

Definition star (r : regex) : regex := Rep true 0 None r.
Definition plus (r : regex) : regex := Rep true 1 None r.
Definition opt (r : regex) : regex := Rep true 0 (Some 1) r.
Definition lazy_star (r : regex) : regex := Rep false 0 None r.
Definition lazy_plus (r : regex) : regex := Rep false 1 None r.
Definition times (lo hi : nat) (r : regex) : regex := Rep true lo (Some hi) r.
Definition lazy_times (lo hi : nat) (r : regex) : regex := Rep false lo (Some hi) r.

Fixpoint seq (rs : list regex) : regex :=
  match rs with
  | [] => Eps
  | [r] => r
  | r :: rs' => Cat r (seq rs')
  end.

Fixpoint alt (rs : list regex) : regex :=
  match rs with
  | [] => Cls false []
  | [r] => r
  | r :: rs' => Alt r (alt rs')
  end.

(** A literal string. *)
Fixpoint lit_chars (s : str) : regex :=
  match s with
  | [] => Eps
  | [c] => Lit c
  | c :: s' => Cat (Lit c) (lit_chars s')
  end.
Definition lit (s : string) : regex := lit_chars (L s).

Definition chr (s : string) : regex :=
  match L s with c :: _ => Lit c | [] => Eps end.

Definition digit : regex := Cls false [CDigit].
Definition space : regex := Cls false [CSpace].
Definition wordc : regex := Cls false [CWord].

(** Set members from a string of literal characters. *)
Definition chars (s : string) : list citem := map CChr (L s).
Definition rng (lo hi : string) : citem :=
  match L lo, L hi with
  | a :: _, b :: _ => CRng a b
  | _, _ => CSpace
  end.
Definition AZ : citem := rng "A" "Z".
Definition az : citem := rng "a" "z".
Definition d09 : citem := rng "0" "9".

(** *** Vocabulary for the properties *)

(** [st'] is reached from [st] by reading the characters [c]. *)
Definition reads (st st' : mstate) (c : str) : Prop :=
  m_rest st = c ++ m_rest st' /\
  m_pre st' = rev c ++ m_pre st /\
  m_pos st' = m_pos st + List.length c.

Definition ext (st st' : mstate) : Prop := exists c, reads st st' c.

(** The character before the position is white space. *)
Definition after_space (st : mstate) : bool :=
  match m_pre st with c :: _ => Chr.is_space c | [] => false end.

End Re.

(** ** segmenter.py *)

Module Segmenter.
Import Re.

(** [^[A-Z0-9 \.\-\(\)\,\:\[\]]{5,200}$] *)
Definition re_caption : regex :=
  seq [Bol; times 5 200 (Cls false ([AZ; d09] ++ chars " .-(),:[]")); Eol].

Definition header_markers : list str :=
  map L ["IN THE SUPREME COURT"; "CIVIL APPELLATE"; "CRIMINAL APPELLATE";
         "IN THE HIGH COURT"; "BENCH"; "JUDGMENT"; "CORAM"; "CASE";
         "Crl.O.P"; "CRLMC"; "CRIMINAL APPLICATION"; "CIVIL APPEAL";
         "Appearances for Parties"; "Appearances"; "Date of Judgment"]%string.

(** [\b v\.|\bv\s+v\b| v\.? $] *)
Definition re_versus : regex :=
  alt [seq [WordB; lit " v."];
       seq [WordB; chr "v"; plus space; chr "v"; WordB];
       seq [lit " v"; opt (chr "."); chr " "; Eol]].

(** [\b v\. \b] *)
Definition re_versus_spaced : regex := seq [WordB; lit " v. "; WordB].

(** [\b(No\.|CRL|Crl\.O\.P|Crime No|C\.A\.|C\.C\.)\b] *)
Definition re_case_short : regex :=
  seq [WordB;
       Grp 1 (alt [lit "No."; lit "CRL"; lit "Crl.O.P"; lit "Crime No";
                   lit "C.A."; lit "C.C."]);
       WordB].

Definition _is_header_line (line0 : str) : bool :=
  let line := Str.strip line0 in
  if Str.is_empty line then false
  else if matches no_flags re_caption line && (List.length (Str.words line) <=? 12)
  then true
  else if existsb (fun m => Str.contains (Str.lower m) (Str.lower line)) header_markers
  then true
  else if found I re_versus line || found no_flags re_versus_spaced line
  then true
  else if found I re_case_short line
  then true
  else false.

(** [^\s*O R D E R\b], [^\s*ORDER\b], [^\s*Held:], [^\s*DISPOSED\b],
    [^\s*CONCLUSION\b], [^\s*JUDGMENT\b], [^\s*TAKE NOTICE\b] *)
Definition order_markers : list regex :=
  [seq [Bol; star space; lit "O R D E R"; WordB];
   seq [Bol; star space; lit "ORDER"; WordB];
   seq [Bol; star space; lit "Held:"];
   seq [Bol; star space; lit "DISPOSED"; WordB];
   seq [Bol; star space; lit "CONCLUSION"; WordB];
   seq [Bol; star space; lit "JUDGMENT"; WordB];
   seq [Bol; star space; lit "TAKE NOTICE"; WordB]].

Definition _looks_like_order_start (line : str) : bool :=
  existsb (fun pat => found I pat line) order_markers.

(** [^\s*(Issue for Consideration|Issue|Background|Facts|Background and Facts|From the Judgment|Judgment|Heard)] *)
Definition re_body_opening : regex :=
  seq [Bol; star space;
       Grp 1 (alt [lit "Issue for Consideration"; lit "Issue"; lit "Background";
                   lit "Facts"; lit "Background and Facts"; lit "From the Judgment";
                   lit "Judgment"; lit "Heard"])].

(** [\b(is|are|was|were|held|observed|submitted|submitted that|observed that)\b] *)
Definition re_prose_verb : regex :=
  seq [WordB;
       Grp 1 (alt [lit "is"; lit "are"; lit "was"; lit "were"; lit "held";
                   lit "observed"; lit "submitted"; lit "submitted that";
                   lit "observed that"]);
       WordB].

(** A line feed or the start of the text, then group 1,
    [Held:|ORDER|O R D E R:|ORDER:], then group 2, any characters up to
    the end (the pattern is used with IGNORECASE and DOTALL). *)
Definition re_embedded_order : regex :=
  seq [Alt (Lit Chr.LF) Bol;
       Grp 1 (alt [lit "Held:"; lit "ORDER"; lit "O R D E R:"; lit "ORDER:"]);
       Grp 2 (star Any);
       Eol].

Inductive zone := Header | Body | Order.

(** The loop state of [split_segments]: the three line buffers and the
    current zone.  ([body_started_at] is written but never read, and
    is left out.) *)
Record buffers := Buffers {
  header_lines : list str;
  body_lines : list str;
  order_lines : list str;
  state : zone
}.

Definition initial : buffers := Buffers [] [] [] Header.

Definition to_body (b : buffers) (stripped : str) : buffers :=
  Buffers (header_lines b) (body_lines b ++ [stripped]) (order_lines b) Body.

Definition append_line (st : zone) (b : buffers) (stripped : str) : buffers :=
  match st with
  | Header => Buffers (header_lines b ++ [stripped]) (body_lines b) (order_lines b) st
  | Body => Buffers (header_lines b) (body_lines b ++ [stripped]) (order_lines b) st
  | Order => Buffers (header_lines b) (body_lines b) (order_lines b ++ [stripped]) st
  end.

Definition is_body (z : zone) : bool :=
  match z with Body => true | _ => false end.

(** One iteration of the loop over the lines. *)
Definition step (b : buffers) (raw : str) : buffers :=
  let line := Str.rstrip_chars [Chr.LF] raw in
  let stripped := Str.strip line in
  if Str.is_empty stripped then
    if is_body (state b) && negb (Str.is_empty (last (body_lines b) []))
    then Buffers (header_lines b) (body_lines b ++ [[]]) (order_lines b) (state b)
    else b
  else
    let st := if _looks_like_order_start stripped then Order else state b in
    match st with
    | Header =>
        if found I re_body_opening stripped then to_body b stripped
        else if 50 <? List.length (header_lines b) then to_body b stripped
        else if negb (_is_header_line stripped) && found I re_prose_verb stripped
        then to_body b stripped
        else append_line st b stripped
    | _ => append_line st b stripped
    end.

Record segments := Segments { header : str; body : str; order : str }.

Definition split_segments (text : str) : segments :=
  let b := fold_left step (Str.splitlines text) initial in
  let header := Str.strip (Str.join [Chr.LF] (header_lines b)) in
  let body := Str.strip (Str.join [Chr.LF] (body_lines b)) in
  let order := Str.strip (Str.join [Chr.LF] (order_lines b)) in
  if Str.is_empty order && negb (Str.is_empty body) then
    match search IS re_embedded_order body with
    | Some m =>
        Segments header
                 (Str.strip (firstn (m_start m) body))
                 (Str.strip (skipn (m_start m) body))
    | None => Segments header body order
    end
  else Segments header body order.

(** The non-blank lines of a text, trimmed: what the partition property
    counts. *)
Definition nonblank_lines (s : str) : list str :=
  filter Str.truthy (map Str.strip (Str.splitlines s)).

(** Non-blank trimmed lines, from any state of the line splitter. *)
Definition nbl_aux (f : bool) (cur s : str) : list str :=
  filter Str.truthy (map Str.strip (Str.splitlines_aux f cur s)).

(** A line as the segmenter stores it: trimmed, without line boundary. *)
Definition clean (l : str) : Prop :=
  (forall c, In c l -> Chr.is_linebreak c = false) /\ Str.strip l = l.

(** The non-empty entries of a line buffer. *)
Definition F (ls : list str) : list str := filter Str.truthy ls.

(** The loop invariant of [split_segments] after the lines [done]. *)
Record inv (b : buffers) (done : list str) : Prop := Inv {
  inv_lines :
    F (header_lines b) ++ F (body_lines b) ++ F (order_lines b)
    = F (map Str.strip done);
  inv_header : state b = Header -> body_lines b = [] /\ order_lines b = [];
  inv_body : state b = Body -> order_lines b = [];
  inv_clean_h : Forall clean (header_lines b);
  inv_clean_b : Forall clean (body_lines b);
  inv_clean_o : Forall clean (order_lines b)
}.

End Segmenter.

(** ** Dictionaries

    A Python [dict] with string keys, as the list of its items in
    insertion order. *)

Module Dict.

Definition t (V : Type) : Type := list (str * V).

Fixpoint get {V : Type} (k : str) (d : t V) : option V :=
  match d with
  | [] => None
  | (k', v) :: d' => if Str.eqb k k' then Some v else get k d'
  end.

(** [d.get(k, default)] *)
Definition get_or {V : Type} (k : str) (default : V) (d : t V) : V :=
  match get k d with Some v => v | None => default end.

Definition mem {V : Type} (k : str) (d : t V) : bool :=
  match get k d with Some _ => true | None => false end.

(** [d[k] = v]: an existing key keeps its place. *)
Fixpoint set {V : Type} (k : str) (v : V) (d : t V) : t V :=
  match d with
  | [] => [(k, v)]
  | (k', v') :: d' => if Str.eqb k k' then (k', v) :: d' else (k', v') :: set k v d'
  end.

(** [d[k].append(x)] on a [defaultdict(list)]. *)
Definition append {V : Type} (k : str) (x : V) (d : t (list V)) : t (list V) :=
  set k (get_or k [] d ++ [x]) d.

Definition keys {V : Type} (d : t V) : list str := map fst d.

End Dict.

(** ** difflib.SequenceMatcher

    [SequenceMatcher(None, a, b).ratio()] of the standard library, which
    [_deduplicate_precedents] calls: no junk predicate, automatic junk
    heuristic on. *)

Module Difflib.

Definition count (c : ascii) (b : str) : nat :=
  List.length (filter (Chr.eqb c) b).

(** The "popular" elements purged from [b2j]: when [b] has at least
    200 elements, those occurring more than [len(b) // 100 + 1] times. *)
Definition popular (b : str) (c : ascii) : bool :=
  (200 <=? List.length b) && (List.length b / 100 + 1 <? count c b).

(** [j in b2j.get(a[i])] *)
Definition in_b2j (b : str) (ai bj : ascii) : bool :=
  Chr.eqb ai bj && negb (popular b bj).

(** One row of the inner loop of [find_longest_match]: [newj2len], as
    the list of its values for [j = j0, j0+1, ...] (0 where the
    dictionary has no entry); [prev] is [j2len] shifted by one, that is
    the values of [j2len.get(j-1, 0)]. *)
Fixpoint row (b0 : str) (ai : ascii) (blo bhi : nat) (b : str) (j : nat)
  (prev : list nat) : list nat :=
  match b with
  | [] => []
  | bj :: b' =>
      (if (blo <=? j) && (j <? bhi) && in_b2j b0 ai bj then S (hd 0 prev) else 0)
      :: row b0 ai blo bhi b' (S j) (tl prev)
  end.

(** The update of [(besti, bestj, bestsize)] along a row. *)
Fixpoint best_in_row (i : nat) (r : list nat) (j : nat) (best : nat * nat * nat)
  : nat * nat * nat :=
  match r with
  | [] => best
  | k :: r' =>
      let '(_, _, bestsize) := best in
      best_in_row i r' (S j)
        (if bestsize <? k then (i + 1 - k, j + 1 - k, k) else best)
  end.

(** The loop over [i] in [range(alo, ahi)]. *)
Fixpoint rows (b0 : str) (blo bhi : nat) (a : str) (i : nat) (ahi : nat)
  (j2len : list nat) (best : nat * nat * nat) : nat * nat * nat :=
  match a with
  | [] => best
  | ai :: a' =>
      if ahi <=? i then best
      else
        let r := row b0 ai blo bhi b0 0 (0 :: j2len) in
        rows b0 blo bhi a' (S i) ahi r (best_in_row i r 0 best)
  end.

Definition at_ (s : str) (i : nat) : ascii := nth i s Chr.SP.

(** First [while]: extend the match to the left. *)
Fixpoint extend_left (fuel : nat) (a b : str) (alo blo : nat) (best : nat * nat * nat)
  : nat * nat * nat :=
  match fuel with
  | 0 => best
  | S fuel' =>
      let '(besti, bestj, bestsize) := best in
      if (alo <? besti) && (blo <? bestj)
         && Chr.eqb (at_ a (besti - 1)) (at_ b (bestj - 1))
      then extend_left fuel' a b alo blo (besti - 1, bestj - 1, S bestsize)
      else best
  end.

(** Second [while]: extend the match to the right. *)
Fixpoint extend_right (fuel : nat) (a b : str) (ahi bhi : nat) (best : nat * nat * nat)
  : nat * nat * nat :=
  match fuel with
  | 0 => best
  | S fuel' =>
      let '(besti, bestj, bestsize) := best in
      if (besti + bestsize <? ahi) && (bestj + bestsize <? bhi)
         && Chr.eqb (at_ a (besti + bestsize)) (at_ b (bestj + bestsize))
      then extend_right fuel' a b ahi bhi (besti, bestj, S bestsize)
      else best
  end.

(** [find_longest_match(alo, ahi, blo, bhi)].  The last two [while]
    loops of the source extend over junk elements only; there are none
    without a junk predicate. *)
Definition find_longest_match (a b : str) (alo ahi blo bhi : nat) : nat * nat * nat :=
  let best := rows b blo bhi (skipn alo a) alo ahi (repeat 0 (List.length b))
                   (alo, blo, 0) in
  let best := extend_left (List.length a) a b alo blo best in
  extend_right (List.length a) a b ahi bhi best.

(** The sum of the sizes of the blocks [get_matching_blocks] collects.
    Every nested range is shorter on [a], so [fuel] above the length of
    [a] is never used up. *)
Fixpoint matched (fuel : nat) (a b : str) (alo ahi blo bhi : nat) : nat :=
  match fuel with
  | 0 => 0
  | S fuel' =>
      let '(i, j, k) := find_longest_match a b alo ahi blo bhi in
      if k =? 0 then 0
      else k
           + (if (alo <? i) && (blo <? j) then matched fuel' a b alo i blo j else 0)
           + (if (i + k <? ahi) && (j + k <? bhi)
              then matched fuel' a b (i + k) ahi (j + k) bhi else 0)
  end.

Definition matches (a b : str) : nat :=
  matched (S (List.length a)) a b 0 (List.length a) 0 (List.length b).

(** [ratio() > 0.85].  The ratio is [2.0 * matches / length], or 1.0
    for two empty strings; as a fraction it exceeds 17/20 exactly when
    the float does, for every length below 2^50. *)
Definition ratio_above_085 (a b : str) : bool :=
  let total := List.length a + List.length b in
  if total =? 0 then true else 17 * total <? 40 * matches a b.

(** [row] when the whole of [b] is in range. *)
Fixpoint row_all (b0 : str) (ai : ascii) (b : str) (prev : list nat) : list nat :=
  match b with
  | [] => []
  | bj :: b' =>
      (if in_b2j b0 ai bj then S (hd 0 prev) else 0) :: row_all b0 ai b' (tl prev)
  end.

(** For every position of [b], the length of the run of elements that
    are not popular ending there; [dprev] is the length reached just
    before [b]. *)
Fixpoint runs (b0 : str) (b : str) (dprev : nat) : list nat :=
  match b with
  | [] => []
  | c :: b' =>
      let d := if negb (popular b0 c) then S dprev else 0 in
      d :: runs b0 b' d
  end.

(** The run that ends just before index [i] of [b]. *)
Definition run_before (b : str) (i : nat) : nat :=
  match i with 0 => 0 | S i' => nth i' (runs b b 0) 0 end.

End Difflib.

(** ** postprocessing.py *)

Module Postprocessing.
Import Re.

(** [re.sub(r'\s+', ' ', s or '').strip(' ,;:\n\t')] *)
Definition _clean_whitespace (s : str) : str :=
  Str.strip_chars (L " ,;:" ++ [Chr.LF; Chr.TAB]) (sub no_flags (plus space) (L " ") s).

Definition word (s : string) : regex := seq [WordB; lit s; WordB].

Definition _normalize_statute (s0 : str) : str :=
  let s := Str.strip s0 in
  let s := sub I (word "NI Act") (L "Negotiable Instruments Act, 1881") s in
  let s := sub I (word "CrPC") (L "Code of Criminal Procedure, 1973") s in
  let s := sub I (word "IPC") (L "Indian Penal Code, 1860") s in
  let s := sub I (word "IT Act") (L "Information Technology Act, 2000") s in
  let s := sub I (word "BNS") (L "Bharatiya Nyaya Sanhita, 2023") s in
  s.

(** [\b(state|government|department|commission|bank|society|university|corporation|limited|pvt|ltd|company|union)\b] *)
Definition re_organisation_word : regex :=
  seq [WordB;
       Grp 1 (alt [lit "state"; lit "government"; lit "department"; lit "commission";
                   lit "bank"; lit "society"; lit "university"; lit "corporation";
                   lit "limited"; lit "pvt"; lit "ltd"; lit "company"; lit "union"]);
       WordB].

Definition _is_probable_lawyer (name : str) : bool :=
  if Str.is_empty name then false
  else if List.length (Str.words name) <? 2 then false
  else if found I re_organisation_word name then false
  else if List.length name <? 4 then false
  else true.

(** The three alternatives [in the\s+supreme\s+court], [before\s+the]
    and [civil\s+appellate\s+jurisdiction], each followed by the rest of
    the line, anchored at the start. *)
Definition re_leading_court : regex :=
  seq [Bol;
       Grp 1 (alt [seq [lit "in the"; plus space; lit "supreme"; plus space;
                        lit "court"; star Any];
                   seq [lit "before"; plus space; lit "the"; star Any];
                   seq [lit "civil"; plus space; lit "appellate"; plus space;
                        lit "jurisdiction"; star Any]])].

Definition roles : regex :=
  alt [lit "petitioner"; lit "appellant"; lit "respondent"; lit "defendant";
       lit "plaintiff"].

(** [^(petitioner|appellant|respondent|defendant|plaintiff)\s*[:\-]\s*] *)
Definition re_role_label : regex :=
  seq [Bol; Grp 1 roles; star space; Cls false (chars ":-"); star space].

(** An optional parenthesis, four digits, an optional parenthesis,
    spaces, one of [SCC|SCR|AIR|All ER], and the rest of the line. *)
Definition re_citation : regex :=
  seq [opt (chr "("); times 4 4 digit; opt (chr ")"); star space;
       Grp 1 (alt [lit "SCC"; lit "SCR"; lit "AIR"; lit "All ER"]); star Any].

(** [\brepresented by\b|\bthrough\b|\bfiled\b|\bunder\b] *)
Definition re_trailer : regex :=
  alt [word "represented by"; word "through"; word "filed"; word "under"].

(** [\b(petitioner|appellant|respondent|defendant|plaintiff)\b$] *)
Definition re_trailing_role : regex := seq [WordB; Grp 1 roles; WordB; Eol].

Definition _clean_party_name (name0 : str) : str :=
  let name := _clean_whitespace name0 in
  let name := sub I re_leading_court [] name in
  let name := sub I re_role_label [] name in
  let name := sub I re_citation [] name in
  let name := hd [] (split I re_trailer name) in
  let name := sub I re_trailing_role [] name in
  Str.strip_chars (L " ,;:-") name.

Definition mapping : Dict.t str :=
  map (fun kv => (L (fst kv), L (snd kv)))
    [("CASE_NUMBER", "case_number"); ("CASE", "case_number"); ("COURT", "court");
     ("DATE", "date"); ("JUDGE", "coram"); ("CORAM", "coram");
     ("PETITIONER", "petitioner"); ("APPELLANT", "petitioner");
     ("RESPONDENT", "respondent"); ("PRECEDENT", "precedent");
     ("PRECEDENTS", "precedent"); ("PROVISION", "provision");
     ("STATUTE", "statute"); ("LAWYER", "lawyer"); ("GPE", "gpe");
     ("ORGANIZATION", "organization")]%string.

Definition _label_key (label : str) : str :=
  Dict.get_or (Str.upper label) (Str.lower label) mapping.

(** [\s*\(\d{4}\).*$] *)
Definition re_year_suffix : regex :=
  seq [star space; chr "("; times 4 4 digit; chr ")"; star Any; Eol].

(** [\s+(SCC|SCR|AIR).*$] *)
Definition re_reporter_suffix : regex :=
  seq [plus space; Grp 1 (alt [lit "SCC"; lit "SCR"; lit "AIR"]); star Any; Eol].

(** The "base name" of a precedent: lines 96-97 of the source. *)
Definition base_name (prec : str) : str :=
  let base := Str.strip (sub no_flags re_year_suffix [] prec) in
  Str.strip (sub I re_reporter_suffix [] base).

(** Order-preserving removal of repeated elements: the elements of a
    [set] built from a list, in the order of their first insertion. *)
Fixpoint distinct (seen : list str) (l : list str) : list str :=
  match l with
  | [] => []
  | x :: l' =>
      if existsb (Str.eqb x) seen then distinct seen l'
      else x :: distinct (x :: seen) l'
  end.

(** [sorted(..., key=len, reverse=True)]: stable, longest first. *)
Fixpoint insert_by_len (x : str) (l : list str) : list str :=
  match l with
  | [] => [x]
  | y :: l' =>
      if List.length x <? List.length y then y :: insert_by_len x l'
      else x :: l
  end.

Definition sorted_by_len_desc (l : list str) : list str :=
  fold_right insert_by_len [] l.

(** The loop of [_deduplicate_precedents] over the sorted candidates;
    [seen] is [seen_base_names] and [unique] the list built so far. *)
Fixpoint dedup_loop (cands : list str) (seen : list str) (unique : list str)
  : list str :=
  match cands with
  | [] => unique
  | prec :: rest =>
      let base := base_name prec in
      let base_lower := Str.lower base in
      if List.length base <? 10 then dedup_loop rest seen unique
      else if existsb (fun s => Difflib.ratio_above_085 base_lower s) seen
      then dedup_loop rest seen unique
      else dedup_loop rest (seen ++ [base_lower]) (unique ++ [prec])
  end.

Section Fusion.

(** The order in which a [set] of strings is iterated is fixed by the
    hash values of the run; [set_order] gives it for the elements in
    order of first insertion. *)
Variable set_order : list str -> list str.

Definition _deduplicate_precedents (precedents : list str) : list str :=
  match precedents with
  | [] => []
  | _ =>
      let precedents_sorted := sorted_by_len_desc (set_order (distinct [] precedents)) in
      firstn 15 (dedup_loop precedents_sorted [] [])
  end.

(** The provenance suffix: a lazy group 1, an optional [[header]] or
    [[body]] after spaces with the word as group 2, then trailing
    spaces up to the end. *)
Definition re_provenance : regex :=
  seq [Bol; Grp 1 (lazy_star Any);
       opt (seq [star space; chr "["; Grp 2 (alt [lit "header"; lit "body"]); chr "]"]);
       star space; Eol].

(** [Hon['’]?\s*ble\.?\s*]; the typographic apostrophe of the source's
    set is beyond the 8-bit range and has no counterpart here. *)
Definition re_honble : regex :=
  seq [lit "Hon"; opt (Cls false (chars "'")); star space; lit "ble";
       opt (chr "."); star space].

(** [\bMr\.?\s+Justice\b] *)
Definition re_mr_justice : regex :=
  seq [WordB; lit "Mr"; opt (chr "."); plus space; lit "Justice"; WordB].

(** [^(and|&|-)$] *)
Definition re_connective : regex :=
  seq [Bol; Grp 1 (alt [lit "and"; chr "&"; chr "-"]); Eol].

(** [^[A-Z\s]{3,200}$] *)
Definition re_banner : regex :=
  seq [Bol; times 3 200 (Cls false [AZ; CSpace]); Eol].

(** [\b(Sr\.?\s*Adv|Advocate|Adv\.|A\.S\.G\.?|A\.A\.G\.?|AOR)\b] *)
Definition re_counsel_title : regex :=
  seq [WordB;
       Grp 1 (alt [seq [lit "Sr"; opt (chr "."); star space; lit "Adv"];
                   lit "Advocate"; lit "Adv.";
                   seq [lit "A.S.G"; opt (chr ".")];
                   seq [lit "A.A.G"; opt (chr ".")];
                   lit "AOR"]);
       WordB].

(** Step 1, one item of [bert_ents_list]: the key and the
    [(value, provenance)] pair appended under it, or [None] where the
    source says [continue]. *)
Definition bert_item (item : str * str) : option (str * (str * str)) :=
  let '(label, raw) := item in
  let lab := Str.strip (Str.upper label) in
  let '(val, prov) :=
    match match_ no_flags re_provenance raw with
    | Some m => (_clean_whitespace (group_or_empty raw 1 m),
                 Str.lower (group_or_empty raw 2 m))
    | None => (_clean_whitespace raw, [])
    end in
  if Str.is_empty val then None
  else
    let key := _label_key lab in
    let val := if Str.eqb key (L "statute") then _normalize_statute val else val in
    let val := if Str.eqb key (L "coram")
               then sub no_flags re_mr_justice (L "Justice") (sub I re_honble [] val)
               else val in
    Some (key, (val, if Str.is_empty prov then L "bert" else prov)).

(** Step 2, one item of [spacy_regex_ents]. *)
Definition spacy_item (item : str * str) : option (str * (str * str)) :=
  let '(label, val) := item in
  if Str.is_empty val then None
  else
    let key := _label_key label in
    let v := _clean_whitespace val in
    let v := if Str.eqb key (L "statute") then _normalize_statute v else v in
    Some (key, (v, L "spacy")).

(** [accum[key].append(...)] for an item that is not skipped. *)
Definition collect (f : str * str -> option (str * (str * str)))
  (accum : Dict.t (list (str * str))) (item : str * str)
  : Dict.t (list (str * str)) :=
  match f item with
  | Some (key, it) => Dict.append key it accum
  | None => accum
  end.

Definition collect_bert := collect bert_item.
Definition collect_spacy := collect spacy_item.

Definition is_party_key (key : str) : bool :=
  Str.eqb key (L "petitioner") || Str.eqb key (L "respondent").

(** The body of the cleaning loop up to the duplicate test: [None]
    where the source says [continue]. *)
Definition clean_value (key : str) (v : str) : option str :=
  if Str.is_empty v then None
  else
    let v2 := Str.strip_chars (L ".,;:") (Str.strip v) in
    let coram :=
      if Str.eqb key (L "coram") then
        if matches I re_connective v2 then None
        else if (List.length (Str.words v2) =? 1) && negb (found I (lit "justice") v2)
                && negb (Str.contains (L ".") v2 || Str.isupper v2)
        then None
        else Some (Str.strip (sub I (seq [Bol; Grp 1 re_honble]) [] v2))
      else Some v2 in
    match coram with
    | None => None
    | Some v2 =>
        let party :=
          if is_party_key key then
            let v2 := _clean_party_name v2 in
            if Str.is_empty v2 || (List.length (Str.words v2) <? 2) then None
            else Some v2
          else if Str.eqb key (L "organization") then
            if matches no_flags re_banner v2 && (2 <? List.length (Str.words v2))
            then None else Some v2
          else Some v2 in
        match party with
        | None => None
        | Some v2 =>
            let lawyer :=
              if Str.eqb key (L "lawyer") then
                let v2 := Str.strip (sub I re_counsel_title [] v2) in
                if _is_probable_lawyer v2 then Some v2 else None
              else Some v2 in
            match lawyer with
            | None => None
            | Some v2 =>
                if Str.eqb key (L "statute") && (List.length v2 <? 6) then None
                else if Str.eqb key (L "precedent") && (List.length v2 <? 15) then None
                else Some v2
            end
        end
    end.

(** The cleaning loop: [seen] holds the lowered values kept so far. *)
Fixpoint clean_loop (key : str) (combined : list str) (seen : list str) : list str :=
  match combined with
  | [] => []
  | v :: rest =>
      match clean_value key v with
      | None => clean_loop key rest seen
      | Some v2 =>
          let k_lower := Str.lower v2 in
          if existsb (Str.eqb k_lower) seen then clean_loop key rest seen
          else v2 :: clean_loop key rest (k_lower :: seen)
      end
  end.

(** The three provenance buckets of step 3. *)
Definition is_header_prov (prov : str) : bool :=
  Str.contains (L "header") (Str.lower prov).
Definition is_bert_prov (prov : str) : bool :=
  negb (is_header_prov prov) && Str.eqb (Str.lower prov) (L "bert").
Definition is_other_prov (prov : str) : bool :=
  negb (is_header_prov prov) && negb (Str.eqb (Str.lower prov) (L "bert")).

Definition bucket (p : str -> bool) (items : list (str * str)) : list str :=
  map fst (filter (fun it => p (snd it)) items).

Definition combined_of (items : list (str * str)) : list str :=
  bucket is_header_prov items ++ bucket is_bert_prov items ++ bucket is_other_prov items.

(** Step 3 for one key. *)
Definition fuse (key : str) (items : list (str * str)) : list str :=
  let combined := combined_of items in
  let combined :=
    if Str.eqb key (L "precedent") then _deduplicate_precedents combined
    else combined in
  clean_loop key combined [].

Definition expected : list str :=
  map L ["case_number"; "court"; "date"; "coram"; "petitioner"; "respondent";
         "lawyer"; "precedent"; "provision"; "statute"; "gpe"; "organization"]%string.

(** Step 4 *)
Definition ensure_expected (final : Dict.t (list str)) : Dict.t (list str) :=
  fold_left (fun f k => if Dict.mem k f then f else Dict.set k [] f) expected final.

(** [final.get(k, [])[1:] if len(final.get(k, [])) > 1 else []] *)
Definition extras (k : str) (final : Dict.t (list str)) : list str :=
  let l := Dict.get_or k [] final in
  if 1 <? List.length l then tl l else [].

(** [\s+v[.]?s?[.]?\s+] *)
Definition re_versus_split : regex :=
  seq [plus space; chr "v"; opt (Cls false (chars ".")); opt (chr "s");
       opt (Cls false (chars ".")); plus space].

Definition _infer_parties_from_case_name (case_name : str) : option str * option str :=
  if Str.is_empty case_name || negb (Str.contains (L " v") (Str.lower case_name))
  then (None, None)
  else
    match split I re_versus_split case_name with
    | [p0; p1] => (Some (Str.strip p0), Some (Str.strip p1))
    | _ => (None, None)
    end.

Definition truthy_list (l : list str) : bool :=
  match l with [] => false | _ => true end.

(** Step 6 *)
Definition party_fallback (final : Dict.t (list str)) : Dict.t (list str) :=
  if negb (truthy_list (Dict.get_or (L "petitioner") [] final))
     && negb (truthy_list (Dict.get_or (L "respondent") [] final))
  then
    let cname :=
      match Dict.get (L "case_name") final with
      | Some (c :: _) => c
      | _ => []
      end in
    let '(pet, resp) := _infer_parties_from_case_name cname in
    let final :=
      match pet with
      | Some p0 => if Str.truthy p0 then Dict.append (L "petitioner") p0 final else final
      | None => final
      end in
    match resp with
    | Some p1 => if Str.truthy p1 then Dict.append (L "respondent") p1 final else final
    | None => final
    end
  else final.

Definition merge_entities (bert_ents_list spacy_regex_ents : list (str * str))
  : Dict.t (list str) :=
  let accum := fold_left collect_bert bert_ents_list [] in
  let accum := fold_left collect_spacy spacy_regex_ents accum in
  let final := map (fun kv => (fst kv, fuse (fst kv) (snd kv))) accum in
  let final := ensure_expected final in
  let final := Dict.set (L "extra_case_numbers") (extras (L "case_number") final) final in
  let final := Dict.set (L "extra_courts") (extras (L "court") final) final in
  let final := Dict.set (L "extra_dates") (extras (L "date") final) final in
  party_fallback final.

(** The table of step 3, before the expected keys are added. *)
Definition fused_table (b s : list (str * str)) : Dict.t (list str) :=
  map (fun kv => (fst kv, fuse (fst kv) (snd kv)))
      (fold_left collect_spacy s (fold_left collect_bert b [])).

(** Step 5 *)
Definition add_extras (final : Dict.t (list str)) : Dict.t (list str) :=
  let final := Dict.set (L "extra_case_numbers") (extras (L "case_number") final) final in
  let final := Dict.set (L "extra_courts") (extras (L "court") final) final in
  Dict.set (L "extra_dates") (extras (L "date") final) final.

(** Steps 4 to 6. *)
Definition finish (final : Dict.t (list str)) : Dict.t (list str) :=
  party_fallback (add_extras (ensure_expected final)).

End Fusion.

(** The items of a list that step 1 or step 2 does not skip, each with
    its key. *)
Definition contribs (f : str * str -> option (str * (str * str)))
  (l : list (str * str)) : list (str * (str * str)) :=
  flat_map (fun x => match f x with Some c => [c] | None => [] end) l.

(** The [(value, provenance)] pairs among them that go under [key]. *)
Definition items_for (key : str) (c : list (str * (str * str))) : list (str * str) :=
  map snd (filter (fun kc => Str.eqb key (fst kc)) c).

Definition extra_keys : list str :=
  map L ["extra_case_numbers"; "extra_courts"; "extra_dates"]%string.

(** The lowered base name, as the loop compares it. *)
Definition lbase (p : str) : str := Str.lower (base_name p).

(** [c] is a near-duplicate of the earlier entry [r]. *)
Definition similar (c r : str) : bool := Difflib.ratio_above_085 (lbase c) (lbase r).

Definition longer_first (x y : str) : Prop := List.length y <= List.length x.

(** Lists with the same elements and the same first occurrences. *)
Definition same_firsts (l' l : list str) : Prop :=
  (forall seen, distinct seen l' = distinct seen l) /\
  (forall x, In x l' <-> In x l).

(** [accum[key].append(it)] for a pair of key and item. *)
Definition add (d : Dict.t (list (str * str))) (c : str * (str * str))
  : Dict.t (list (str * str)) :=
  Dict.append (fst c) (snd c) d.

(** The candidate [x] cannot be kept any more: it is rejected, or its
    lowered text is among [sk]. *)
Definition covered (key : str) (sk : list str) (x : str) : Prop :=
  match clean_value key x with
  | None => True
  | Some v2 => existsb (Str.eqb (Str.lower v2)) sk = true
  end.

(** What the cleaning loop has seen after the candidates [a]. *)
Definition seen_after (key : str) (a sk : list str) : list str :=
  rev (map Str.lower (clean_loop key a sk)) ++ sk.

(** *** Tagged model candidates

    [extract_full_data] hands every model candidate to
    [merge_entities] as its text followed by " [header]" or " [body]"
    (app.py, lines 169-174).  The definitions below name such a
    candidate and what steps 1 and 3 of [merge_entities] make of it;
    that [bert_item] does so is proved, not assumed
    ([ProvenanceFacts.bert_item_tagged]). *)

(** The zone of the text a model candidate was found in. *)
Inductive origin := FromHeader | FromBody.


(** The tag [extract_full_data] appends to the text of a model
    candidate (app.py, lines 169-174), and the provenance word that
    step 1 of [merge_entities] reads back from it. *)
Definition origin_tag (z : origin) : str :=
  match z with FromHeader => L " [header]" | FromBody => L " [body]" end.


(** A model candidate: the label, the text and the zone. *)
Record candidate := Candidate { c_label : str; c_text : str; c_origin : origin }.

(** The pair handed to [merge_entities] for it. *)
Definition tagged_item (c : candidate) : str * str :=
  (c_label c, c_text c ++ origin_tag (c_origin c)).







(** The iteration order of a run in which every set yields its elements
    in order of insertion. *)
Definition insertion_order (l : list str) : list str := l.

(** The set of precedent candidates that [_deduplicate_precedents]
    iterates over, for the two lists given to [merge_entities]. *)
Definition precedent_candidates (bert_ents_list spacy_regex_ents : list (str * str))
  : list str :=
  distinct []
    (combined_of
       (Dict.get_or (L "precedent") []
          (fold_left collect_spacy spacy_regex_ents
             (fold_left collect_bert bert_ents_list [])))).

End Postprocessing.

(** ** party_extractor.py *)

Module PartyExtractor.
Import Re.

(** The thirteen patterns of [_clean_party_chunk], in source order:
    the "and others" suffixes, role markers with the rest of the line,
    numeric and written dates, bracketed years, reporter citations,
    case numbers, "Criminal Appeal" and "Crl.O.P" with the rest of the
    line, "Rep. by" and "Through" with the rest of the line, and a
    trailing preposition. *)
Definition re_and_others : regex :=
  seq [WordB;
       alt [seq [chr "&"; star space; lit "Anr"; opt (chr ".")];
            seq [chr "&"; star space; lit "Ors"; opt (chr ".")];
            seq [lit "and"; plus space; lit "Another"];
            seq [lit "and"; plus space; lit "Others"]];
       WordB].

Definition re_role_rest : regex :=
  seq [WordB;
       alt [lit "Petitioner"; lit "Appellant"; lit "Respondent"; lit "Defendant"];
       WordB; star Any; Eol].

Definition sep_cls : regex := Cls false (chars "./-").

Definition re_numeric_date : regex :=
  seq [WordB; times 1 2 digit; sep_cls; times 1 2 digit; sep_cls;
       times 2 4 digit; WordB].

Definition month_abbr : regex :=
  alt [lit "Jan"; lit "Feb"; lit "Mar"; lit "Apr"; lit "May"; lit "Jun";
       lit "Jul"; lit "Aug"; lit "Sep"; lit "Oct"; lit "Nov"; lit "Dec"].

Definition re_written_date : regex :=
  seq [WordB; times 1 2 digit; plus space; month_abbr; star (Cls false [az]);
       plus space; times 4 4 digit; WordB].

Definition re_square_year : regex := seq [chr "["; times 4 4 digit; chr "]"].
Definition re_round_year : regex := seq [chr "("; times 4 4 digit; chr ")"].

Definition re_reporter : regex :=
  seq [WordB; alt [lit "SCC"; lit "SCR"; lit "INSC"; lit "AIR"]; plus space;
       plus digit].

Definition re_number : regex :=
  seq [WordB; lit "No"; opt (chr "."); star space; plus digit].

Definition re_criminal_appeal : regex :=
  seq [WordB; lit "Criminal"; plus space; lit "Appeal"; WordB; star Any; Eol].

Definition re_crl_op : regex :=
  seq [WordB; lit "Crl"; opt (chr "."); chr "O"; opt (chr "."); chr "P";
       opt (chr "."); WordB; star Any; Eol].

Definition re_rep_by : regex :=
  seq [WordB; lit "Rep"; opt (lit "resented"); opt (chr "."); plus space;
       lit "by"; WordB; star Any; Eol].

Definition re_through : regex := seq [WordB; lit "Through"; WordB; star Any; Eol].

Definition re_trailing_preposition : regex :=
  seq [plus space; alt [lit "in"; lit "of"; lit "the"; lit "at"; lit "to"];
       star space; Eol].

Definition _clean_party_chunk (chunk : str) : str :=
  if Str.is_empty chunk then []
  else
    let chunk := sub I re_and_others [] chunk in
    let chunk := sub I re_role_rest [] chunk in
    let chunk := sub no_flags re_numeric_date [] chunk in
    let chunk := sub I re_written_date [] chunk in
    let chunk := sub no_flags re_square_year [] chunk in
    let chunk := sub no_flags re_round_year [] chunk in
    let chunk := sub I re_reporter [] chunk in
    let chunk := sub I re_number [] chunk in
    let chunk := sub I re_criminal_appeal [] chunk in
    let chunk := sub I re_crl_op [] chunk in
    let chunk := sub I re_rep_by [] chunk in
    let chunk := sub I re_through [] chunk in
    let chunk := sub I re_trailing_preposition [] chunk in
    Str.strip_chars (L " .,;:-") (sub no_flags (plus space) (L " ") chunk).

(** Optional spaces, then a comma, a semicolon, the word "and" or an
    ampersand, then optional spaces. *)
Definition re_delimiter : regex :=
  seq [star space;
       alt [chr ","; chr ";"; seq [WordB; lit "and"; WordB]; chr "&"];
       star space].

(** The filter of the loop over the parts: cleaned, at least three
    characters, a capital first, no case number marker. *)
Definition keep_name (part : str) : bool :=
  Str.truthy part && (3 <=? List.length part)
  && matches no_flags (seq [Bol; Cls false [AZ]]) part
  && negb (found I re_number part).

(** The "Deduplicate" loop: first occurrences, compared in lower
    case; [seen] holds the keys met so far. *)
Fixpoint unique_names (seen : list str) (names : list str) : list str :=
  match names with
  | [] => []
  | n :: rest =>
      let key := Str.lower n in
      if existsb (Str.eqb key) seen then unique_names seen rest
      else n :: unique_names (key :: seen) rest
  end.

Definition _extract_names_from_block (block : str) : list str :=
  if Str.is_empty block then []
  else
    let parts := split I re_delimiter block in
    let names := filter keep_name (map _clean_party_chunk parts) in
    unique_names [] names.

Definition party_cls : regex := Cls false (AZ :: CSpace :: chars ".,&").

(** Strategy 1: a block of names, a line holding VERSUS (or V, VS
    with an optional full stop), and a second block of names. *)
Definition versus_pattern : regex :=
  seq [Bol; Grp 1 (seq [Cls false [AZ]; lazy_plus party_cls]);
       star space; Lit Chr.LF; star space;
       alt [lit "VERSUS"; seq [chr "V"; opt (Cls false (chars "Ss")); opt (chr ".")]];
       star space; Lit Chr.LF; star space;
       Grp 2 (seq [Cls false [AZ]; lazy_plus party_cls]);
       alt [Lit Chr.LF; Eol]].

Definition inline_cls : regex := Cls false (AZ :: az :: CSpace :: chars ".,&").

(** Strategy 2: "Name v. Name" on one line, up to a role word, a
    parenthesis, a banner or the end. *)
Definition inline_versus : regex :=
  seq [Grp 1 (seq [Cls false [AZ]; lazy_times 3 60 inline_cls]);
       plus space; chr "v"; opt (chr "."); opt (chr "s"); opt (chr ".");
       plus space;
       Grp 2 (seq [Cls false [AZ]; lazy_times 3 60 inline_cls]);
       Ahead (seq [star space;
                   alt [lit "Petitioner"; lit "Respondent"; lit "Appellant";
                        chr "("; lit "IN THE"; lit "CORAM"; lit "Date"; Eol]])].

Definition label_tail : list regex :=
  [opt (lit "(s)"); star space; Cls false (chars ":-"); star space].

(** Strategy 3: a labelled line. *)
Definition re_app_line : regex :=
  seq ([Bol; star space; alt [lit "Petitioner"; lit "Appellant"]] ++ label_tail
       ++ [Grp 1 (lazy_plus Any); Eol]).

Definition re_resp_line : regex :=
  seq ([Bol; star space; lit "Respondent"] ++ label_tail
       ++ [Grp 1 (lazy_plus Any); Eol]).

Definition any_char : regex := alt [Any; Lit Chr.LF].

(** Strategy 4: the lines after a label, up to the next marker. *)
Definition re_app_block : regex :=
  seq ([alt [lit "Petitioner"; lit "Appellant"]] ++ label_tail
       ++ [Grp 1 (lazy_star any_char);
           Ahead (seq [Lit Chr.LF; star space;
                       alt [lit "Respondent"; lit "v."; lit "CORAM"; lit "Date";
                            lit "Advocate"; Eol]])]).

Definition re_resp_block : regex :=
  seq ([lit "Respondent"] ++ label_tail
       ++ [Grp 1 (lazy_star any_char);
           Ahead (seq [Lit Chr.LF; star space;
                       alt [lit "CORAM"; lit "Date"; lit "Advocate";
                            lit "Appearances"; Eol]])]).

Definition is_nil {A : Type} (l : list A) : bool :=
  match l with [] => true | _ => false end.

(** The names of group 1 of a match, when there is one. *)
Definition names_of (s : str) (m : option rmatch) (default : list str) : list str :=
  match m with
  | Some m => _extract_names_from_block (Str.strip (group_or_empty s 1 m))
  | None => default
  end.

(** Strategies 3 and 4 and the capped return (lines 126-172). *)
Definition labelled (header_text : str) (appellants respondents : list str)
  : list str * list str :=
  let appellants := names_of header_text (search IM re_app_line header_text) appellants in
  let respondents := names_of header_text (search IM re_resp_line header_text) respondents in
  let appellants :=
    if is_nil appellants
    then names_of header_text (search I re_app_block header_text) appellants
    else appellants in
  let respondents :=
    if is_nil respondents
    then names_of header_text (search I re_resp_block header_text) respondents
    else respondents in
  (firstn 5 appellants, firstn 3 respondents).

(** Strategy 2 and what follows it (lines 110-172). *)
Definition inline (header_text : str) (appellants respondents : list str)
  : list str * list str :=
  match search I inline_versus header_text with
  | Some m =>
      if is_nil appellants then
        let left := _clean_party_chunk (Str.strip (group_or_empty header_text 1 m)) in
        let right := _clean_party_chunk (Str.strip (group_or_empty header_text 2 m)) in
        if Str.truthy left && Str.truthy right
           && (3 <=? List.length left) && (3 <=? List.length right)
        then ([left], [right])
        else labelled header_text appellants respondents
      else labelled header_text appellants respondents
  | None => labelled header_text appellants respondents
  end.

(** [extract_parties(header_text, entities)]; the entity dictionary is
    not read by the source. *)
Definition extract_parties (header_text : str) (entities : Dict.t (list str))
  : list str * list str :=
  if Str.is_empty header_text then ([], [])
  else
    match search IM versus_pattern header_text with
    | Some m =>
        let appellants :=
          _extract_names_from_block (Str.strip (group_or_empty header_text 1 m)) in
        let respondents :=
          _extract_names_from_block (Str.strip (group_or_empty header_text 2 m)) in
        if negb (is_nil appellants) && negb (is_nil respondents)
        then (appellants, respondents)
        else inline header_text appellants respondents
    | None => inline header_text [] []
    end.

End PartyExtractor.

(** ** selectors.py *)

Module Selectors.
Import Re.

(** *** Dates *)

(** A calendar date: what [datetime.strptime] returns for a format
    without time of day. *)
Record date := Date { year : nat; month : nat; day : nat }.

Definition date_leb (a b : date) : bool :=
  (year a <? year b)
  || ((year a =? year b)
      && ((month a <? month b)
          || ((month a =? month b) && (day a <=? day b)))).

Definition is_leap (y : nat) : bool :=
  ((y mod 4 =? 0) && negb (y mod 100 =? 0)) || (y mod 400 =? 0).

Definition days_in_month (y m : nat) : nat :=
  match m with
  | 1 | 3 | 5 | 7 | 8 | 10 | 12 => 31
  | 4 | 6 | 9 | 11 => 30
  | 2 => if is_leap y then 29 else 28
  | _ => 0
  end.

(** The check of the [date] constructor: year 1 to 9999 and a day that
    exists. *)
Definition valid_date (y m d : nat) : bool :=
  (1 <=? y) && (y <=? 9 * 1000 + 999) && (1 <=? m) && (m <=? 12)
  && (1 <=? d) && (d <=? days_in_month y m).

(** The directives and literal characters of a format string. *)
Inductive directive :=
| D_d | D_m | D_B | D_b | D_Y | D_y
| D_ws
| D_lit (c : ascii).

Definition month_names : list string :=
  ["january"; "february"; "march"; "april"; "may"; "june"; "july"; "august";
   "september"; "october"; "november"; "december"]%string.

Definition month_abbrs : list string :=
  ["jan"; "feb"; "mar"; "apr"; "may"; "jun"; "jul"; "aug"; "sep"; "oct"; "nov";
   "dec"]%string.

(** The alternation for the month names: longest first, as
    [_strptime] sorts them. *)
Definition re_month_names : regex :=
  alt (map lit ["september"; "february"; "november"; "december"; "january";
                "october"; "august"; "march"; "april"; "june"; "july"; "may"]%string).

Definition re_month_abbrs : regex := alt (map lit month_abbrs).

(** The group of each directive, as in [_strptime.TimeRE]; a run of
    white space in the format matches one or more white-space
    characters. *)
Definition directive_regex (d : directive) : regex :=
  match d with
  | D_d => Grp 1 (alt [seq [chr "3"; Cls false [rng "0" "1"]];
                       seq [Cls false [rng "1" "2"]; digit];
                       seq [chr "0"; Cls false [rng "1" "9"]];
                       Cls false [rng "1" "9"];
                       seq [chr " "; Cls false [rng "1" "9"]]])
  | D_m => Grp 2 (alt [seq [chr "1"; Cls false [rng "0" "2"]];
                       seq [chr "0"; Cls false [rng "1" "9"]];
                       Cls false [rng "1" "9"]])
  | D_B => Grp 3 re_month_names
  | D_b => Grp 4 re_month_abbrs
  | D_Y => Grp 5 (seq [digit; digit; digit; digit])
  | D_y => Grp 6 (seq [digit; digit])
  | D_ws => plus space
  | D_lit c => Lit c
  end.

(** [int(s)] for a string of digits, possibly after a space. *)
Definition int_of (s : str) : nat :=
  fold_left (fun n c => if Chr.is_digit c then 10 * n + (Chr.code c - 48) else n) s 0.

Fixpoint index_of (x : str) (l : list string) (i : nat) : option nat :=
  match l with
  | [] => None
  | y :: l' => if Str.eqb x (L y) then Some i else index_of x l' (S i)
  end.

(** [datetime.strptime(s, fmt)]; [None] where it raises [ValueError]. *)
Definition strptime (s : str) (fmt : list directive) : option date :=
  match match_ I (seq (map directive_regex fmt)) s with
  | None => None
  | Some m =>
      if negb (m_end m =? List.length s) then None
      else
        let y :=
          match group s 5 m, group s 6 m with
          | Some g, _ => int_of g
          | None, Some g => if int_of g <=? 68 then int_of g + 2000 else int_of g + 1900
          | None, None => 1900
          end in
        let mo :=
          match group s 2 m, group s 3 m, group s 4 m with
          | Some g, _, _ => Some (int_of g)
          | None, Some g, _ => index_of (Str.lower g) month_names 1
          | None, None, Some g => index_of (Str.lower g) month_abbrs 1
          | None, None, None => Some 1
          end in
        let d := match group s 1 m with Some g => int_of g | None => 1 end in
        match mo with
        | Some mo => if valid_date y mo d then Some (Date y mo d) else None
        | None => None
        end
  end.

Definition fmts : list (list directive) :=
  let dot := D_lit "."%char in
  let slash := D_lit "/"%char in
  let dash := D_lit "-"%char in
  let comma := D_lit ","%char in
  [[D_d; D_ws; D_B; D_ws; D_Y];
   [D_d; D_ws; D_b; D_ws; D_Y];
   [D_d; dot; D_m; dot; D_Y];
   [D_d; slash; D_m; slash; D_Y];
   [D_d; dash; D_m; dash; D_Y];
   [D_d; D_ws; D_B; comma; D_ws; D_Y];
   [D_d; D_ws; D_b; comma; D_ws; D_Y];
   [D_d; D_ws; D_m; D_ws; D_Y];
   [D_d; dot; D_m; dot; D_y];
   [D_d; slash; D_m; slash; D_y];
   [D_d; dash; D_m; dash; D_y]].

(** [(\d)(st|nd|rd|th)\b] *)
Definition re_ordinal : regex :=
  seq [Grp 1 digit; Grp 2 (alt [lit "st"; lit "nd"; lit "rd"; lit "th"]); WordB].

(** [(\d{1,2})\s+([A-Za-z]{3,9})\s+(\d{4})] *)
Definition re_day_month_year : regex :=
  seq [Grp 1 (times 1 2 digit); plus space;
       Grp 2 (times 3 9 (Cls false [AZ; az])); plus space;
       Grp 3 (times 4 4 digit)].

(** The first format that parses. *)
Fixpoint first_format (s : str) (fs : list (list directive)) : option date :=
  match fs with
  | [] => None
  | f :: fs' =>
      match strptime s f with
      | Some dt => Some dt
      | None => first_format s fs'
      end
  end.

Definition _try_parse_date (s0 : str) : option date :=
  let s := Str.strip s0 in
  if Str.is_empty s then None
  else
    let s := sub_with I re_ordinal (fun subj m => group_or_empty subj 1 m) s in
    match first_format s fmts with
    | Some dt => Some dt
    | None =>
        match search no_flags re_day_month_year s with
        | Some m =>
            let t := group_or_empty s 1 m ++ L " " ++ group_or_empty s 2 m
                     ++ L " " ++ group_or_empty s 3 m in
            match strptime t [D_d; D_ws; D_B; D_ws; D_Y] with
            | Some dt => Some dt
            | None => strptime t [D_d; D_ws; D_b; D_ws; D_Y]
            end
        | None => None
        end
    end.

(** The loop that trims the candidates and drops blanks and
    case-insensitive repeats; [seen] holds the lowered keys. *)
Fixpoint date_candidates (dates : list str) (seen : list str) : list str :=
  match dates with
  | [] => []
  | d :: rest =>
      let d2 := Str.strip d in
      if Str.is_empty d2 then date_candidates rest seen
      else
        let key := Str.lower d2 in
        if existsb (Str.eqb key) seen then date_candidates rest seen
        else d2 :: date_candidates rest (key :: seen)
  end.

(** [max(valid, key=lambda x: x[1])]: the first pair with the latest
    date. *)
Fixpoint latest (best : str * date) (l : list (str * date)) : str * date :=
  match l with
  | [] => best
  | x :: l' => latest (if date_leb (snd x) (snd best) then best else x) l'
  end.

(** The pairs of [valid]: the candidates that parse to a date not
    after [now]. *)
Fixpoint valid_dates (now : date) (candidates : list str) : list (str * date) :=
  match candidates with
  | [] => []
  | d :: rest =>
      match _try_parse_date d with
      | Some dt =>
          if date_leb dt now then (d, dt) :: valid_dates now rest
          else valid_dates now rest
      | None => valid_dates now rest
      end
  end.

(** [select_primary_date(dates, header_text)]; [now] is the date of
    [datetime.now()] (a parsed date has no time of day, so it is not
    after that instant exactly when it is not after that day). *)
Definition select_primary_date (now : date) (dates : list str)
  (header_text : option str) : option str :=
  match dates with
  | [] => None
  | _ =>
      let candidates := date_candidates dates [] in
      let in_header :=
        match header_text with
        | Some h =>
            if Str.truthy h
            then find (fun d => Str.contains (Str.lower d) (Str.lower h)) candidates
            else None
        | None => None
        end in
      match in_header with
      | Some d => Some d
      | None =>
          match valid_dates now candidates with
          | v :: vs => Some (fst (latest v vs))
          | [] => hd_error candidates
          end
      end
  end.

(** Two processing dates treat a candidate alike: it does not parse,
    or its date is not after both, or after both. *)
Definition same_side (now1 now2 : date) (d : str) : bool :=
  match _try_parse_date d with
  | Some dt => Bool.eqb (date_leb dt now1) (date_leb dt now2)
  | None => true
  end.

(** *** Case names *)

(** [_clean_party_chunk] of selectors.py: the steps of the party
    extractor's function of the same name, without the "Crl.O.P" one. *)
Definition _clean_party_chunk (chunk : str) : str :=
  if Str.is_empty chunk then []
  else
    let chunk := sub I PartyExtractor.re_and_others [] chunk in
    let chunk := sub I PartyExtractor.re_role_rest [] chunk in
    let chunk := sub no_flags PartyExtractor.re_numeric_date [] chunk in
    let chunk := sub I PartyExtractor.re_written_date [] chunk in
    let chunk := sub no_flags PartyExtractor.re_square_year [] chunk in
    let chunk := sub no_flags PartyExtractor.re_round_year [] chunk in
    let chunk := sub I PartyExtractor.re_reporter [] chunk in
    let chunk := sub I PartyExtractor.re_number [] chunk in
    let chunk := sub I PartyExtractor.re_criminal_appeal [] chunk in
    let chunk := sub I PartyExtractor.re_rep_by [] chunk in
    let chunk := sub I PartyExtractor.re_through [] chunk in
    let chunk := sub I PartyExtractor.re_trailing_preposition [] chunk in
    Str.strip_chars (L " .,;:-") (sub no_flags (plus space) (L " ") chunk).

Definition dot : regex := opt (chr ".").
Definition colon_dash : regex := opt (Cls false (chars ":-")).

(** A bracketed year, a volume, a reporter and a page at the start. *)
Definition citation_head (reporters : list regex) : list regex :=
  [Bol; star space; chr "["; times 4 4 digit; chr "]"; plus space; plus digit;
   plus space; alt reporters; plus space; plus digit; star space].

(** The same followed by the neutral citation: optional separators
    and numbers, then INSC and a number. *)
Definition re_citation_insc : regex :=
  seq (citation_head [seq [lit "S.C.R"; dot]; lit "SCC"; lit "SCR"]
       ++ [colon_dash; star space; star digit; star space; colon_dash; star space;
           plus digit; plus space; lit "INSC"; plus space; plus digit; star space]).

Definition re_citation_start : regex :=
  seq (citation_head [seq [lit "S.C.R"; dot]; lit "SCC"; lit "SCR"; lit "INSC"]).

(** A case number before the case name: "Criminal Appeal No. 12",
    as little as possible after it, an optional "of 2020". *)
Definition re_leading_case_number : regex :=
  seq [Bol; star space; alt [lit "Criminal"; lit "Civil"]; plus space;
       alt [lit "Appeal"; lit "Application"]; plus space; lit "No"; dot;
       star space; plus digit; lazy_star Any;
       opt (seq [lit "of"; plus space; times 4 4 digit]); star space].

Definition re_date_line : regex :=
  seq [Bol; star space; lit "Date"; opt (chr "d"); star space; chr ":";
       lazy_star Any; times 4 4 digit; star space].

Definition re_coram_line : regex :=
  seq [Bol; star space; lit "CORAM"; star space; chr ":"; lazy_star Any;
       Ahead (alt [Lit Chr.LF; Eol])].

(** Step 2A: two blocks of names around VERSUS, V, VS. *)
Definition versus_pattern : regex :=
  seq [Grp 1 (seq [Cls false [AZ]; lazy_plus PartyExtractor.party_cls]);
       plus space;
       alt [lit "VERSUS"; seq [chr "V"; opt (Cls false (chars "Ss")); dot]];
       plus space;
       Grp 2 (seq [Cls false [AZ]; lazy_plus PartyExtractor.party_cls]);
       Ahead (seq [star space;
                   alt [lit "IN THE"; lit "Date"; lit "CORAM"; lit "Bench";
                        lit "Advocate"; lit "Advs."; lit "represented"; chr "(";
                        Eol]])].

Definition name_cls : regex :=
  Cls false (AZ :: az :: d09 :: CSpace :: chars ".-&,'/").

(** Step 2B: "Name v. Name". *)
Definition pattern : regex :=
  seq [Grp 1 (seq [Cls false [AZ]; lazy_times 2 80 name_cls]);
       plus space; chr "v"; dot; opt (chr "s"); dot; plus space;
       Grp 2 (seq [Cls false [AZ]; lazy_times 2 80 name_cls]);
       Ahead (seq [star space;
                   alt [lit "Petitioner"; lit "Respondent"; lit "Appellant";
                        lit "(Criminal"; lit "IN THE"; lit "Date"; lit "CORAM";
                        lit "Appearances"; lit "Advs."; chr "["; chr "("; Eol]])].

Definition re_in_re : regex :=
  seq [WordB; lit "In"; plus space; lit "Re"; colon_dash; star space;
       Grp 1 (seq [Cls false [AZ]; times 5 60 (Cls false [AZ; az; CSpace])])].

(** The two cleaned sides of a match. *)
Definition sides (text : str) (m : rmatch) : str * str :=
  (_clean_party_chunk (Str.strip (group_or_empty text 1 m)),
   _clean_party_chunk (Str.strip (group_or_empty text 2 m))).

Definition both_long (left_ right_ : str) : bool :=
  Str.truthy left_ && Str.truthy right_
  && (3 <=? List.length left_) && (3 <=? List.length right_).

(** Step 2B and what follows it. *)
Definition standard_name (text : str) : option str :=
  match search I pattern text with
  | None =>
      match search I re_in_re text with
      | Some m =>
          Some (L "In Re " ++ _clean_party_chunk (Str.strip (group_or_empty text 1 m)))
      | None => None
      end
  | Some m =>
      let '(left_, right_) := sides text m in
      if both_long left_ right_ then Some (left_ ++ L " v. " ++ right_) else None
  end.

Definition extract_case_name_from_header (header : str) : option str :=
  if Str.is_empty header then None
  else
    let text := Str.strip header in
    let text := sub I re_citation_insc [] text in
    let text := sub I re_citation_start [] text in
    let text := sub I re_leading_case_number [] text in
    let text := sub IM re_date_line [] text in
    let text := sub IM re_coram_line [] text in
    let text := sub no_flags (seq [star space; Lit Chr.LF; star space]) (L " ") text in
    let text := Str.strip (sub no_flags (plus space) (L " ") text) in
    match search I versus_pattern text with
    | Some m =>
        let '(left_, right_) := sides text m in
        if both_long left_ right_ then Some (left_ ++ L " v. " ++ right_)
        else standard_name text
    | None => standard_name text
    end.

(** [\s+[Vv][Ss]?\.?\s+] *)
Definition re_v_variants : regex :=
  seq [plus space; Cls false (chars "Vv"); opt (Cls false (chars "Ss")); dot;
       plus space].

(** [\s+v\.?\s*$] *)
Definition re_hanging_v : regex := seq [plus space; chr "v"; dot; star space; Eol].

(** [name[0].upper() + name[1:] if len(name) > 1 else name.upper()] *)
Definition capitalize_first (name : str) : str :=
  match name with
  | c :: rest => if 1 <? List.length name then Str.upper [c] ++ rest else Str.upper name
  | [] => Str.upper name
  end.

Definition normalize_case_name (name : option str) : option str :=
  match name with
  | None => None
  | Some name =>
      if Str.is_empty name then None
      else
        let name := sub no_flags re_v_variants (L " v. ") name in
        let name := sub no_flags re_hanging_v [] name in
        let name := Str.strip (sub no_flags (plus space) (L " ") name) in
        if Str.truthy name then Some (capitalize_first name) else None
  end.

Definition make_case_name (appellants respondents : list str) : option str :=
  let left := Str.join (L ", ") appellants in
  let right := Str.join (L ", ") respondents in
  if Str.truthy left && Str.truthy right then Some (left ++ L " v. " ++ right)
  else if Str.truthy left then Some left
  else if Str.truthy right then Some right
  else None.

(** *** Case numbers and courts *)

(** The first loop of the two selectors: [seen] holds the keys met. *)
Fixpoint unique_by (key : str -> str) (seen : list str) (l : list str) : list str :=
  match l with
  | [] => []
  | c :: rest =>
      if existsb (Str.eqb (key c)) seen then unique_by key seen rest
      else c :: unique_by key (key c :: seen) rest
  end.

Definition squeeze (s : str) : str := sub no_flags (plus space) (L " ") s.

(** [max(l, key=...)] on a list with first element [best]: the first
    of the elements with the largest key. *)
Fixpoint max_by (key : str -> nat) (best : str) (l : list str) : str :=
  match l with
  | [] => best
  | x :: rest => max_by key (if key best <? key x then x else best) rest
  end.

Definition priorities : list str :=
  map L ["appeal"; "crl"; "crl.o.p"; "w.p."; "c.a."; "c.c."; "crime no"; "rcc";
         "case no"; "civil appeal"; "civil ap"]%string.

(** The first candidate holding the first priority word that any
    candidate holds. *)
Fixpoint by_priority (ps : list str) (cleaned : list str) : option str :=
  match ps with
  | [] => None
  | p :: ps' =>
      match find (fun c => Str.contains p (Str.lower c)) cleaned with
      | Some c => Some c
      | None => by_priority ps' cleaned
      end
  end.

(** The list [cleaned]: the trimmed candidates without repeats, two
    candidates being the same when they agree up to case and to the
    width of their white space. *)
Definition cleaned_case_numbers (case_numbers : list str) : list str :=
  unique_by (fun c2 => Str.lower (squeeze c2)) [] (map Str.strip case_numbers).

Definition select_primary_case_number (case_numbers : list str) : option str :=
  match case_numbers with
  | [] => None
  | _ =>
      let cleaned := cleaned_case_numbers case_numbers in
      match by_priority priorities cleaned with
      | Some c => Some c
      | None =>
          match cleaned with
          | c :: rest => Some (max_by (@List.length ascii) c rest)
          | [] => None
          end
      end
  end.

Definition score (name : str) : nat :=
  let n := Str.lower name in
  if Str.contains (L "supreme court of india") n || Str.contains (L "supreme court") n
  then 100
  else if Str.contains (L "high court of judicature") n
          || found no_flags (seq [lit "high court of"; WordB]) n
  then 80
  else if Str.contains (L "high court") n then 70
  else if Str.contains (L "district court") n then 40
  else if Str.contains (L "judicial magistrate") n then 30
  else 10.

(** A value returned, or the [ValueError] of [max] on an empty list. *)
Inductive res (A : Type) : Type :=
| Ret (a : A)
| ValueError.
Arguments Ret {A} a.
Arguments ValueError {A}.

(** The list [unique]: the non-empty candidates, trimmed and with
    single spaces, without repeats up to case. *)
Definition unique_courts (courts : list str) : list str :=
  unique_by Str.lower []
    (map (fun c => squeeze (Str.strip c)) (filter Str.truthy courts)).

(** The two replacements and the final [strip]. *)
Definition standard_court_name (best : str) : str :=
  let best := sub I (Postprocessing.word "SUPREME COURT OF INDIA")
                (L "Supreme Court of India") best in
  let best := sub I (Postprocessing.word "HIGH COURT OF JUDICATURE AT")
                (L "High Court of") best in
  Str.strip best.

Definition select_primary_court (courts : list str) : res (option str) :=
  match courts with
  | [] => Ret None
  | _ =>
      match unique_courts courts with
      | [] => ValueError
      | c :: rest => Ret (Some (standard_court_name (max_by score c rest)))
      end
  end.

End Selectors.

(** ** ner_predictor.py *)

Module NerPredictor.
Import Re.

Definition ALL_LABELS : list str :=
  map L ["CASE_NUMBER"; "COURT"; "DATE"; "JUDGE"; "PETITIONER"; "RESPONDENT";
         "PRECEDENT"; "PROVISION"; "STATUTE"; "LAWYER"; "ORGANIZATION"; "GPE"]%string.

Definition normalize_entity (label value : str) : str :=
  if Str.eqb label (L "organization") then
    let value := Str.replace (L "&") (L "and")
                   (Str.replace (L "Pvt") (L "Private")
                      (Str.replace (L "Ltd") (L "Limited") value)) in
    let value := if Str.starts_with (L "In ") value then skipn 3 value else value in
    let value :=
      if Str.starts_with (L "This Court in") value
      then Str.strip (Str.replace (L "This Court in") [] value)
      else value in
    if Str.eqb (Str.strip value) (L "Private. Limited") then []
    else Str.strip value
  else if Str.eqb label (L "statute") then
    let value :=
      if Str.contains (L "NI Act") value || Str.contains (L "Negotiable Instrument") value
      then L "Negotiable Instruments Act, 1881" else value in
    let value :=
      if Str.contains (L "CrPC") value then L "Code of Criminal Procedure, 1973"
      else value in
    Str.strip value
  else Str.strip value.

(** The characters of the set [\W_]: not a word character, or the
    underscore. *)
Definition non_word_or_underscore (c : ascii) : bool :=
  negb (Chr.is_word c) || Chr.eqb c "_"%char.

(** The labels whose values get a capital first letter. *)
Definition capitalised_labels : list str :=
  map L ["JUDGE"; "PRECEDENT"; "PETITIONER"; "RESPONDENT"]%string.

(** One turn of the loop of [clean_bert_output]: [None] where the
    source says [continue].  The substitution of the empty string for
    the pattern of one or more characters of [\W_] anchored at the
    start removes the leading characters of that set. *)
Definition clean_entity (entity : str * str) : option (str * str) :=
  let '(label, value) := entity in
  let value := Str.strip value in
  let value := Str.dropwhile non_word_or_underscore value in
  if Str.is_empty value || (List.length value <? 3) then None
  else
    let value :=
      if existsb (Str.eqb label) capitalised_labels && (1 <? List.length value)
      then Str.upper (firstn 1 value) ++ skipn 1 value
      else value in
    Some (label, value).

Definition clean_bert_output (entities : list (str * str)) : list (str * str) :=
  flat_map (fun e => match clean_entity e with Some e' => [e'] | None => [] end)
    entities.

(** One prediction of the tagger: [token.get("entity")], absent as
    [None], and the character offsets [token["start"]], [token["end"]]. *)
Record token := Token {
  t_entity : option str;
  t_start : nat;
  t_end : nat
}.

(** [span.replace('\n', ' ')] followed by [re.sub(r'\s+', ' ', ...)]. *)
Definition one_line (span : str) : str :=
  sub no_flags (plus space) (L " ") (Str.replace [Chr.LF] (L " ") span).

(** The buffer [current]: [None] when its entity is [None]. *)
Definition buffer : Type := option (str * nat * nat).

Definition _flush_current_span (current : buffer) (text : str)
  (grouped : list (str * str)) : list (str * str) :=
  match current with
  | Some (entity, start, end_) =>
      if Str.truthy entity then
        let span := Str.strip_chars (L " ,.;:") (one_line (Str.slice start end_ text)) in
        if 1 <? List.length span then grouped ++ [(entity, span)] else grouped
      else grouped
  | None => grouped
  end.

(** Part 1: the loop over the predictions and the last flush. *)
Fixpoint group_spans (text : str) (raw_preds : list token) (current : buffer)
  (grouped : list (str * str)) : list (str * str) :=
  match raw_preds with
  | [] => _flush_current_span current text grouped
  | tok :: rest =>
      let entity :=
        Str.last_piece "-"%char
          (match t_entity tok with Some e => e | None => L "O" end) in
      if Str.eqb entity (L "O")
      then group_spans text rest None (_flush_current_span current text grouped)
      else
        match current with
        | Some (e, start, _) =>
            if Str.eqb e entity
            then group_spans text rest (Some (e, start, t_end tok)) grouped
            else group_spans text rest (Some (entity, t_start tok, t_end tok))
                   (_flush_current_span current text grouped)
        | None =>
            group_spans text rest (Some (entity, t_start tok, t_end tok)) grouped
        end
  end.

(** *** Part 2: the fallback patterns *)

Definition dot : regex := opt (chr ".").

(** [No\.?\s*\d{1,6}(?:/\d{2,4}|\s+of\s+\d{4})?\b] *)
Definition number_tail : list regex :=
  [lit "No"; dot; star space; times 1 6 digit;
   opt (alt [seq [chr "/"; times 2 4 digit];
             seq [plus space; lit "of"; plus space; times 4 4 digit]]);
   WordB].

(** [No\.?\s*\d+\s*(?:of\s*\d{4})?\b] *)
Definition number_of_tail : list regex :=
  [lit "No"; dot; star space; plus digit; star space;
   opt (seq [lit "of"; star space; times 4 4 digit]); WordB].

Definition case_patterns : list regex :=
  [seq ([WordB; lit "W.P."; star space; lit "(C)"; star space] ++ number_tail);
   seq ([WordB; lit "W.A."; star space] ++ number_tail);
   seq ([WordB; lit "Crl.A"; dot; star space] ++ number_tail);
   seq ([WordB; lit "C.A"; dot; star space] ++ number_tail);
   seq ([WordB; lit "SLP"; opt (seq [star space; lit "(C)"]); star space]
        ++ number_tail);
   seq ([WordB; lit "I.A"; dot; star space] ++ number_tail);
   seq ([WordB; lit "Crl"; dot; dot; chr "O"; dot; chr "P"; dot; dot]
        ++ number_of_tail);
   seq ([WordB; lit "Crime"; plus space] ++ number_of_tail);
   seq ([WordB; opt (alt [lit "Criminal"; lit "Civil"]); star space;
         alt [lit "Appeal"; seq [chr "W"; dot; chr "P"; dot]; lit "Complaint";
              lit "RCC"; lit "SLP"; seq [chr "I"; dot; chr "A"; dot];
              lit "Crl.A."; seq [chr "C"; dot; chr "C"; dot];
              seq [chr "C"; dot; chr "R"; dot; chr "P"; dot]];
         star space] ++ number_tail);
   seq [WordB; opt (seq [lit "Case"; plus space]); lit "No"; dot; star space;
        times 1 6 digit; opt (seq [chr "/"; times 2 4 digit]); WordB]].

Definition letter : regex := Cls false [AZ; az].

(** "Section 138", "Section 13(1)(a)"-like forms and "read with". *)
Definition provision_pattern : regex :=
  seq [lit "Section"; plus space; plus digit; opt letter;
       opt (seq [star space; chr "("; plus (Cls false [az; d09]); chr ")"]);
       opt (seq [plus space; lit "read with"; plus space; lit "Section";
                 plus space; plus digit; opt letter])].

Definition month_name : regex :=
  alt [lit "January"; lit "February"; lit "March"; lit "April"; lit "May";
       lit "June"; lit "July"; lit "August"; lit "September"; lit "October";
       lit "November"; lit "December"].

Definition month_abbr : regex :=
  alt [lit "Jan"; lit "Feb"; lit "Mar"; lit "Apr"; lit "May"; lit "Jun";
       lit "Jul"; lit "Aug"; lit "Sep"; lit "Oct"; lit "Nov"; lit "Dec"].

Definition sep_cls : regex := Cls false (chars "./-").

Definition date_patterns : list regex :=
  [seq [WordB; times 1 2 digit; sep_cls; times 1 2 digit; sep_cls;
        times 2 4 digit; WordB];
   seq [WordB; times 1 2 digit;
        opt (alt [lit "st"; lit "nd"; lit "rd"; lit "th"]); plus space;
        Grp 1 month_name; plus space; times 4 4 digit; WordB];
   seq [WordB; times 1 2 digit; plus space; Grp 1 month_abbr; plus space;
        times 2 4 digit; WordB];
   seq [WordB; times 1 2 digit; chr "-"; Grp 1 month_abbr; chr "-";
        times 2 4 digit; WordB]].

(** [\b(SCC|SCR|lakhs?|lakh|crore)\b] *)
Definition re_date_noise : regex :=
  seq [WordB;
       Grp 1 (alt [lit "SCC"; lit "SCR"; seq [lit "lakh"; opt (chr "s")];
                   lit "lakh"; lit "crore"]);
       WordB].

Definition place : regex := plus (Cls false [AZ; az; CChr " "%char]).

Definition court_pattern : regex :=
  Grp 1 (alt [seq [lit "Supreme Court"; opt (lit " of India")];
              seq [lit "High Court"; opt (seq [lit " of "; place])];
              seq [lit "High Court of Judicature at "; place];
              seq [lit "District Court"; opt (seq [lit " of "; place])];
              seq [lit "Judicial Magistrate Court, "; place]]).

(** A capitalised word, and a run of them. *)
Definition cap_word : regex := seq [Cls false [AZ]; plus (Cls false [az])].
Definition cap_words : regex := seq [cap_word; star (seq [plus space; cap_word])].

(** [Hon[']?ble]; the typographic apostrophe of the source's set lies
    outside the eight-bit range of the text. *)
Definition honble : regex := seq [lit "Hon"; opt (chr "'"); lit "ble"].

Definition mr_ms : regex := opt (alt [seq [lit "Mr"; dot]; seq [lit "Ms"; dot]]).

Definition bench_tail : list regex :=
  [star space; chr ":"; star space; opt (seq [honble; star space]); mr_ms;
   star space; lit "Justice"; plus space; cap_words; WordB].

Definition judge_patterns : list regex :=
  [seq [WordB; honble; star space; mr_ms; star space; lit "Justice"; plus space;
        cap_words; WordB];
   seq [WordB; lit "Justice"; plus space; cap_words; WordB];
   seq [WordB; lit "Mr"; dot; plus space; lit "Justice"; plus space; cap_words; WordB];
   seq [WordB; lit "Ms"; dot; plus space; lit "Justice"; plus space; cap_words; WordB];
   seq ([WordB; lit "Coram"] ++ bench_tail);
   seq ([WordB; lit "Before"] ++ bench_tail);
   seq [WordB; Grp 1 (Cls false [AZ]); plus (Cls false [az]);
        plus (seq [plus space; cap_word]); star space; opt (chr ","); star space;
        lit "J."; WordB]].

(** "For Petitioner ...: names" and "For Respondent ...: names"; the
    names are group 1. *)
Definition re_for_block : regex :=
  seq [seq [lit "For"; plus space; alt [lit "Petitioner"; lit "Respondent"];
            star (Cls true (chars ":")); chr ":"; star space];
       Grp 1 (plus (Cls true [CChr Chr.LF]))].

Definition re_counsel_name : regex :=
  alt [seq [cap_word; plus (seq [plus space; cap_word])];
       seq [Cls false [AZ]; chr "."; opt space; cap_word]].

Definition generic_lawyer : regex :=
  seq [WordB;
       alt [lit "Mr"; lit "Ms"; lit "Mrs"; lit "Adv"; lit "Advocate"; lit "Shri";
            lit "Smt"];
       dot; plus space; cap_word; plus (seq [plus space; cap_word]); WordB].

Definition side_cls : regex := Cls false (AZ :: az :: chars ".-&" ++ [CSpace]).

Definition precedent_pattern : regex :=
  seq [WordB; Cls false [AZ]; lazy_plus side_cls; plus space; chr "v"; dot;
       plus space; Cls false [AZ]; lazy_plus side_cls;
       opt (seq [star space; chr "("; times 4 4 digit; chr ")"; star space;
                 plus digit; star space; lit "SCC"; star space; plus digit]);
       WordB].

Definition statute_pattern : regex :=
  seq [WordB; opt (seq [cap_words; plus space]);
       alt [lit "Act"; lit "Code"; lit "Rules"; lit "Regulations"; lit "Constitution"];
       opt (seq [chr ","; star space; times 4 4 digit]); WordB].

Definition cities : list str :=
  map L ["Delhi"; "Mumbai"; "Bhopal"; "Jaora"; "Guna"; "Gwalior"; "Madhya Pradesh";
         "Chennai"; "Hyderabad"]%string.

(** [^\s*Petitioner\(s\)?:\s*(.+)$]: the closing parenthesis is the
    optional character. *)
Definition header_spec (role : string) : regex :=
  seq [Bol; star space; lit role; lit "(s"; opt (chr ")"); chr ":"; star space;
       Grp 1 (plus Any); Eol].

(** [,\s*|\s+and\s+|\s*&\s*] *)
Definition re_name_delimiter : regex :=
  alt [seq [chr ","; star space]; seq [plus space; lit "and"; plus space];
       seq [star space; chr "&"; star space]].

Definition re_role_word : regex :=
  seq [WordB;
       Grp 1 (alt [lit "Petitioner"; lit "Respondent"; lit "Appellant";
                   lit "Defendant"; lit "Complainant"]);
       WordB].

(** [m.group(0).strip()] for every match. *)
Definition stripped_matches (fl : flags) (r : regex) (text : str) : list str :=
  map (fun m => Str.strip (group0 text m)) (finditer fl r text).

(** [re.findall] for a pattern with one group. *)
Definition findall1 (fl : flags) (r : regex) (text : str) : list str :=
  map (group_or_empty text 1) (finditer fl r text).

Definition labelled (label : string) (vals : list str) : list (str * str) :=
  map (fun v => (L label, v)) vals.

Definition lawyer_blocks (text : str) : list str :=
  flat_map
    (fun block =>
       filter (fun n => (2 <=? List.length (Str.words n))
                        && negb (Str.eqb (Str.lower n) (L "information technology")))
         (stripped_matches no_flags re_counsel_name block))
    (findall1 I re_for_block text).

Definition header_names (role : string) (text : str) : list str :=
  flat_map
    (fun line =>
       filter (fun candidate => 3 <=? List.length candidate)
         (map (fun p =>
                 Str.strip (sub I re_role_word []
                              (Str.strip_chars (L ":-;.,") (Str.strip p))))
              (split no_flags re_name_delimiter line)))
    (findall1 IM (header_spec role) text).

Definition fallback_matches (text : str) : list (str * str) :=
  labelled "CASE_NUMBER" (flat_map (fun p => stripped_matches I p text) case_patterns)
  ++ labelled "PROVISION" (stripped_matches I provision_pattern text)
  ++ labelled "DATE"
       (flat_map (fun p => filter (fun val => negb (found I re_date_noise val))
                             (stripped_matches I p text))
          date_patterns)
  ++ labelled "COURT" (stripped_matches I court_pattern text)
  ++ labelled "JUDGE" (flat_map (fun p => stripped_matches no_flags p text) judge_patterns)
  ++ labelled "LAWYER" (lawyer_blocks text)
  ++ labelled "LAWYER" (stripped_matches no_flags generic_lawyer text)
  ++ labelled "PRECEDENT" (stripped_matches no_flags precedent_pattern text)
  ++ labelled "STATUTE"
       (filter (fun val => (2 <? List.length (Str.words val))
                           && (List.length val <? 100)
                           && negb (Str.eqb (Str.lower val) (L "supreme court reports")))
          (stripped_matches no_flags statute_pattern text))
  ++ labelled "GPE"
       (filter (fun city => Str.contains (Str.lower city) (Str.lower text)) cities)
  ++ labelled "PETITIONER" (header_names "Petitioner" text)
  ++ labelled "RESPONDENT" (header_names "Respondent" text).

(** *** Part 3: the merge *)

(** [entity_dict[lab].add(value)]: a set as the list of its members
    in the order they were first added. *)
Definition set_add (x : str) (s : list str) : list str :=
  if existsb (Str.eqb x) s then s else s ++ [x].

(** One turn of either merge loop. *)
Definition add_span (entity_dict : Dict.t (list str)) (ls : str * str)
  : Dict.t (list str) :=
  let lab := Str.strip (Str.upper (fst ls)) in
  let value := Str.strip_chars (L " ,.;:" ++ [Chr.LF]) (one_line (snd ls)) in
  let value := normalize_entity (Str.lower lab) value in
  match Dict.get lab entity_dict with
  | Some values =>
      if Str.truthy value then Dict.set lab (set_add value values) entity_dict
      else entity_dict
  | None => entity_dict
  end.

(** [sorted(list(values))] *)
Fixpoint insert_sorted (x : str) (l : list str) : list str :=
  match l with
  | [] => [x]
  | y :: l' => if Str.ltb y x then y :: insert_sorted x l' else x :: l
  end.
Definition sorted (l : list str) : list str := fold_right insert_sorted [] l.

Definition merge (grouped fallback : list (str * str)) : Dict.t (list str) :=
  let entity_dict := map (fun label => (label, @nil str)) ALL_LABELS in
  let entity_dict := fold_left add_span grouped entity_dict in
  let entity_dict := fold_left add_span fallback entity_dict in
  map (fun lv => (Str.lower (fst lv), sorted (snd lv)))
    (filter (fun lv => negb (PartyExtractor.is_nil (snd lv))) entity_dict).

Definition post_process_ner (text : str) (raw_preds : list token)
  : Dict.t (list str) :=
  merge (group_spans text raw_preds None []) (fallback_matches text).

(** A label names a member of the closed set when its upper-case,
    trimmed form is one of [ALL_LABELS] (the test [lab in entity_dict]
    of the merge loops). *)
Definition in_label_set (label : str) : bool :=
  existsb (Str.eqb (Str.strip (Str.upper label))) ALL_LABELS.

(** The invariant of the table filled by the merge loops: every list
    is free of duplicates and holds only trimmed, non-empty values. *)
Definition table_ok (d : Dict.t (list str)) : Prop :=
  forall k vs, In (k, vs) d ->
    NoDup vs /\ Forall (fun v => v <> [] /\ Str.strip v = v) vs.

End NerPredictor.

(** ** app.py *)

Module App.
Import Re Selectors.

(** A value of the assembled record: a string, a list of strings or a
    nested object. *)
#[local] Set Warnings "-register-all".
Inductive value :=
| VStr (s : str)
| VList (l : list str)
| VObj (o : list (str * value)).
#[local] Set Warnings "register-all".

(** An [OrderedDict] in which every key is set once: the keys in the
    order they were set. *)
Definition record : Type := list (str * value).

(** What [extract_full_data] reads of the dictionary returned by
    [extract_order_summary], which always holds these keys. *)
Record order_summary := OrderSummary {
  result : str;
  decision : str;
  directions : list str
}.

(** The dictionary of [extract_advocates]: always both keys, so that
    the default of the caller is never taken. *)
Record advocates := Advocates {
  for_appellants : list str;
  for_respondent : list str
}.

Definition is_nil {A : Type} (l : list A) : bool := PartyExtractor.is_nil l.

Definition truthy_opt (o : option str) : bool :=
  match o with Some s => Str.truthy s | None => false end.

Definition or_empty (o : option str) : str :=
  match o with Some s => s | None => [] end.

(** [if cond: structured[k] = v] *)
Definition put (cond : bool) (k : string) (v : value) (structured : record) : record :=
  if cond then structured ++ [(L k, v)] else structured.

(** The two loops that tag the tagger's values with their zone. *)
Definition tagged (suffix : string) (output : Dict.t (list str)) : list (str * str) :=
  flat_map (fun kv => map (fun v => (Str.upper (fst kv), v ++ L suffix)) (snd kv)) output.

(** [\s+v\.?\s+] *)
Definition re_v : regex := seq [plus space; chr "v"; opt (chr "."); plus space].

(** "If case name exists but no parties extracted, parse from case
    name". *)
Definition parties_from_case_name (case_name : option str)
  (appellants respondents : list str) : list str * list str :=
  if truthy_opt case_name && Str.contains (L " v. ") (or_empty case_name)
     && (is_nil appellants || is_nil respondents)
  then
    match split I re_v (or_empty case_name) with
    | [p0; p1] =>
        (if is_nil appellants then [Str.strip p0] else appellants,
         if is_nil respondents then [Str.strip p1] else respondents)
    | _ => (appellants, respondents)
    end
  else (appellants, respondents).

(** "If still no case name, build from parties". *)
Definition case_name_from_parties (case_name : option str)
  (appellants respondents : list str) : option str :=
  if negb (truthy_opt case_name) && negb (is_nil appellants) && negb (is_nil respondents)
  then make_case_name appellants (firstn 1 respondents)
  else case_name.

Definition advocates_object (appellant_advs respondent_advs : list str) : record :=
  put (negb (is_nil respondent_advs)) "for_respondent" (VList respondent_advs)
    (put (negb (is_nil appellant_advs)) "for_appellants" (VList appellant_advs) []).

Definition clean_order (o : order_summary) : record :=
  put (negb (is_nil (directions o))) "directions" (VList (directions o))
    (put (Str.truthy (decision o)) "decision" (VStr (decision o))
       (put (Str.truthy (result o)) "result" (VStr (result o)) [])).

Definition content_info (background_facts : list str) (o : order_summary) : record :=
  put (negb (is_nil (clean_order o))) "order_summary" (VObj (clean_order o))
    (put (negb (is_nil background_facts)) "background_facts" (VList background_facts) []).

(** [final_output.get(k)], and the entry set when it is not empty. *)
Definition put_list (final_output : Dict.t (list str)) (k : string) (name : string)
  (structured : record) : record :=
  put (negb (is_nil (Dict.get_or (L k) [] final_output))) name
      (VList (Dict.get_or (L k) [] final_output)) structured.

(** The record from the case name on (lines 199-265), for the values
    computed before; the [ValueError] is that of [select_primary_court]. *)
Definition assemble (now : date) (case_name : option str)
  (final_output : Dict.t (list str)) (appellants respondents : list str)
  (adv_split : advocates) (background_facts : list str) (o : order_summary)
  : res record :=
  let structured := put (truthy_opt case_name) "case_name" (VStr (or_empty case_name)) [] in
  let appeal_num :=
    select_primary_case_number (Dict.get_or (L "case_number") [] final_output) in
  let structured :=
    put (truthy_opt appeal_num) "appeal_number" (VStr (or_empty appeal_num)) structured in
  match select_primary_court (Dict.get_or (L "court") [] final_output) with
  | ValueError => ValueError
  | Ret court =>
      let structured := put (truthy_opt court) "court" (VStr (or_empty court)) structured in
      let date_judgment :=
        select_primary_date now (Dict.get_or (L "date") [] final_output) None in
      let structured :=
        put (truthy_opt date_judgment) "date_of_judgment" (VStr (or_empty date_judgment))
          structured in
      let structured := put_list final_output "coram" "coram" structured in
      let structured :=
        put (negb (is_nil appellants)) "appellants" (VList appellants) structured in
      let structured :=
        put (negb (is_nil respondents)) "respondent" (VStr (hd [] respondents))
          structured in
      let appellant_advs := for_appellants adv_split in
      let respondent_advs := for_respondent adv_split in
      let structured :=
        put (negb (is_nil appellant_advs) || negb (is_nil respondent_advs)) "advocates"
          (VObj (advocates_object appellant_advs respondent_advs)) structured in
      let structured := put_list final_output "precedent" "precedents" structured in
      let structured := put_list final_output "provision" "provisions" structured in
      let structured := put_list final_output "statute" "statutes" structured in
      let structured := put_list final_output "extra_courts" "lower_courts" structured in
      let structured := put_list final_output "extra_dates" "other_dates" structured in
      let content := content_info background_facts o in
      Ret (put (negb (is_nil content)) "content_info" (VObj content) structured)
  end.

Section Pipeline.

(** The iteration order of a set of strings, the date of the run, the
    tagger, and the collaborators of [extract_full_data] taken as
    given. *)
Variable set_order : list str -> list str.
Variable now : date.
Variable legalbert_model : str -> list NerPredictor.token.
Variable apply_spacy_and_regex : str -> list (str * str).
Variable extract_advocates : str -> advocates.
Variable extract_background_facts : str -> list str.
Variable extract_order_summary : str -> order_summary.

(** The tagger's entities of the header and of the body, each value
    with its zone (lines 165-174). *)
Definition bert_ents_list (segments : Segmenter.segments) : list (str * str) :=
  let bert_output_header :=
    NerPredictor.post_process_ner (Segmenter.header segments)
      (legalbert_model (Segmenter.header segments)) in
  let bert_output_body :=
    NerPredictor.post_process_ner (Segmenter.body segments)
      (legalbert_model (Segmenter.body segments)) in
  tagged " [header]" bert_output_header ++ tagged " [body]" bert_output_body.

(** The fused table of [extract_full_data] (lines 165-177). *)
Definition final_output_of (text : str) (segments : Segmenter.segments)
  : Dict.t (list str) :=
  let spacy_regex_ents := apply_spacy_and_regex text in
  Postprocessing.merge_entities set_order (bert_ents_list segments) spacy_regex_ents.

(** The parties and the case name (lines 178-197). *)
Definition parties_and_name (segments : Segmenter.segments)
  (final_output : Dict.t (list str)) : (list str * list str) * option str :=
  let '(appellants, respondents) :=
    PartyExtractor.extract_parties (Segmenter.header segments) final_output in
  let case_name :=
    normalize_case_name (extract_case_name_from_header (Segmenter.header segments)) in
  let '(appellants, respondents) :=
    parties_from_case_name case_name appellants respondents in
  ((appellants, respondents), case_name_from_parties case_name appellants respondents).

Definition extract_full_data (text : str) (segments : Segmenter.segments) : res record :=
  let final_output := final_output_of text segments in
  let '((appellants, respondents), case_name) := parties_and_name segments final_output in
  assemble now case_name final_output appellants respondents
    (extract_advocates text) (extract_background_facts (Segmenter.body segments))
    (extract_order_summary (Segmenter.order segments)).

End Pipeline.

(** A value is filled when it is not the empty string, list or object
    and, for an object, when its values are filled too. *)
Fixpoint filled (v : value) : bool :=
  match v with
  | VStr s => Str.truthy s
  | VList l => negb (is_nil l)
  | VObj o =>
      negb (is_nil o)
      && (fix all (o : list (str * value)) : bool :=
            match o with
            | [] => true
            | (_, v') :: o' => filled v' && all o'
            end) o
  end.

Definition all_filled (r : record) : bool := forallb (fun kv => filled (snd kv)) r.

(** The keys that [extract_full_data] can set, in the order in which
    it sets them. *)
Definition record_keys : list str :=
  map L ["case_name"; "appeal_number"; "court"; "date_of_judgment"; "coram";
         "appellants"; "respondent"; "advocates"; "precedents"; "provisions";
         "statutes"; "lower_courts"; "other_dates"; "content_info"]%string.

(** [a] is [b] with some elements left out. *)
Inductive subseq : list str -> list str -> Prop :=
| subseq_nil : subseq [] []
| subseq_keep (x : str) (a b : list str) : subseq a b -> subseq (x :: a) (x :: b)
| subseq_skip (x : str) (a b : list str) : subseq a b -> subseq a (x :: b).

End App.

(** ** content_extractor.py *)

Module ContentExtractor.
Import Re.

(** [\bPage\s+\d+\s+of\s+\d+\b] *)
Definition re_page_number : regex :=
  seq [WordB; lit "Page"; plus space; plus digit; plus space; lit "of"; plus space;
       plus digit; WordB].

Definition clean_text (text : str) : str :=
  if Str.is_empty text then []
  else
    let text := sub no_flags (plus space) (L " ") text in
    let text := sub I re_page_number [] text in
    let text := sub no_flags (Rep true 3 None (chr ".")) (L "...") text in
    let text := sub no_flags (Rep true 3 None (chr "-")) (L "---") text in
    Str.strip text.

Definition fact_ (s : string) : regex := seq [lit s; opt (chr "s")].

(** The four groups of section headers, in source order. *)
Definition fact_markers : list regex :=
  [alt [lit "Background"; fact_ "Fact"; lit "Factual Background"; fact_ "Brief Fact"];
   alt [seq [fact_ "Fact"; lit " of the Case"]; seq [fact_ "Fact"; lit " in Brief"]];
   alt [lit "Factual Matrix"; lit "Genesis of the Case"];
   alt [lit "Brief History"; lit "History of the Case"]].

(** A header at the start of a line, then as little text as possible
    (group 1) up to a line that opens the next section, or up to white
    space at the end of the text. *)
Definition fact_pattern (marker : regex) : regex :=
  seq [alt [Bol; Lit Chr.LF]; star space; marker;
       star (Cls false (CSpace :: chars ":-")); opt (Lit Chr.LF);
       Grp 1 (lazy_star (alt [Any; Lit Chr.LF]));
       Ahead (seq [Lit Chr.LF; star space;
                   alt [lit "Issue"; lit "Argument"; lit "Submission";
                        lit "Contention"; lit "Analysis"; lit "Discussion";
                        lit "Held"; lit "ORDER"; EndZ]])].

(** [\n\s*\n+] *)
Definition re_blank_line : regex := seq [Lit Chr.LF; star space; plus (Lit Chr.LF)].

(** [\n\s*\n+|\n\s*\d+\.] *)
Definition re_paragraph_break : regex :=
  alt [re_blank_line; seq [Lit Chr.LF; star space; plus digit; chr "."]].

(** [^[\d\.\s]+$] *)
Definition re_only_numbering : regex :=
  seq [Bol; plus (Cls false (CDigit :: CSpace :: chars ".")); Eol].

(** [^[A-Z\s]+$] *)
Definition re_only_capitals : regex :=
  seq [Bol; plus (Cls false [AZ; CSpace]); Eol].

(** The paragraphs of a facts section that are kept. *)
Definition section_facts (facts_text : str) : list str :=
  filter (fun para => (50 <=? List.length para)
                      && negb (matches no_flags re_only_numbering para))
    (map clean_text (split no_flags re_paragraph_break facts_text)).

(** The loop over the markers: the first section that gives facts. *)
Fixpoint facts_by_marker (body_text : str) (markers : list regex) : option (list str) :=
  match markers with
  | [] => None
  | marker :: rest =>
      match search IM (fact_pattern marker) body_text with
      | Some m =>
          let facts_text := Str.strip (group_or_empty body_text 1 m) in
          if Str.truthy facts_text then
            match section_facts facts_text with
            | [] => facts_by_marker body_text rest
            | facts => Some (firstn 10 facts)
            end
          else facts_by_marker body_text rest
      | None => facts_by_marker body_text rest
      end
  end.

Definition extract_background_facts (body_text : str) : list str :=
  if Str.is_empty body_text then []
  else
    match facts_by_marker body_text fact_markers with
    | Some facts => facts
    | None =>
        let early_text := firstn 3000 body_text in
        let paragraphs := split no_flags re_blank_line early_text in
        firstn 5
          (filter (fun para => (100 <=? List.length para)
                               && negb (matches no_flags re_only_capitals para))
             (map clean_text (firstn 5 paragraphs)))
    end.

End ContentExtractor.

(* ================================================================== *)
(** * Properties *)

(** ** Characters and strings *)

Module ChrFacts.

Lemma chr_eqb_eq (a b : ascii) : Chr.eqb a b = true <-> a = b.
Proof. apply Ascii.eqb_eq. Qed.


Lemma linebreak_is_space (c : ascii) :
  Chr.is_linebreak c = true -> Chr.is_space c = true.
Proof.
  unfold Chr.is_linebreak, Chr.is_space, Chr.between. intros H.
  repeat rewrite Bool.orb_true_iff in *.
  repeat rewrite Bool.andb_true_iff in *.
  repeat rewrite Nat.leb_le in *.
  repeat rewrite Nat.eqb_eq in *.
  lia.
Qed.

Lemma LF_linebreak : Chr.is_linebreak Chr.LF = true.
Proof. reflexivity. Qed.

Lemma LF_space : Chr.is_space Chr.LF = true.
Proof. reflexivity. Qed.

(** Lowering never produces a line feed out of another character. *)
Lemma lower_LF (x : ascii) : Chr.lower x = Chr.LF -> x = Chr.LF.
Proof.
  destruct x as [[] [] [] [] [] [] [] []]; intros H; vm_compute in H;
    try discriminate H; reflexivity.
Qed.

End ChrFacts.

Module StrFacts.
Import ChrFacts.

Lemma str_eqb_eq (a b : str) : Str.eqb a b = true <-> a = b.
Proof.
  revert b; induction a as [|x a IH]; destruct b as [|y b]; simpl;
    try (split; discriminate); try tauto.
  rewrite Bool.andb_true_iff, ChrFacts.chr_eqb_eq, IH.
  split; [intros [-> ->]; reflexivity | intros E; injection E; auto].
Qed.

Lemma str_eqb_refl (a : str) : Str.eqb a a = true.
Proof. apply str_eqb_eq; reflexivity. Qed.

Lemma str_eqb_neq (a b : str) : Str.eqb a b = false <-> a <> b.
Proof.
  split.
  - intros H E. apply str_eqb_eq in E. congruence.
  - intros H. destruct (Str.eqb a b) eqn:E; [apply str_eqb_eq in E; contradiction | reflexivity].
Qed.

Lemma truthy_nonempty (s : str) : Str.truthy s = true <-> s <> [].
Proof.
  destruct s; unfold Str.truthy; simpl; split; intros H; try congruence;
    try discriminate; exfalso; apply H; reflexivity.
Qed.

Section Dropwhile.
Variable p : ascii -> bool.

Lemma dropwhile_idem (s : str) :
  Str.dropwhile p (Str.dropwhile p s) = Str.dropwhile p s.
Proof.
  induction s as [|c s IH]; simpl; [reflexivity|].
  destruct (p c) eqn:E; [exact IH | simpl; rewrite E; reflexivity].
Qed.

Lemma dropwhile_all (w s : str) :
  forallb p w = true -> Str.dropwhile p (w ++ s) = Str.dropwhile p s.
Proof.
  induction w as [|c w IH]; simpl; [reflexivity|].
  rewrite Bool.andb_true_iff. intros [-> H]. auto.
Qed.

Lemma dropwhile_none (s : str) :
  (forall c, In c s -> p c = false) -> Str.dropwhile p s = s.
Proof.
  destruct s as [|c s]; simpl; [reflexivity|].
  intros H. rewrite (H c); auto.
Qed.

Lemma dropwhile_snoc_keep (u : str) (h : ascii) :
  p h = false -> Str.dropwhile p (u ++ [h]) = Str.dropwhile p u ++ [h].
Proof.
  intros Hh. induction u as [|c u IH]; simpl.
  - rewrite Hh. reflexivity.
  - destruct (p c); [exact IH | reflexivity].
Qed.

Lemma dropwhile_snoc_drop (u : str) (c : ascii) :
  p c = true ->
  Str.dropwhile p (u ++ [c]) =
  match Str.dropwhile p u with [] => [] | x => x ++ [c] end.
Proof.
  intros Hc. induction u as [|d u IH]; simpl.
  - rewrite Hc. reflexivity.
  - destruct (p d); [exact IH | reflexivity].
Qed.

Lemma dropwhile_incl (s : str) (c : ascii) :
  In c (Str.dropwhile p s) -> In c s.
Proof.
  induction s as [|d s IH]; simpl; [tauto|].
  destruct (p d); simpl; tauto.
Qed.

Lemma dropwhile_head (s : str) (h : ascii) (t : str) :
  Str.dropwhile p s = h :: t -> p h = false.
Proof.
  induction s as [|d s IH]; simpl; [discriminate|].
  destruct (p d) eqn:E; [exact IH | intros H; injection H; intros; subst; exact E].
Qed.

Lemma rstrip_snoc (l : str) (c : ascii) :
  p c = true -> Str.rstrip_by p (l ++ [c]) = Str.rstrip_by p l.
Proof.
  intros Hc. unfold Str.rstrip_by. rewrite rev_app_distr. simpl.
  rewrite Hc. reflexivity.
Qed.

Lemma rstrip_none (s : str) :
  (forall c, In c s -> p c = false) -> Str.rstrip_by p s = s.
Proof.
  intros H. unfold Str.rstrip_by. rewrite dropwhile_none.
  - apply rev_involutive.
  - intros c Hc. apply H. apply in_rev. exact Hc.
Qed.

Lemma rstrip_incl (s : str) (c : ascii) :
  In c (Str.rstrip_by p s) -> In c s.
Proof.
  unfold Str.rstrip_by. intros H. apply in_rev in H.
  apply dropwhile_incl in H. apply in_rev. exact H.
Qed.

Lemma rstrip_idem (s : str) :
  Str.rstrip_by p (Str.rstrip_by p s) = Str.rstrip_by p s.
Proof.
  unfold Str.rstrip_by. rewrite rev_involutive, dropwhile_idem. reflexivity.
Qed.

Lemma rstrip_cons_keep (h : ascii) (t : str) :
  p h = false -> Str.rstrip_by p (h :: t) = h :: Str.rstrip_by p t.
Proof.
  intros Hh. unfold Str.rstrip_by. simpl.
  rewrite dropwhile_snoc_keep by exact Hh.
  rewrite rev_app_distr. reflexivity.
Qed.

Lemma strip_snoc (l : str) (c : ascii) :
  p c = true -> Str.strip_by p (l ++ [c]) = Str.strip_by p l.
Proof.
  intros Hc. unfold Str.strip_by, Str.lstrip_by.
  rewrite dropwhile_snoc_drop by exact Hc.
  destruct (Str.dropwhile p l) eqn:E; [reflexivity|].
  apply rstrip_snoc. exact Hc.
Qed.

Lemma strip_all_app (w l : str) :
  forallb p w = true -> Str.strip_by p (w ++ l) = Str.strip_by p l.
Proof.
  intros H. unfold Str.strip_by, Str.lstrip_by.
  rewrite dropwhile_all by exact H. reflexivity.
Qed.

Lemma strip_idem (l : str) :
  Str.strip_by p (Str.strip_by p l) = Str.strip_by p l.
Proof.
  unfold Str.strip_by, Str.lstrip_by.
  destruct (Str.dropwhile p l) as [|h t] eqn:E; [reflexivity|].
  pose proof (dropwhile_head _ _ _ E) as Hh.
  rewrite (rstrip_cons_keep _ _ Hh). simpl. rewrite Hh.
  rewrite <- (rstrip_cons_keep _ _ Hh). apply rstrip_idem.
Qed.

Lemma strip_incl (s : str) (c : ascii) :
  In c (Str.strip_by p s) -> In c s.
Proof.
  unfold Str.strip_by, Str.lstrip_by. intros H.
  apply rstrip_incl in H. apply dropwhile_incl in H. exact H.
Qed.

Lemma strip_nil : Str.strip_by p [] = [].
Proof. reflexivity. Qed.

(** A stripped string that is not empty ends with a kept character. *)
Lemma rstrip_last (s : str) :
  Str.rstrip_by p s <> [] -> p (last (Str.rstrip_by p s) Chr.SP) = false.
Proof.
  unfold Str.rstrip_by. destruct (Str.dropwhile p (rev s)) as [|h t] eqn:E.
  - intros H; exfalso; apply H; reflexivity.
  - intros _. simpl. rewrite last_last. exact (dropwhile_head _ _ _ E).
Qed.

Lemma dropwhile_keeps (s : str) (c : ascii) :
  In c s -> p c = false -> In c (Str.dropwhile p s).
Proof.
  intros Hin Hc. induction s as [|x s IH]; simpl; [contradiction|].
  destruct (p x) eqn:E; [|exact Hin].
  destruct Hin as [-> | Hin]; [congruence | exact (IH Hin)].
Qed.

(** Stripping leaves something of a string that holds a character
    which is not stripped. *)
Lemma strip_nonempty (s : str) (c : ascii) :
  In c s -> p c = false -> Str.strip_by p s <> [].
Proof.
  intros Hin Hc. unfold Str.strip_by, Str.rstrip_by, Str.lstrip_by.
  assert (H : In c (rev (Str.dropwhile p (rev (Str.dropwhile p s))))).
  { apply in_rev. rewrite rev_involutive.
    apply dropwhile_keeps; [|exact Hc].
    apply -> in_rev. apply dropwhile_keeps; assumption. }
  intros E. rewrite E in H. exact H.
Qed.

End Dropwhile.

Lemma strip_strip (l : str) : Str.strip (Str.strip l) = Str.strip l.
Proof. apply strip_idem. Qed.

End StrFacts.

(** ** Lines of a text *)

Module LineFacts.
Import ChrFacts StrFacts Segmenter.

Lemma nbl_unfold (s : str) : Segmenter.nonblank_lines s = nbl_aux false [] s.
Proof. reflexivity. Qed.

Lemma strip_empty_not_truthy : Str.truthy (Str.strip []) = false.
Proof. reflexivity. Qed.

(** Whether the previous character was a carriage return makes no
    difference to the non-blank lines. *)
Lemma nbl_after_cr (s : str) : nbl_aux true [] s = nbl_aux false [] s.
Proof.
  destruct s as [|c s]; [reflexivity|].
  unfold nbl_aux. simpl.
  destruct (Chr.eqb c Chr.LF) eqn:E.
  - apply ChrFacts.chr_eqb_eq in E. subst c. reflexivity.
  - reflexivity.
Qed.

(** Cutting a text at a line feed cuts its non-blank lines. *)
Lemma nbl_app_LF (s1 s2 : str) : forall (f : bool) (cur : str),
  (f = true -> cur = []) ->
  nbl_aux f cur (s1 ++ Chr.LF :: s2) = nbl_aux f cur s1 ++ nbl_aux false [] s2.
Proof.
  induction s1 as [|c s1 IH]; intros f cur Hf.
  - unfold nbl_aux. simpl.
    destruct f; simpl.
    + rewrite (Hf eq_refl). reflexivity.
    + destruct cur as [|x cur]; simpl; [reflexivity|].
      destruct (Str.truthy (Str.strip (rev cur ++ [x]))); reflexivity.
  - unfold nbl_aux in *. simpl.
    destruct (f && Chr.eqb c Chr.LF) eqn:E1.
    + apply IH. discriminate.
    + destruct (Chr.is_linebreak c) eqn:E2.
      * simpl. rewrite (IH (Chr.eqb c Chr.CR) []) by reflexivity.
        destruct (Str.truthy (Str.strip (rev cur))); reflexivity.
      * apply IH. discriminate.
Qed.

Lemma nbl_cons_LF (s : str) :
  Segmenter.nonblank_lines (Chr.LF :: s) = Segmenter.nonblank_lines s.
Proof. reflexivity. Qed.

Lemma nonblank_lines_app_LF (s1 s2 : str) :
  Segmenter.nonblank_lines (s1 ++ Chr.LF :: s2) =
  Segmenter.nonblank_lines s1 ++ Segmenter.nonblank_lines s2.
Proof. rewrite !nbl_unfold. apply nbl_app_LF. discriminate. Qed.

(** The first line of the splitter's output carries the pending
    characters. *)
Lemma splitlines_cur (s : str) : forall cur,
  Str.splitlines_aux false cur s =
  match Str.splitlines_aux false [] s with
  | [] => match cur with [] => [] | _ => [rev cur] end
  | l :: ls => (rev cur ++ l) :: ls
  end.
Proof.
  induction s as [|c s IH]; intros cur.
  - simpl. destruct cur; [reflexivity|]. reflexivity.
  - simpl. destruct (Chr.is_linebreak c) eqn:E.
    + rewrite app_nil_r. reflexivity.
    + rewrite (IH (c :: cur)), (IH [c]).
      destruct (Str.splitlines_aux false [] s) as [|l ls]; simpl.
      * reflexivity.
      * rewrite <- app_assoc. reflexivity.
Qed.

Lemma forallb_rev (p : ascii -> bool) (l : str) :
  forallb p (rev l) = forallb p l.
Proof.
  induction l as [|c l IH]; simpl; [reflexivity|].
  rewrite forallb_app, IH. simpl. rewrite Bool.andb_true_r, Bool.andb_comm.
  reflexivity.
Qed.

Lemma strip_all_space (w : str) :
  forallb Chr.is_space w = true -> Str.strip w = [].
Proof.
  intros H. unfold Str.strip.
  rewrite <- (app_nil_r w), (strip_all_app _ _ _ H). reflexivity.
Qed.

Lemma strip_space_app (w l : str) :
  forallb Chr.is_space w = true -> Str.strip (w ++ l) = Str.strip l.
Proof. intros H. unfold Str.strip. apply strip_all_app. exact H. Qed.

Lemma strip_space_snoc (l : str) (c : ascii) :
  Chr.is_space c = true -> Str.strip (l ++ [c]) = Str.strip l.
Proof. intros H. unfold Str.strip. apply strip_snoc. exact H. Qed.

Lemma nbl_space_cur (cur s : str) :
  forallb Chr.is_space cur = true ->
  nbl_aux false cur s = nbl_aux false [] s.
Proof.
  intros H. unfold nbl_aux. rewrite (splitlines_cur s cur).
  assert (Hr : forallb Chr.is_space (rev cur) = true) by (rewrite forallb_rev; exact H).
  remember (rev cur) as rc eqn:Erc.
  destruct (Str.splitlines_aux false [] s) as [|l ls].
  - destruct cur as [|x cur]; [reflexivity|].
    cbn [map filter]. rewrite (strip_all_space _ Hr). reflexivity.
  - cbn [map filter]. rewrite !(strip_space_app _ _ Hr). reflexivity.
Qed.

Lemma nbl_cons_space (c : ascii) (s : str) :
  Chr.is_space c = true ->
  Segmenter.nonblank_lines (c :: s) = Segmenter.nonblank_lines s.
Proof.
  intros Hc. rewrite !nbl_unfold. unfold nbl_aux at 1. simpl.
  destruct (Chr.is_linebreak c) eqn:E.
  - simpl. fold (nbl_aux (Chr.eqb c Chr.CR) [] s).
    destruct (Chr.eqb c Chr.CR); [apply nbl_after_cr | reflexivity].
  - fold (nbl_aux false [c] s). apply nbl_space_cur. simpl. rewrite Hc. reflexivity.
Qed.

Lemma nbl_lstrip (s : str) :
  Segmenter.nonblank_lines (Str.dropwhile Chr.is_space s) = Segmenter.nonblank_lines s.
Proof.
  induction s as [|c s IH]; simpl; [reflexivity|].
  destruct (Chr.is_space c) eqn:E; [|reflexivity].
  rewrite IH. symmetry. apply nbl_cons_space. exact E.
Qed.

Lemma nbl_snoc_space (c : ascii) (s : str) : forall (f : bool) (cur : str),
  Chr.is_space c = true -> (f = true -> cur = []) ->
  nbl_aux f cur (s ++ [c]) = nbl_aux f cur s.
Proof.
  induction s as [|d s IH]; intros f cur Hc Hf.
  - unfold nbl_aux. simpl.
    destruct (f && Chr.eqb c Chr.LF) eqn:E1; [reflexivity|].
    destruct (Chr.is_linebreak c) eqn:E2; simpl.
    + destruct cur as [|x cur]; simpl; reflexivity.
    + destruct cur as [|x cur]; simpl.
      * rewrite (strip_all_space [c]); [reflexivity|].
        simpl. rewrite Hc. reflexivity.
      * rewrite <- app_assoc. change ([x] ++ [c]) with ([x] ++ [c]).
        rewrite app_assoc, !(strip_space_snoc _ _ Hc). reflexivity.
  - unfold nbl_aux in *. simpl.
    destruct (f && Chr.eqb d Chr.LF) eqn:E1.
    + apply IH; [exact Hc | discriminate].
    + destruct (Chr.is_linebreak d) eqn:E2.
      * simpl. rewrite (IH (Chr.eqb d Chr.CR) []); auto.
      * apply IH; [exact Hc | discriminate].
Qed.

Lemma nbl_rstrip (s : str) :
  Segmenter.nonblank_lines (Str.rstrip_by Chr.is_space s) = Segmenter.nonblank_lines s.
Proof.
  unfold Str.rstrip_by. rewrite <- (rev_involutive s) at 2.
  induction (rev s) as [|c t IH]; simpl; [reflexivity|].
  destruct (Chr.is_space c) eqn:E.
  - rewrite IH. rewrite !nbl_unfold. symmetry.
    apply nbl_snoc_space; [exact E | discriminate].
  - reflexivity.
Qed.

(** Trimming a text does not change its non-blank lines. *)
Lemma nbl_strip (s : str) :
  Segmenter.nonblank_lines (Str.strip s) = Segmenter.nonblank_lines s.
Proof.
  unfold Str.strip, Str.strip_by, Str.lstrip_by.
  rewrite nbl_rstrip. apply nbl_lstrip.
Qed.

(** A string without line boundary is its own single line. *)
Lemma splitlines_one (p : str) : forall cur,
  (forall c, In c p -> Chr.is_linebreak c = false) ->
  Str.splitlines_aux false cur p =
  match rev cur ++ p with [] => [] | l => [l] end.
Proof.
  induction p as [|c p IH]; intros cur H.
  - simpl. rewrite app_nil_r. destruct cur as [|x cur]; [reflexivity|].
    simpl. destruct (rev cur ++ [x]) eqn:E; [|reflexivity].
    destruct (rev cur); discriminate.
  - simpl. rewrite (H c) by (left; reflexivity).
    rewrite IH by (intros d Hd; apply H; right; exact Hd).
    simpl. rewrite <- app_assoc. reflexivity.
Qed.

(** No line produced by the splitter holds a line boundary. *)
Lemma splitlines_no_break (s : str) : forall f cur l,
  (forall c, In c cur -> Chr.is_linebreak c = false) ->
  In l (Str.splitlines_aux f cur s) ->
  forall c, In c l -> Chr.is_linebreak c = false.
Proof.
  induction s as [|d s IH]; intros f cur l Hcur Hl c Hc.
  - simpl in Hl. destruct cur as [|x cur]; [contradiction|].
    destruct Hl as [<-|[]]. apply Hcur. apply in_rev. exact Hc.
  - simpl in Hl.
    destruct (f && Chr.eqb d Chr.LF).
    + exact (IH _ _ _ Hcur Hl c Hc).
    + destruct (Chr.is_linebreak d) eqn:E.
      * destruct Hl as [<-|Hl].
        -- apply Hcur. apply in_rev. exact Hc.
        -- refine (IH _ [] _ _ Hl c Hc). intros ? [].
      * refine (IH _ (d :: cur) _ _ Hl c Hc).
        intros x [<-|Hx]; [exact E | apply Hcur; exact Hx].
Qed.

Lemma clean_nil : clean [].
Proof. split; [intros c [] | reflexivity]. Qed.

Lemma clean_strip (l : str) :
  (forall c, In c l -> Chr.is_linebreak c = false) -> clean (Str.strip l).
Proof.
  intros H. split.
  - intros c Hc. apply H. exact (strip_incl _ _ _ Hc).
  - apply strip_strip.
Qed.

Lemma nbl_clean (l : str) :
  clean l -> Segmenter.nonblank_lines l = filter Str.truthy [l].
Proof.
  intros [H1 H2]. unfold Segmenter.nonblank_lines, Str.splitlines.
  rewrite (splitlines_one l [] H1). simpl.
  destruct l as [|c l]; [reflexivity|].
  simpl map. rewrite H2. reflexivity.
Qed.

(** The non-blank lines of a joined buffer are its non-empty entries. *)
Lemma nbl_join (ls : list str) :
  Forall clean ls ->
  Segmenter.nonblank_lines (Str.join [Chr.LF] ls) = filter Str.truthy ls.
Proof.
  induction 1 as [|l ls Hl Hls IH]; [reflexivity|].
  destruct ls as [|l2 ls].
  - simpl Str.join. apply nbl_clean. exact Hl.
  - change (Str.join [Chr.LF] (l :: l2 :: ls))
      with (l ++ Chr.LF :: Str.join [Chr.LF] (l2 :: ls)).
    rewrite nonblank_lines_app_LF, IH, (nbl_clean l Hl).
    simpl. destruct (Str.truthy l); reflexivity.
Qed.

Lemma nbl_zone (ls : list str) :
  Forall clean ls ->
  Segmenter.nonblank_lines (Str.strip (Str.join [Chr.LF] ls)) = filter Str.truthy ls.
Proof. intros H. rewrite nbl_strip. apply nbl_join. exact H. Qed.

End LineFacts.

(** ** Regular-expression search *)

Module ReFacts.
Import Re.

Lemma match_at_start (fl : flags) (r : regex) (adv : bool) (st : mstate) (m : rmatch) :
  match_at fl r adv st = Some m -> m_start m = m_pos st.
Proof.
  unfold match_at. destruct (run fl r st _); [|discriminate].
  intros H. injection H as <-. reflexivity.
Qed.

(** A successful scan is a successful match at some later place of the
    subject. *)
Lemma scan_match_at (fl : flags) (r : regex) (rest : str) :
  forall (adv : bool) (pre : str) (pos : nat) (m : rmatch),
  scan fl r adv pre rest pos = Some m ->
  exists (k : nat) (adv' : bool),
    k <= List.length rest /\
    match_at fl r adv'
      (MState (rev (firstn k rest) ++ pre) (skipn k rest) (pos + k) []) = Some m.
Proof.
  induction rest as [|x rest IH]; intros adv pre pos m H; simpl in H.
  - destruct (match_at fl r adv (MState pre [] pos [])) eqn:E; [|discriminate].
    injection H as ->. exists 0, adv. simpl. rewrite Nat.add_0_r. auto.
  - destruct (match_at fl r adv (MState pre (x :: rest) pos [])) eqn:E.
    + injection H as ->. exists 0, adv. simpl. rewrite Nat.add_0_r.
      split; [lia | exact E].
    + destruct (IH _ _ _ _ H) as (k & adv' & Hk & Hm).
      exists (S k), adv'. split; [simpl; lia|].
      simpl. rewrite <- app_assoc. simpl.
      replace (pos + S k) with (S pos + k) by lia. exact Hm.
Qed.

Lemma search_match_at (fl : flags) (r : regex) (s : str) (m : rmatch) :
  search fl r s = Some m ->
  exists (k : nat) (adv' : bool),
    k <= List.length s /\ m_start m = k /\
    match_at fl r adv' (MState (rev (firstn k s)) (skipn k s) k []) = Some m.
Proof.
  unfold search. intros H.
  destruct (scan_match_at _ _ _ _ _ _ _ H) as (k & adv' & Hk & Hm).
  exists k, adv'. rewrite app_nil_r in Hm. simpl in Hm.
  split; [exact Hk|]. split; [|exact Hm].
  rewrite (match_at_start _ _ _ _ _ Hm). reflexivity.
Qed.

End ReFacts.

(** ** The matcher only moves forward *)

Module RunFacts.
Import Re.

Lemma ext_refl (st : mstate) : ext st st.
Proof. exists []. unfold reads. simpl. repeat split. lia. Qed.

Lemma ext_trans (a b c : mstate) : ext a b -> ext b c -> ext a c.
Proof.
  intros (x & X1 & X2 & X3) (y & Y1 & Y2 & Y3). exists (x ++ y).
  unfold reads. rewrite X1, Y1, Y2, X2, Y3, X3, rev_app_distr, length_app, !app_assoc.
  repeat split. lia.
Qed.

Lemma ext_advance (st : mstate) (x : ascii) (rest : str) :
  m_rest st = x :: rest -> ext st (advance x rest st).
Proof.
  intros H. exists [x]. unfold reads, advance. simpl. rewrite H.
  repeat split. lia.
Qed.

Lemma ext_set_group (st st' : mstate) (n a b : nat) :
  ext st st' -> ext st (set_group n a b st').
Proof. intros (c & H). exists c. exact H. Qed.

(** Whatever a pattern hands to its continuation lies further on in
    the subject: a successful run is a successful continuation at a
    place reached by reading characters. *)
Lemma run_ext (fl : flags) (r : regex) :
  forall (st : mstate) (k : mstate -> option mstate) (res : mstate),
  run fl r st k = Some res ->
  exists st', ext st st' /\ k st' = Some res.
Proof.
  induction r as [| c | | neg items | r1 IH1 r2 IH2 | r1 IH1 r2 IH2
                  | greedy lo hi r1 IH1 | n r1 IH1 | | | | | r1 IH1];
    intros st k res H; cbn [run] in H.
  - exists st. split; [apply ext_refl | exact H].
  - destruct (m_rest st) as [|x rest] eqn:E; [discriminate|].
    destruct (chr_match fl c x); [|discriminate].
    exists (advance x rest st). split; [apply ext_advance; exact E | exact H].
  - destruct (m_rest st) as [|x rest] eqn:E; [discriminate|].
    destruct (dotall fl || negb (Chr.eqb x Chr.LF)); [|discriminate].
    exists (advance x rest st). split; [apply ext_advance; exact E | exact H].
  - destruct (m_rest st) as [|x rest] eqn:E; [discriminate|].
    destruct (cls_match fl neg items x); [|discriminate].
    exists (advance x rest st). split; [apply ext_advance; exact E | exact H].
  - destruct (IH1 _ _ _ H) as (s1 & E1 & H1).
    destruct (IH2 _ _ _ H1) as (s2 & E2 & H2).
    exists s2. split; [exact (ext_trans _ _ _ E1 E2) | exact H2].
  - unfold or_else in H. destruct (run fl r1 st k) eqn:E.
    + injection H as ->. apply IH1. exact E.
    + apply IH2. exact H.
  - revert H. generalize (List.length (m_rest st)) at 1. generalize 0.
    intros cnt fuel. revert cnt st.
    induction fuel as [|fuel IHf]; intros cnt st H.
    + assert (G : (if lo <=? cnt then k st else None) = Some res).
      { destruct greedy; cbn beta iota zeta in H; unfold or_else in H; [exact H|].
        destruct (if lo <=? cnt then k st else None); [exact H | discriminate]. }
      destruct (lo <=? cnt); [|discriminate].
      exists st. split; [apply ext_refl | exact G].
    + assert (G :
        (if lo <=? cnt then k st else None) = Some res \/
        (below cnt hi = true /\
         run fl r1 st
           (fun s1 => if m_pos st <? m_pos s1
                      then (fix loop (fuel cnt : nat) (s : mstate) {struct fuel}
                              : option mstate :=
                              let stop := fun _ : unit =>
                                if lo <=? cnt then k s else None in
                              let more := fun _ : unit =>
                                match fuel with
                                | 0 => None
                                | S fuel' =>
                                    if below cnt hi
                                    then run fl r1 s (fun s1 =>
                                           if m_pos s <? m_pos s1
                                           then loop fuel' (S cnt) s1 else None)
                                    else None
                                end in
                              if greedy then or_else (more tt) stop
                              else or_else (stop tt) more) fuel (S cnt) s1
                      else None) = Some res)).
      { destruct greedy; cbn beta iota zeta in H; unfold or_else in H.
        - destruct (below cnt hi); [|left; exact H].
          match type of H with
          | match ?X with _ => _ end = _ => destruct X eqn:E
          end.
          + injection H as ->. right. split; [reflexivity | exact E].
          + left. exact H.
        - match type of H with
          | match ?X with _ => _ end = _ => destruct X eqn:E
          end.
          + injection H as ->. left. reflexivity.
          + destruct (below cnt hi); [|discriminate].
            right. split; [reflexivity | exact H]. }
      destruct G as [G | [_ G]].
      * destruct (lo <=? cnt); [|discriminate].
        exists st. split; [apply ext_refl | exact G].
      * destruct (IH1 _ _ _ G) as (s1 & E1 & H1).
        destruct (m_pos st <? m_pos s1); [|discriminate].
        destruct (IHf _ _ H1) as (s2 & E2 & H2).
        exists s2. split; [exact (ext_trans _ _ _ E1 E2) | exact H2].
  - destruct (IH1 _ _ _ H) as (s1 & E1 & H1).
    exists (set_group n (m_pos st) (m_pos s1) s1).
    split; [apply ext_set_group; exact E1 | exact H1].
  - destruct (at_bol fl st); [|discriminate].
    exists st. split; [apply ext_refl | exact H].
  - destruct (at_eol fl st); [|discriminate].
    exists st. split; [apply ext_refl | exact H].
  - destruct (Str.is_empty (m_rest st)); [|discriminate].
    exists st. split; [apply ext_refl | exact H].
  - destruct (at_wordb st); [|discriminate].
    exists st. split; [apply ext_refl | exact H].
  - destruct (run fl r1 st (fun s1 => Some s1)); [|discriminate].
    exists st. split; [apply ext_refl | exact H].
Qed.

Lemma run_cat (fl : flags) (r1 r2 : regex) (st : mstate)
  (k : mstate -> option mstate) :
  run fl (Cat r1 r2) st k = run fl r1 st (fun st1 => run fl r2 st1 k).
Proof. reflexivity. Qed.

Lemma space_cls (fl : flags) (x : ascii) :
  cls_match fl false [CSpace] x = Chr.is_space x.
Proof.
  unfold cls_match. simpl. rewrite Bool.orb_false_r.
  destruct (Chr.is_space x); reflexivity.
Qed.

(** A run of [\s+] hands over places that follow white space. *)
Lemma run_plus_space (fl : flags) (st : mstate) (k : mstate -> option mstate)
  (res : mstate) :
  run fl (plus space) st k = Some res ->
  exists st', ext st st' /\ k st' = Some res /\ after_space st' = true.
Proof.
  unfold plus, space. cbn [run].
  assert (Hinv : 0 = 0 \/ after_space st = true) by (left; reflexivity).
  revert Hinv. generalize (List.length (m_rest st)) at 1. generalize 0 at 1 4.
  intros cnt fuel. revert cnt st.
  induction fuel as [|fuel IHf]; intros cnt st Hinv H;
    cbn beta iota zeta in H; unfold or_else in H.
  - destruct cnt as [|cnt]; [discriminate|].
    destruct Hinv as [Hinv | Hinv]; [discriminate|].
    exists st. split; [apply ext_refl | split; [exact H | exact Hinv]].
  - cbn [below] in H.
    destruct (m_rest st) as [|x rest] eqn:E.
    + destruct cnt as [|cnt]; [discriminate|].
      destruct Hinv as [Hinv | Hinv]; [discriminate|].
      exists st. split; [apply ext_refl | split; [exact H | exact Hinv]].
    + rewrite space_cls in H. destruct (Chr.is_space x) eqn:Sx.
      * destruct (m_pos st <? m_pos (advance x rest st)).
        -- match type of H with
           | match ?X with _ => _ end = _ => destruct X eqn:R
           end.
           ++ injection H as ->.
              destruct (IHf (S cnt) (advance x rest st)) with (2 := R)
                as (s2 & E2 & K2 & A2).
              { right. unfold after_space, advance. simpl. exact Sx. }
              exists s2. split; [|split; assumption].
              exact (ext_trans _ _ _ (ext_advance _ _ _ E) E2).
           ++ destruct cnt as [|cnt]; [discriminate|].
              destruct Hinv as [Hinv | Hinv]; [discriminate|].
              exists st. split; [apply ext_refl | split; [exact H | exact Hinv]].
        -- destruct cnt as [|cnt]; [discriminate|].
           destruct Hinv as [Hinv | Hinv]; [discriminate|].
           exists st. split; [apply ext_refl | split; [exact H | exact Hinv]].
      * destruct cnt as [|cnt]; [discriminate|].
        destruct Hinv as [Hinv | Hinv]; [discriminate|].
        exists st. split; [apply ext_refl | split; [exact H | exact Hinv]].
Qed.

(** A successful match ends at a place reached from its start. *)
Lemma match_at_ext (fl : flags) (r : regex) (adv : bool) (st : mstate) (m : rmatch) :
  match_at fl r adv st = Some m ->
  exists st', ext st st' /\ m_start m = m_pos st /\ m_end m = m_pos st'.
Proof.
  unfold match_at. intros H.
  destruct (run fl r st _) as [s1|] eqn:R; [|discriminate].
  injection H as <-. destruct (run_ext _ _ _ _ _ R) as (st' & E & K).
  destruct (adv && (m_pos st' =? m_pos st)); [discriminate|].
  injection K as <-. exists st'. simpl. auto.
Qed.

(** The pieces of a subject cut in two: the second is what follows
    the only match. *)
Lemma split_two (fl : flags) (r : regex) (s p0 p1 : str) :
  split fl r s = [p0; p1] ->
  exists m, search fl r s = Some m /\ p1 = skipn (m_end m) s.
Proof.
  unfold split, finditer, search.
  replace (2 * List.length s + 2) with (S (2 * List.length s + 1)) by lia.
  cbn [finditer_aux].
  destruct (scan fl r false [] s 0) as [m|]; [|discriminate].
  cbn [split_aux]. intros H. injection H as _ H.
  exists m. split; [reflexivity|].
  destruct (finditer_aux _ _ _ _ _ _ _) as [|m' ms]; cbn [split_aux] in H.
  - injection H as <-. reflexivity.
  - destruct ms; discriminate H.
Qed.

End RunFacts.

(** ** segmenter.py: the zones partition the lines *)

Module SegmenterFacts.
Import Re Segmenter ChrFacts StrFacts LineFacts ReFacts.

(** The embedded-order pattern can only match at the start of the text
    or at a line feed. *)
Lemma embedded_order_place (adv : bool) (st : mstate) (m : rmatch) :
  match_at IS re_embedded_order adv st = Some m ->
  m_pre st = [] \/ exists rest, m_rest st = Chr.LF :: rest.
Proof.
  unfold match_at.
  set (k := fun s1 : mstate => if adv && (m_pos s1 =? m_pos st) then None else Some s1).
  destruct (run IS re_embedded_order st k) eqn:E; [|discriminate]. intros _.
  unfold re_embedded_order in E. cbn [seq] in E.
  match type of E with
  | run _ (Cat _ ?t) _ _ = _ => remember t as tail eqn:Et
  end.
  cbn [run] in E. unfold or_else in E.
  destruct (m_rest st) as [|x rest] eqn:Er.
  - unfold at_bol in E. cbn [multiline IS] in E.
    destruct (m_pre st); [left; reflexivity | discriminate].
  - destruct (chr_match IS Chr.LF x) eqn:Ec.
    + right. exists rest. f_equal.
      unfold chr_match in Ec. cbn [ignorecase IS] in Ec.
      apply ChrFacts.chr_eqb_eq in Ec. symmetry in Ec.
      apply lower_LF in Ec. exact Ec.
    + unfold at_bol in E. cbn [multiline IS] in E.
      destruct (m_pre st); [left; reflexivity | discriminate].
Qed.

Lemma embedded_order_split (body : str) (m : rmatch) :
  search IS re_embedded_order body = Some m ->
  nonblank_lines (Str.strip (firstn (m_start m) body)) ++
  nonblank_lines (Str.strip (skipn (m_start m) body)) = nonblank_lines body.
Proof.
  intros H. destruct (search_match_at _ _ _ _ H) as (k & adv & Hk & Hs & Hm).
  rewrite Hs. rewrite !nbl_strip.
  destruct (embedded_order_place _ _ _ Hm) as [Hpre | [rest Hrest]]; simpl in *.
  - assert (Hf : firstn k body = []).
    { destruct (firstn k body) as [|c f]; [reflexivity|].
      apply (f_equal (@List.length ascii)) in Hpre.
      rewrite length_rev in Hpre. discriminate. }
    rewrite <- (firstn_skipn k body) at 3. rewrite Hf. reflexivity.
  - rewrite <- (firstn_skipn k body) at 3. rewrite Hrest.
    rewrite nonblank_lines_app_LF, nbl_cons_LF. reflexivity.
Qed.

Lemma F_app (a b : list str) : F (a ++ b) = F a ++ F b.
Proof. apply filter_app. Qed.

Lemma F_snoc_truthy (a : list str) (x : str) :
  Str.truthy x = true -> F (a ++ [x]) = F a ++ [x].
Proof. intros H. rewrite F_app. unfold F at 2. simpl. rewrite H. reflexivity. Qed.

Lemma F_snoc_blank (a : list str) (x : str) :
  Str.truthy x = false -> F (a ++ [x]) = F a.
Proof.
  intros H. rewrite F_app. unfold F at 2. simpl. rewrite H. apply app_nil_r.
Qed.

Lemma Forall_snoc (P : str -> Prop) (a : list str) (x : str) :
  Forall P a -> P x -> Forall P (a ++ [x]).
Proof. intros Ha Hx. apply Forall_app. split; [exact Ha | constructor; [exact Hx | constructor]]. Qed.

Lemma inv_initial : inv initial [].
Proof. constructor; simpl; auto. Qed.

Lemma rstrip_LF_line (raw : str) :
  (forall c, In c raw -> Chr.is_linebreak c = false) ->
  Str.rstrip_chars [Chr.LF] raw = raw.
Proof.
  intros H. unfold Str.rstrip_chars. apply rstrip_none.
  intros c Hc. unfold Str.mem_chr. simpl. rewrite Bool.orb_false_r.
  destruct (Chr.eqb c Chr.LF) eqn:E; [|reflexivity].
  apply ChrFacts.chr_eqb_eq in E. subst c.
  pose proof LF_linebreak as HL. rewrite (H _ Hc) in HL. discriminate.
Qed.

Lemma F_nil : F [] = [].
Proof. reflexivity. Qed.

Ltac buffers_simpl :=
  cbn [to_body append_line header_lines body_lines order_lines state].

Ltac lines_done Ht Hl :=
  rewrite map_app; cbn [map]; rewrite !(F_snoc_truthy _ _ Ht), <- Hl;
  rewrite ?F_nil; cbn [app]; rewrite ?app_nil_r, <- ?app_assoc; cbn [app];
  reflexivity.

Lemma inv_to_body (b : buffers) (done : list str) (raw : str) :
  inv b done -> state b = Header ->
  (forall c, In c raw -> Chr.is_linebreak c = false) ->
  Str.truthy (Str.strip raw) = true ->
  inv (to_body b (Str.strip raw)) (done ++ [raw]).
Proof.
  intros [Hl Hh Hb Ch Cb Co] Hs Hraw Ht.
  destruct (Hh Hs) as [HB HO].
  constructor; buffers_simpl.
  - rewrite HB, HO in *. lines_done Ht Hl.
  - discriminate.
  - intros _. exact HO.
  - exact Ch.
  - apply Forall_snoc; [exact Cb | apply clean_strip; exact Hraw].
  - exact Co.
Qed.

Lemma inv_append (st : zone) (b : buffers) (done : list str) (raw : str) :
  inv b done ->
  (st = Order \/ st = state b) ->
  (forall c, In c raw -> Chr.is_linebreak c = false) ->
  Str.truthy (Str.strip raw) = true ->
  inv (append_line st b (Str.strip raw)) (done ++ [raw]).
Proof.
  intros [Hl Hh Hb Ch Cb Co] Hst Hraw Ht.
  assert (Hc : clean (Str.strip raw)) by (apply clean_strip; exact Hraw).
  destruct st.
  - destruct Hst as [Hst | Hst]; [discriminate|].
    destruct (Hh (eq_sym Hst)) as [HB HO].
    constructor; buffers_simpl;
      [ rewrite HB, HO in *; lines_done Ht Hl | .. ];
      try (intros; discriminate); auto; try (apply Forall_snoc; assumption).
  - destruct Hst as [Hst | Hst]; [discriminate|].
    pose proof (Hb (eq_sym Hst)) as HO.
    constructor; buffers_simpl;
      [ rewrite HO in *; lines_done Ht Hl | .. ];
      try (intros; discriminate); auto; try (apply Forall_snoc; assumption).
  - constructor; buffers_simpl;
      [ lines_done Ht Hl | .. ];
      try (intros; discriminate); auto; try (apply Forall_snoc; assumption).
Qed.

Lemma inv_step (b : buffers) (done : list str) (raw : str) :
  inv b done ->
  (forall c, In c raw -> Chr.is_linebreak c = false) ->
  inv (step b raw) (done ++ [raw]).
Proof.
  intros Hi Hraw. unfold step. rewrite (rstrip_LF_line raw Hraw).
  destruct (Str.is_empty (Str.strip raw)) eqn:Eb.
  - assert (Ht : Str.truthy (Str.strip raw) = false)
      by (unfold Str.truthy; rewrite Eb; reflexivity).
    destruct Hi as [Hl Hh Hb Ch Cb Co].
    destruct (is_body (state b) && negb (Str.is_empty (last (body_lines b) []))) eqn:E.
    + apply Bool.andb_true_iff in E. destruct E as [E _].
      assert (Hs : state b = Body) by (destruct (state b); try discriminate; reflexivity).
      constructor; buffers_simpl.
      * rewrite map_app; cbn [map]. rewrite (F_snoc_blank _ _ Ht).
        rewrite F_snoc_blank by reflexivity. exact Hl.
      * intros H. rewrite Hs in H. discriminate.
      * exact Hb.
      * exact Ch.
      * apply Forall_snoc; [exact Cb | apply clean_nil].
      * exact Co.
    + constructor; auto.
      rewrite map_app; cbn [map]. rewrite (F_snoc_blank _ _ Ht). exact Hl.
  - assert (Ht : Str.truthy (Str.strip raw) = true)
      by (unfold Str.truthy; rewrite Eb; reflexivity).
    destruct (_looks_like_order_start (Str.strip raw)).
    + apply inv_append; auto.
    + destruct (state b) eqn:Es.
      * destruct (found I re_body_opening (Str.strip raw));
          [apply inv_to_body; auto|].
        destruct (50 <? List.length (header_lines b));
          [apply inv_to_body; auto|].
        destruct (negb (_is_header_line (Str.strip raw)) &&
                  found I re_prose_verb (Str.strip raw));
          [apply inv_to_body; auto|].
        apply inv_append; auto.
      * apply inv_append; auto.
      * apply inv_append; auto.
Qed.

Lemma inv_fold (rest : list str) : forall (b : buffers) (done : list str),
  inv b done ->
  (forall l, In l rest -> forall c, In c l -> Chr.is_linebreak c = false) ->
  inv (fold_left step rest b) (done ++ rest).
Proof.
  induction rest as [|raw rest IH]; intros b done Hi Hr; simpl.
  - rewrite app_nil_r. exact Hi.
  - replace (done ++ raw :: rest) with ((done ++ [raw]) ++ rest)
      by (rewrite <- app_assoc; reflexivity).
    apply IH.
    + apply inv_step; [exact Hi | apply Hr; left; reflexivity].
    + intros l Hl. apply Hr. right. exact Hl.
Qed.

Lemma inv_final (text : str) :
  inv (fold_left step (Str.splitlines text) initial) (Str.splitlines text).
Proof.
  apply (inv_fold (Str.splitlines text) initial [] inv_initial).
  intros l Hl. unfold Str.splitlines in Hl.
  apply (splitlines_no_break text false [] l); [intros ? [] | exact Hl].
Qed.

(** The three zones, before and after the re-split of the body at an
    embedded marker, hold the non-blank lines of the text, in order. *)
Lemma zones_partition (text : str) :
  nonblank_lines (header (split_segments text)) ++
  nonblank_lines (body (split_segments text)) ++
  nonblank_lines (order (split_segments text)) = nonblank_lines text.
Proof.
  pose proof (inv_final text) as [Hl _ _ Ch Cb Co].
  unfold split_segments.
  set (b := fold_left step (Str.splitlines text) initial) in *.
  set (h := Str.strip (Str.join [Chr.LF] (header_lines b))).
  set (bd := Str.strip (Str.join [Chr.LF] (body_lines b))).
  set (o := Str.strip (Str.join [Chr.LF] (order_lines b))).
  assert (Hall : nonblank_lines h ++ nonblank_lines bd ++ nonblank_lines o
                 = nonblank_lines text).
  { unfold h, bd, o. rewrite !nbl_zone by assumption. exact Hl. }
  destruct (Str.is_empty o && negb (Str.is_empty bd)) eqn:E; [|exact Hall].
  destruct (search IS re_embedded_order bd) as [m|] eqn:Em; [|exact Hall].
  simpl. apply Bool.andb_true_iff in E. destruct E as [Eo _].
  destruct o; [|discriminate].
  rewrite <- Hall. rewrite (embedded_order_split _ _ Em).
  change (nonblank_lines []) with (@nil str). rewrite !app_nil_r. reflexivity.
Qed.

(** C1 -- Segmentation is a partition.  For every text, the trimmed
    non-blank lines of [header + "\n" + body + "\n" + order] are exactly
    the trimmed non-blank lines of the input, each once and in the
    input's order, and they are the header's lines followed by the
    body's followed by the order's: every non-blank input line lies in
    exactly one zone.  The re-split of the body at an embedded
    "Held:"/"ORDER" marker is part of [split_segments] and so covered. *)
Theorem segmentation_partition (text : str) :
  nonblank_lines
    (header (split_segments text) ++ [Chr.LF] ++
     body (split_segments text) ++ [Chr.LF] ++
     order (split_segments text)) = nonblank_lines text
  /\
  nonblank_lines (header (split_segments text)) ++
  nonblank_lines (body (split_segments text)) ++
  nonblank_lines (order (split_segments text)) = nonblank_lines text.
Proof.
  split.
  - cbn [app]. rewrite !nonblank_lines_app_LF. apply zones_partition.
  - apply zones_partition.
Qed.

End SegmenterFacts.

(** ** Dictionaries and duplicate removal *)

Module DictFacts.
Import StrFacts.

Lemma get_set (V : Type) (k k' : str) (v : V) (d : Dict.t V) :
  Dict.get k' (Dict.set k v d) = if Str.eqb k' k then Some v else Dict.get k' d.
Proof.
  induction d as [|[k0 v0] d IH]; simpl.
  - destruct (Str.eqb k' k); reflexivity.
  - destruct (Str.eqb k k0) eqn:E; simpl.
    + apply StrFacts.str_eqb_eq in E. subst k0.
      destruct (Str.eqb k' k); reflexivity.
    + rewrite IH. destruct (Str.eqb k' k0) eqn:E0; [|reflexivity].
      apply StrFacts.str_eqb_eq in E0. subst k0.
      destruct (Str.eqb k' k) eqn:E1; [|reflexivity].
      apply StrFacts.str_eqb_eq in E1. subst k'.
      rewrite StrFacts.str_eqb_refl in E. discriminate.
Qed.

Lemma get_set_other (V : Type) (k k' : str) (v : V) (d : Dict.t V) :
  k' <> k -> Dict.get k' (Dict.set k v d) = Dict.get k' d.
Proof.
  intros H. rewrite get_set.
  apply StrFacts.str_eqb_neq in H. rewrite H. reflexivity.
Qed.

Lemma get_set_same (V : Type) (k : str) (v : V) (d : Dict.t V) :
  Dict.get k (Dict.set k v d) = Some v.
Proof. rewrite get_set, StrFacts.str_eqb_refl. reflexivity. Qed.

Lemma get_none_keys (V : Type) (k : str) (d : Dict.t V) :
  Dict.get k d = None <-> ~ In k (Dict.keys d).
Proof.
  induction d as [|[k0 v0] d IH]; simpl.
  - tauto.
  - destruct (Str.eqb k k0) eqn:E.
    + apply StrFacts.str_eqb_eq in E. subst. split; [discriminate | intros H; exfalso; auto].
    + apply StrFacts.str_eqb_neq in E. rewrite IH. split.
      * intros H [H1 | H1]; [congruence | contradiction].
      * intros H H1. apply H. right. exact H1.
Qed.

Lemma keys_set (V : Type) (k : str) (v : V) (d : Dict.t V) :
  Dict.keys (Dict.set k v d) =
  if Dict.mem k d then Dict.keys d else Dict.keys d ++ [k].
Proof.
  unfold Dict.mem. induction d as [|[k0 v0] d IH]; simpl; [reflexivity|].
  destruct (Str.eqb k k0) eqn:E; simpl; [reflexivity|].
  rewrite IH. destruct (Dict.get k d); reflexivity.
Qed.

Lemma get_map (V W : Type) (f : str -> V -> W) (k : str) (d : Dict.t V) :
  Dict.get k (map (fun kv => (fst kv, f (fst kv) (snd kv))) d) =
  option_map (f k) (Dict.get k d).
Proof.
  induction d as [|[k0 v0] d IH]; simpl; [reflexivity|].
  destruct (Str.eqb k k0) eqn:E; [|exact IH].
  apply StrFacts.str_eqb_eq in E. subst. reflexivity.
Qed.

Lemma keys_map (V W : Type) (f : str -> V -> W) (d : Dict.t V) :
  Dict.keys (map (fun kv => (fst kv, f (fst kv) (snd kv))) d) = Dict.keys d.
Proof.
  unfold Dict.keys. rewrite map_map. reflexivity.
Qed.

(** Two dictionaries with the same keys in the same order, none
    repeated, and the same values are the same dictionary. *)
Lemma ext (V : Type) (d1 : Dict.t V) : forall d2 : Dict.t V,
  Dict.keys d1 = Dict.keys d2 -> NoDup (Dict.keys d1) ->
  (forall k, Dict.get k d1 = Dict.get k d2) -> d1 = d2.
Proof.
  induction d1 as [|[k1 v1] d1 IH]; intros [|[k2 v2] d2] Hk Hn Hg;
    simpl in Hk; try discriminate; [reflexivity|].
  injection Hk as -> Hk. inversion Hn as [|? ? Hnot Hn']; subst.
  pose proof (Hg k2) as H2. simpl in H2. rewrite StrFacts.str_eqb_refl in H2.
  injection H2 as ->. f_equal. apply IH; [exact Hk | exact Hn' |].
  intros k. pose proof (Hg k) as H. simpl in H.
  destruct (Str.eqb k k2) eqn:E; [|exact H].
  apply StrFacts.str_eqb_eq in E. subst k.
  pose proof (proj2 (get_none_keys _ k2 d1) Hnot) as N1.
  assert (Hnot2 : ~ In k2 (Dict.keys d2)) by (rewrite <- Hk; exact Hnot).
  pose proof (proj2 (get_none_keys _ k2 d2) Hnot2) as N2.
  congruence.
Qed.

End DictFacts.

Module DistinctFacts.
Import StrFacts Postprocessing.

Lemma mem_In (x : str) (l : list str) :
  existsb (Str.eqb x) l = true <-> In x l.
Proof.
  rewrite existsb_exists. split.
  - intros (y & Hy & E). apply StrFacts.str_eqb_eq in E. subst. exact Hy.
  - intros H. exists x. split; [exact H | apply StrFacts.str_eqb_refl].
Qed.

Lemma mem_equiv (x : str) (s1 s2 : list str) :
  (forall y, In y s1 <-> In y s2) ->
  existsb (Str.eqb x) s1 = existsb (Str.eqb x) s2.
Proof.
  intros H. destruct (existsb (Str.eqb x) s1) eqn:E1.
  - symmetry. apply mem_In. apply H. apply mem_In. exact E1.
  - destruct (existsb (Str.eqb x) s2) eqn:E2; [|reflexivity].
    apply mem_In in E2. apply H in E2. apply mem_In in E2. congruence.
Qed.

(** [distinct] only looks at which strings were seen. *)
Lemma distinct_seen (l : list str) : forall s1 s2 : list str,
  (forall y, In y s1 <-> In y s2) -> distinct s1 l = distinct s2 l.
Proof.
  induction l as [|x l IH]; intros s1 s2 H; simpl; [reflexivity|].
  rewrite (mem_equiv x s1 s2 H).
  destruct (existsb (Str.eqb x) s2).
  - apply IH. exact H.
  - f_equal. apply IH. intros y. simpl. rewrite H. tauto.
Qed.

Lemma distinct_app (a : list str) : forall (b seen : list str),
  distinct seen (a ++ b) = distinct seen a ++ distinct (a ++ seen) b.
Proof.
  induction a as [|x a IH]; intros b seen; simpl; [reflexivity|].
  destruct (existsb (Str.eqb x) seen) eqn:E.
  - rewrite IH. f_equal. apply distinct_seen.
    apply mem_In in E.
    intros y. simpl. rewrite !in_app_iff. intuition (subst; auto).
  - simpl. f_equal. rewrite IH. f_equal. apply distinct_seen.
    intros y. simpl. rewrite !in_app_iff. simpl. intuition (subst; auto).
Qed.

Lemma distinct_all_seen (l seen : list str) :
  (forall x, In x l -> In x seen) -> distinct seen l = [].
Proof.
  induction l as [|x l IH]; intros H; simpl; [reflexivity|].
  rewrite (proj2 (mem_In x seen)) by (apply H; left; reflexivity).
  apply IH. intros y Hy. apply H. right. exact Hy.
Qed.

Lemma distinct_In (l : list str) : forall (seen : list str) (x : str),
  In x (distinct seen l) <-> In x l /\ ~ In x seen.
Proof.
  induction l as [|y l IH]; intros seen x; simpl; [tauto|].
  destruct (existsb (Str.eqb y) seen) eqn:E.
  - rewrite IH. apply mem_In in E. split.
    + tauto.
    + intros [[<- | H] Hn]; [contradiction | tauto].
  - simpl. rewrite IH. simpl.
    assert (Hn : ~ In y seen) by (intros H; apply mem_In in H; congruence).
    split.
    + intros [<- | [H1 H2]]; [tauto|]. split; [tauto|]. tauto.
    + intros [[<- | H1] H2]; [tauto|].
      destruct (Str.eqb y x) eqn:Eyx.
      * apply StrFacts.str_eqb_eq in Eyx. tauto.
      * apply StrFacts.str_eqb_neq in Eyx. right. split; [exact H1|].
        intros [H3 | H3]; [contradiction | contradiction].
Qed.

Lemma distinct_NoDup (l : list str) : forall seen : list str,
  NoDup (distinct seen l).
Proof.
  induction l as [|y l IH]; intros seen; simpl; [constructor|].
  destruct (existsb (Str.eqb y) seen); [apply IH|].
  constructor; [|apply IH].
  rewrite distinct_In. simpl. tauto.
Qed.

Lemma same_firsts_refl (l : list str) : same_firsts l l.
Proof. split; [reflexivity | tauto]. Qed.

Lemma same_firsts_app (a' a b' b : list str) :
  same_firsts a' a -> same_firsts b' b -> same_firsts (a' ++ b') (a ++ b).
Proof.
  intros [Ha1 Ha2] [Hb1 Hb2]. split.
  - intros seen. rewrite !distinct_app, Ha1, Hb1. f_equal.
    apply distinct_seen. intros y. rewrite !in_app_iff, Ha2. tauto.
  - intros x. rewrite !in_app_iff, Ha2, Hb2. tauto.
Qed.

Lemma same_firsts_dup (a : list str) : same_firsts (a ++ a) a.
Proof.
  split.
  - intros seen. rewrite distinct_app.
    rewrite (distinct_all_seen a (a ++ seen)); [apply app_nil_r|].
    intros x Hx. apply in_app_iff. left. exact Hx.
  - intros x. rewrite in_app_iff. tauto.
Qed.

End DistinctFacts.

(** ** postprocessing.py: the precedent deduplication *)

Module PrecedentFacts.
Import StrFacts Postprocessing DistinctFacts.

Lemma FOP_snoc (A : Type) (R : A -> A -> Prop) (l : list A) (x : A) :
  ForallOrdPairs R l -> (forall p, In p l -> R p x) -> ForallOrdPairs R (l ++ [x]).
Proof.
  induction 1 as [|a l Ha Hl IH]; intros Hx; simpl.
  - repeat constructor.
  - constructor.
    + apply Forall_app. split; [exact Ha|].
      constructor; [apply Hx; left; reflexivity | constructor].
    + apply IH. intros p Hp. apply Hx. right. exact Hp.
Qed.

Lemma In_firstn (A : Type) (l : list A) : forall n x,
  In x (firstn n l) -> In x l.
Proof.
  induction l as [|a l IH]; intros [|n] x H; simpl in *; try contradiction.
  destruct H as [<- | H]; [left; reflexivity | right; exact (IH _ _ H)].
Qed.

Lemma FOP_firstn (A : Type) (R : A -> A -> Prop) (l : list A) : forall n,
  ForallOrdPairs R l -> ForallOrdPairs R (firstn n l).
Proof.
  induction l as [|a l IH]; intros [|n] H; simpl; try constructor.
  - inversion H as [|? ? Ha Hl]; subst.
    rewrite Forall_forall in *. intros x Hx. apply Ha.
    exact (In_firstn _ _ _ _ Hx).
  - inversion H; subst. apply IH. assumption.
Qed.

Lemma existsb_similar (c : str) (unique : list str) :
  existsb (fun s => Difflib.ratio_above_085 (lbase c) s) (map lbase unique) = true ->
  exists r, In r unique /\ similar c r = true.
Proof.
  rewrite existsb_exists. intros (s & Hs & Hr).
  apply in_map_iff in Hs. destruct Hs as (r & <- & Hin).
  exists r. split; assumption.
Qed.

Lemma existsb_not_similar (c : str) (unique : list str) :
  existsb (fun s => Difflib.ratio_above_085 (lbase c) s) (map lbase unique) = false ->
  forall r, In r unique -> similar c r = false.
Proof.
  intros H r Hr. destruct (similar c r) eqn:E; [|reflexivity].
  assert (X : existsb (fun s => Difflib.ratio_above_085 (lbase c) s)
                (map lbase unique) = true).
  { apply existsb_exists. exists (lbase r). split; [|exact E].
    apply in_map. exact Hr. }
  congruence.
Qed.

(** What the loop keeps: the entries kept before, then candidates with
    a base name of ten characters or more, no entry a near-duplicate
    of an earlier one. *)
Lemma dedup_loop_kept (cands : list str) : forall seen unique,
  seen = map lbase unique ->
  ForallOrdPairs (fun p q => similar q p = false) unique ->
  exists added,
    dedup_loop cands seen unique = unique ++ added /\
    (forall p, In p added -> In p cands /\ 10 <= List.length (base_name p)) /\
    ForallOrdPairs (fun p q => similar q p = false) (unique ++ added).
Proof.
  induction cands as [|prec rest IH]; intros seen unique Hs Hp; cbn [dedup_loop].
  - exists []. rewrite app_nil_r. split; [reflexivity|]. split; [intros p []|exact Hp].
  - destruct (List.length (base_name prec) <? 10) eqn:E10.
    + destruct (IH seen unique Hs Hp) as (added & H1 & H2 & H3).
      exists added. split; [exact H1|]. split; [|exact H3].
      intros p Hin. destruct (H2 p Hin). split; [right|]; assumption.
    + fold (lbase prec).
      destruct (existsb _ seen) eqn:Ex.
      * destruct (IH seen unique Hs Hp) as (added & H1 & H2 & H3).
        exists added. split; [exact H1|]. split; [|exact H3].
        intros p Hin. destruct (H2 p Hin). split; [right|]; assumption.
      * assert (Hs' : seen ++ [lbase prec] = map lbase (unique ++ [prec])).
        { rewrite map_app, Hs. reflexivity. }
        assert (Hp' : ForallOrdPairs (fun p q => similar q p = false) (unique ++ [prec])).
        { apply FOP_snoc; [exact Hp|]. subst seen.
          apply existsb_not_similar. exact Ex. }
        destruct (IH _ _ Hs' Hp') as (added & H1 & H2 & H3).
        exists (prec :: added). rewrite H1, <- app_assoc. split; [reflexivity|].
        split; [|rewrite <- app_assoc in H3; exact H3].
        intros p [<- | Hin].
        -- split; [left; reflexivity|]. apply Nat.ltb_ge in E10. exact E10.
        -- destruct (H2 p Hin). split; [right|]; assumption.
Qed.

(** Every candidate with a long enough base name is kept or has a kept
    near-duplicate at least as long, when the candidates come longest
    first. *)
Lemma dedup_loop_represented (cands : list str) : forall seen unique,
  seen = map lbase unique ->
  StronglySorted longer_first cands ->
  (forall u c, In u unique -> In c cands -> List.length c <= List.length u) ->
  forall c, In c cands -> 10 <= List.length (base_name c) ->
  In c (dedup_loop cands seen unique) \/
  exists r, In r (dedup_loop cands seen unique) /\
            List.length c <= List.length r /\ similar c r = true.
Proof.
  induction cands as [|prec rest IH]; intros seen unique Hs Hsort Hlen c Hc Hb;
    [destruct Hc|].
  revert Hs. inversion Hsort as [|? ? Hsort' Hhd]; subst. intros Hs.
  assert (Hlen' : forall u c, In u unique -> In c rest ->
                              List.length c <= List.length u).
  { intros u c0 Hu Hc0. apply Hlen; [exact Hu | right; exact Hc0]. }
  assert (Hext : forall sn un, sn = map lbase un ->
            forall x, In x un -> In x (dedup_loop rest sn un)).
  { intros sn un Hsn x Hx.
    assert (Hfop : exists added, dedup_loop rest sn un = un ++ added).
    { clear - Hsn. revert sn un Hsn.
      induction rest as [|p r IHr]; intros sn un Hsn; cbn [dedup_loop].
      - exists []. rewrite app_nil_r. reflexivity.
      - destruct (List.length (base_name p) <? 10); [apply IHr; exact Hsn|].
        destruct (existsb _ sn); [apply IHr; exact Hsn|].
        destruct (IHr (sn ++ [Str.lower (base_name p)]) (un ++ [p])) as [ad Had].
        { rewrite map_app, Hsn. reflexivity. }
        exists (p :: ad). rewrite Had, <- app_assoc. reflexivity. }
    destruct Hfop as [added ->]. apply in_app_iff. left. exact Hx. }
  cbn [dedup_loop].
  destruct (List.length (base_name prec) <? 10) eqn:E10.
  - destruct Hc as [<- | Hc].
    + apply Nat.ltb_lt in E10. lia.
    + apply IH; assumption.
  - fold (lbase prec). destruct (existsb _ seen) eqn:Ex.
    + destruct Hc as [<- | Hc].
      * right. subst seen. destruct (existsb_similar _ _ Ex) as (r & Hr & Hsim).
        exists r. split; [apply Hext; [reflexivity | exact Hr]|].
        split; [apply Hlen; [exact Hr | left; reflexivity] | exact Hsim].
      * apply IH; assumption.
    + assert (Hs' : seen ++ [lbase prec] = map lbase (unique ++ [prec])).
      { rewrite map_app, Hs. reflexivity. }
      destruct Hc as [<- | Hc].
      * left. apply Hext; [exact Hs'|]. apply in_app_iff. right. left. reflexivity.
      * apply IH; try assumption.
        intros u c0 Hu Hc0. apply in_app_iff in Hu. destruct Hu as [Hu | [<- | []]].
        -- apply Hlen'; assumption.
        -- rewrite Forall_forall in Hhd. apply Hhd. exact Hc0.
Qed.

Lemma insert_by_len_perm (x : str) (l : list str) :
  Permutation (insert_by_len x l) (x :: l).
Proof.
  induction l as [|y l IH]; simpl; [reflexivity|].
  destruct (List.length x <? List.length y); [|reflexivity].
  rewrite IH. apply perm_swap.
Qed.

Lemma sorted_by_len_desc_perm (l : list str) :
  Permutation (sorted_by_len_desc l) l.
Proof.
  induction l as [|x l IH]; simpl; [reflexivity|].
  rewrite insert_by_len_perm. constructor. exact IH.
Qed.

Lemma insert_by_len_sorted (x : str) (l : list str) :
  StronglySorted longer_first l -> StronglySorted longer_first (insert_by_len x l).
Proof.
  induction 1 as [|y l Hl IH Hy]; simpl.
  - repeat constructor.
  - destruct (List.length x <? List.length y) eqn:E.
    + constructor; [exact IH|].
      apply Nat.ltb_lt in E.
      rewrite Forall_forall in *. intros z Hz.
      apply (Permutation_in _ (insert_by_len_perm x l)) in Hz.
      destruct Hz as [<- | Hz]; [unfold longer_first; lia | apply Hy; exact Hz].
    + apply Nat.ltb_ge in E. constructor; [constructor; assumption|].
      constructor; [exact E|].
      rewrite Forall_forall in *. intros z Hz. specialize (Hy z Hz).
      unfold longer_first in *. lia.
Qed.

Lemma sorted_by_len_desc_sorted (l : list str) :
  StronglySorted longer_first (sorted_by_len_desc l).
Proof.
  induction l as [|x l IH]; simpl; [constructor|].
  apply insert_by_len_sorted. exact IH.
Qed.

End PrecedentFacts.

(** ** postprocessing.py: the provenance tag *)

Module ProvenanceFacts.
Import StrFacts RunFacts Re Postprocessing.








































End ProvenanceFacts.

(** ** postprocessing.py: fusion *)

Module FusionFacts.
Import StrFacts Postprocessing DistinctFacts DictFacts PrecedentFacts ProvenanceFacts.

Lemma fold_collect (f : str * str -> option (str * (str * str))) (l : list (str * str)) :
  forall d, fold_left (collect f) l d = fold_left add (contribs f l) d.
Proof.
  induction l as [|x l IH]; intros d; simpl; [reflexivity|].
  unfold collect at 2. destruct (f x) as [[k it]|]; simpl.
  - rewrite IH. reflexivity.
  - apply IH.
Qed.

Lemma contribs_app (f : str * str -> option (str * (str * str))) (a b : list (str * str)) :
  contribs f (a ++ b) = contribs f a ++ contribs f b.
Proof. unfold contribs. apply flat_map_app. Qed.

Lemma items_for_app (k : str) (a b : list (str * (str * str))) :
  items_for k (a ++ b) = items_for k a ++ items_for k b.
Proof. unfold items_for. rewrite filter_app, map_app. reflexivity. Qed.

(** The table built by steps 1 and 2, read at one key. *)
Lemma get_build (c : list (str * (str * str))) : forall d k,
  Dict.get k (fold_left add c d) =
  match Dict.get k d with
  | Some v => Some (v ++ items_for k c)
  | None => match items_for k c with [] => None | l => Some l end
  end.
Proof.
  induction c as [|[k0 it] c IH]; intros d k; simpl.
  - destruct (Dict.get k d); [rewrite app_nil_r|]; reflexivity.
  - rewrite IH. unfold add, Dict.append. simpl. rewrite get_set.
    unfold items_for. simpl.
    destruct (Str.eqb k k0) eqn:E.
    + apply StrFacts.str_eqb_eq in E. subst k0. simpl.
      unfold Dict.get_or. destruct (Dict.get k d) as [v|].
      * rewrite <- app_assoc. reflexivity.
      * reflexivity.
    + reflexivity.
Qed.

Lemma keys_build (c : list (str * (str * str))) : forall d,
  Dict.keys (fold_left add c d) = Dict.keys d ++ distinct (Dict.keys d) (map fst c).
Proof.
  induction c as [|[k0 it] c IH]; intros d; simpl.
  - rewrite app_nil_r. reflexivity.
  - rewrite IH. unfold add, Dict.append. simpl. rewrite keys_set.
    unfold Dict.mem.
    destruct (Dict.get k0 d) eqn:G.
    + assert (Hin : In k0 (Dict.keys d)).
      { destruct (in_dec (list_eq_dec ascii_dec) k0 (Dict.keys d)) as [H|H]; [exact H|].
        apply get_none_keys in H. congruence. }
      rewrite (proj2 (mem_In k0 (Dict.keys d)) Hin). reflexivity.
    + assert (Hn : ~ In k0 (Dict.keys d)) by (apply get_none_keys; exact G).
      destruct (existsb (Str.eqb k0) (Dict.keys d)) eqn:E.
      * apply mem_In in E. contradiction.
      * rewrite <- app_assoc. simpl. f_equal. f_equal.
        apply distinct_seen. intros y. rewrite in_app_iff. simpl. tauto.
Qed.

Lemma keys_build_NoDup (c : list (str * (str * str))) :
  NoDup (Dict.keys (fold_left add c [])).
Proof. rewrite keys_build. simpl. apply distinct_NoDup. Qed.

Lemma bucket_app (p : str -> bool) (a b : list (str * str)) :
  bucket p (a ++ b) = bucket p a ++ bucket p b.
Proof. unfold bucket. rewrite filter_app, map_app. reflexivity. Qed.

Lemma covered_mono (key : str) (sk : list str) (k : str) (x : str) :
  covered key sk x -> covered key (k :: sk) x.
Proof.
  unfold covered. destruct (clean_value key x); [|trivial].
  intros H. simpl. rewrite H. apply Bool.orb_true_r.
Qed.

(** The cleaning loop only depends on the first occurrence of each
    candidate. *)
Lemma clean_loop_distinct (key : str) (l : list str) : forall seen sk,
  (forall x, In x seen -> covered key sk x) ->
  clean_loop key l sk = clean_loop key (distinct seen l) sk.
Proof.
  induction l as [|x l IH]; intros seen sk Hc; simpl; [reflexivity|].
  destruct (existsb (Str.eqb x) seen) eqn:E.
  - apply mem_In in E. pose proof (Hc x E) as Hx. unfold covered in Hx.
    destruct (clean_value key x) as [v2|]; [rewrite Hx|]; apply IH; exact Hc.
  - simpl. destruct (clean_value key x) as [v2|] eqn:Ev.
    + destruct (existsb (Str.eqb (Str.lower v2)) sk) eqn:Es.
      * apply IH. intros y [<- | Hy]; [unfold covered; rewrite Ev; exact Es | auto].
      * f_equal. apply IH. intros y [<- | Hy].
        -- unfold covered. rewrite Ev. simpl. rewrite StrFacts.str_eqb_refl. reflexivity.
        -- apply covered_mono. auto.
    + apply IH. intros y [<- | Hy]; [unfold covered; rewrite Ev; exact Logic.I | auto].
Qed.

Lemma clean_loop_same_firsts (key : str) (l' l : list str) :
  same_firsts l' l -> clean_loop key l' [] = clean_loop key l [].
Proof.
  intros [H _].
  rewrite (clean_loop_distinct key l' [] []) by (intros x []).
  rewrite (clean_loop_distinct key l [] []) by (intros x []).
  rewrite H. reflexivity.
Qed.

Lemma clean_loop_seen (key : str) (l : list str) : forall s1 s2,
  (forall y, In y s1 <-> In y s2) -> clean_loop key l s1 = clean_loop key l s2.
Proof.
  induction l as [|x l IH]; intros s1 s2 H; simpl; [reflexivity|].
  destruct (clean_value key x) as [v2|]; [|apply IH; exact H].
  rewrite (mem_equiv (Str.lower v2) s1 s2 H).
  destruct (existsb (Str.eqb (Str.lower v2)) s2); [apply IH; exact H|].
  f_equal. apply IH. intros y. simpl. rewrite H. tauto.
Qed.

(** The cleaning loop over a concatenation: the survivors of the first
    part, then those of the second that are new. *)
Lemma clean_loop_app (key : str) (a : list str) : forall b sk,
  clean_loop key (a ++ b) sk =
  clean_loop key a sk ++ clean_loop key b (seen_after key a sk).
Proof.
  unfold seen_after.
  induction a as [|x a IH]; intros b sk; simpl; [reflexivity|].
  destruct (clean_value key x) as [v2|]; [|apply IH].
  destruct (existsb (Str.eqb (Str.lower v2)) sk); [apply IH|].
  simpl. f_equal. rewrite IH. f_equal. apply clean_loop_seen.
  intros y. rewrite <- app_assoc. rewrite !in_app_iff. simpl. tauto.
Qed.

(** Every survivor is the cleaned text of a candidate. *)
Lemma clean_loop_origin (key : str) (l : list str) : forall sk v2,
  In v2 (clean_loop key l sk) -> exists v, In v l /\ clean_value key v = Some v2.
Proof.
  induction l as [|x l IH]; intros sk v2 H; simpl in H; [contradiction|].
  destruct (clean_value key x) as [w|] eqn:E.
  - destruct (existsb (Str.eqb (Str.lower w)) sk).
    + destruct (IH _ _ H) as (v & Hv & Hc). exists v. split; [right|]; assumption.
    + destruct H as [<- | H].
      * exists x. split; [left; reflexivity | exact E].
      * destruct (IH _ _ H) as (v & Hv & Hc). exists v. split; [right|]; assumption.
  - destruct (IH _ _ H) as (v & Hv & Hc). exists v. split; [right|]; assumption.
Qed.

Section Fusion.
Variable set_order : list str -> list str.

Lemma merge_entities_unfold (b s : list (str * str)) :
  merge_entities set_order b s = finish (fused_table set_order b s).
Proof. unfold merge_entities, finish, add_extras, fused_table. reflexivity. Qed.

Lemma accum_closed (b s : list (str * str)) :
  fold_left collect_spacy s (fold_left collect_bert b []) =
  fold_left add (contribs bert_item b ++ contribs spacy_item s) [].
Proof.
  unfold collect_spacy, collect_bert.
  rewrite !fold_collect, fold_left_app. reflexivity.
Qed.

Lemma dedup_same_firsts (l' l : list str) :
  same_firsts l' l ->
  _deduplicate_precedents set_order l' = _deduplicate_precedents set_order l.
Proof.
  intros [H1 H2]. unfold _deduplicate_precedents.
  destruct l' as [|x l'], l as [|y l]; try reflexivity.
  - exfalso. apply (proj2 (H2 y)). left. reflexivity.
  - exfalso. apply (proj1 (H2 x)). left. reflexivity.
  - rewrite H1. reflexivity.
Qed.

Lemma fuse_same_firsts (key : str) (i' i : list (str * str)) :
  same_firsts (combined_of i') (combined_of i) ->
  fuse set_order key i' = fuse set_order key i.
Proof.
  intros H. unfold fuse. destruct (Str.eqb key (L "precedent")).
  - rewrite (dedup_same_firsts _ _ H). reflexivity.
  - apply clean_loop_same_firsts. exact H.
Qed.

Lemma combined_doubled (ib is_ : list (str * str)) :
  same_firsts (combined_of ((ib ++ ib) ++ (is_ ++ is_))) (combined_of (ib ++ is_)).
Proof.
  unfold combined_of. rewrite !bucket_app.
  repeat apply same_firsts_app; apply same_firsts_dup.
Qed.

Lemma fused_table_doubled (b s : list (str * str)) :
  fused_table set_order (b ++ b) (s ++ s) = fused_table set_order b s.
Proof.
  unfold fused_table. rewrite !accum_closed, !contribs_app.
  set (cb := contribs bert_item b). set (cs := contribs spacy_item s).
  apply DictFacts.ext.
  - rewrite !keys_map, !keys_build. simpl. rewrite !map_app.
    assert (H : same_firsts ((map fst cb ++ map fst cb) ++ map fst cs ++ map fst cs)
                            (map fst cb ++ map fst cs)).
    { apply same_firsts_app; apply same_firsts_dup. }
    apply (proj1 H).
  - rewrite keys_map. apply keys_build_NoDup.
  - intros k. rewrite !get_map, !get_build. simpl. rewrite !items_for_app.
    set (ib := items_for k cb). set (is_ := items_for k cs).
    pose proof (fuse_same_firsts k _ _ (combined_doubled ib is_)) as Hf.
    destruct ib as [|x ib]; destruct is_ as [|y is_]; simpl in *;
      try reflexivity; rewrite Hf; reflexivity.
Qed.

End Fusion.

(** *** Reading the result of [merge_entities] at one key *)

Lemma get_append (V : Type) (k k' : str) (x : V) (d : Dict.t (list V)) :
  Dict.get k' (Dict.append k x d) =
  if Str.eqb k' k then Some (Dict.get_or k [] d ++ [x]) else Dict.get k' d.
Proof. unfold Dict.append. apply get_set. Qed.

Lemma get_ensure_list (keys : list str) : forall (final : Dict.t (list str)) (k : str),
  Dict.get k (fold_left (fun f k => if Dict.mem k f then f else Dict.set k [] f)
                        keys final) =
  match Dict.get k final with
  | Some v => Some v
  | None => if existsb (Str.eqb k) keys then Some [] else None
  end.
Proof.
  induction keys as [|k0 keys IH]; intros final k; simpl.
  - destruct (Dict.get k final); reflexivity.
  - rewrite IH. unfold Dict.mem.
    destruct (Dict.get k0 final) as [v0|] eqn:G0.
    + destruct (Dict.get k final) eqn:G; [reflexivity|].
      destruct (Str.eqb k k0) eqn:E; [|reflexivity].
      apply StrFacts.str_eqb_eq in E. subst. congruence.
    + rewrite get_set. destruct (Str.eqb k k0) eqn:E.
      * apply StrFacts.str_eqb_eq in E. subst. rewrite G0. reflexivity.
      * destruct (Dict.get k final); reflexivity.
Qed.

Lemma get_ensure (final : Dict.t (list str)) (k : str) :
  Dict.get k (ensure_expected final) =
  match Dict.get k final with
  | Some v => Some v
  | None => if existsb (Str.eqb k) expected then Some [] else None
  end.
Proof. apply get_ensure_list. Qed.

Lemma not_extra (key : str) :
  ~ In key extra_keys ->
  key <> L "extra_case_numbers" /\ key <> L "extra_courts" /\ key <> L "extra_dates".
Proof.
  intros H. repeat split; intros ->; apply H; simpl; auto.
Qed.

Lemma truthy_list_false (l : list str) : negb (truthy_list l) = true -> l = [].
Proof. destruct l; [reflexivity | discriminate]. Qed.

(** Step 6 leaves every list alone except that it may append one
    inferred party to an empty petitioner or respondent list. *)
Lemma get_party_fallback (final : Dict.t (list str)) (key : str) :
  exists tail,
    Dict.get key (party_fallback final) =
      (if Str.eqb key (L "petitioner") || Str.eqb key (L "respondent")
       then match tail with
            | [] => Dict.get key final
            | _ => Some (Dict.get_or key [] final ++ tail)
            end
       else Dict.get key final) /\
    (tail <> [] -> is_party_key key = true /\ Dict.get_or key [] final = []).
Proof.
  unfold party_fallback.
  destruct (negb (truthy_list (Dict.get_or (L "petitioner") [] final))) eqn:Ep;
    [|exists []; split; [destruct (_ || _); reflexivity | intros H; contradiction]].
  destruct (negb (truthy_list (Dict.get_or (L "respondent") [] final))) eqn:Er;
    [|exists []; split; [destruct (_ || _); reflexivity | intros H; contradiction]].
  apply truthy_list_false in Ep. apply truthy_list_false in Er.
  cbn [andb].
  destruct (_infer_parties_from_case_name _) as [pet resp].
  set (f1 := match pet with
             | Some p0 => if Str.truthy p0
                          then Dict.append (L "petitioner") p0 final else final
             | None => final
             end).
  assert (H1 : forall k, k <> L "petitioner" -> Dict.get k f1 = Dict.get k final).
  { intros k Hk. unfold f1. destruct pet as [p0|]; [|reflexivity].
    destruct (Str.truthy p0); [|reflexivity].
    rewrite get_append. apply StrFacts.str_eqb_neq in Hk. rewrite Hk. reflexivity. }
  destruct (Str.eqb key (L "petitioner")) eqn:Kp.
  - apply StrFacts.str_eqb_eq in Kp. subst key. cbn [orb].
    assert (G : Dict.get (L "petitioner")
                  (match resp with
                   | Some p1 => if Str.truthy p1
                                then Dict.append (L "respondent") p1 f1 else f1
                   | None => f1
                   end) = Dict.get (L "petitioner") f1).
    { destruct resp as [p1|]; [|reflexivity].
      destruct (Str.truthy p1); [|reflexivity].
      rewrite get_append. reflexivity. }
    rewrite G. unfold f1. destruct pet as [p0|]; [|exists []; split; [reflexivity | intros H; contradiction]].
    destruct (Str.truthy p0); [|exists []; split; [reflexivity | intros H; contradiction]].
    exists [p0]. rewrite get_append, StrFacts.str_eqb_refl. split; [reflexivity|].
    intros _. split; [reflexivity | exact Ep].
  - cbn [orb]. apply StrFacts.str_eqb_neq in Kp.
    destruct (Str.eqb key (L "respondent")) eqn:Kr.
    + apply StrFacts.str_eqb_eq in Kr. subst key.
      destruct resp as [p1|];
        [|exists []; split; [apply H1; exact Kp | intros H; contradiction]].
      destruct (Str.truthy p1);
        [|exists []; split; [apply H1; exact Kp | intros H; contradiction]].
      exists [p1]. rewrite get_append, StrFacts.str_eqb_refl. split.
      * unfold Dict.get_or. rewrite (H1 _ Kp). reflexivity.
      * intros _. split; [reflexivity | exact Er].
    + exists []. split; [|intros H; contradiction].
      destruct resp as [p1|]; [|apply H1; exact Kp].
      destruct (Str.truthy p1); [|apply H1; exact Kp].
      rewrite get_append, Kr. apply H1. exact Kp.
Qed.

Lemma get_add_extras (final : Dict.t (list str)) (key : str) :
  ~ In key extra_keys -> Dict.get key (add_extras final) = Dict.get key final.
Proof.
  intros Hx. destruct (not_extra key Hx) as (X1 & X2 & X3).
  unfold add_extras. cbv zeta. rewrite !get_set_other by assumption. reflexivity.
Qed.

Lemma get_finish_other (final : Dict.t (list str)) (key : str) :
  ~ In key extra_keys -> is_party_key key = false ->
  Dict.get key (finish final) = Dict.get key (ensure_expected final).
Proof.
  intros Hx Hp. unfold finish.
  rewrite <- (get_add_extras (ensure_expected final) key Hx).
  generalize (add_extras (ensure_expected final)). intros f4.
  destruct (get_party_fallback f4 key) as (tail & Ht & Hn).
  unfold is_party_key in Hp. rewrite Hp in Ht. exact Ht.
Qed.

Lemma get_finish (final : Dict.t (list str)) (key : str) (v : list str) :
  ~ In key extra_keys ->
  Dict.get key final = Some v ->
  exists tail,
    Dict.get key (finish final) = Some (v ++ tail) /\
    (tail <> [] -> is_party_key key = true /\ v = []).
Proof.
  intros Hx Hg. unfold finish.
  assert (G4 : Dict.get key (add_extras (ensure_expected final)) = Some v).
  { rewrite get_add_extras by exact Hx. rewrite get_ensure, Hg. reflexivity. }
  generalize dependent (add_extras (ensure_expected final)). intros f4 G4.
  destruct (get_party_fallback f4 key) as (tail & Ht & Hn).
  exists tail. unfold Dict.get_or in Ht, Hn. rewrite G4 in Ht, Hn.
  split; [|exact Hn].
  rewrite Ht. unfold is_party_key in Hn.
  destruct (Str.eqb key (L "petitioner") || Str.eqb key (L "respondent")).
  - destruct tail; [rewrite app_nil_r|]; reflexivity.
  - destruct tail as [|t tail]; [rewrite app_nil_r; reflexivity|].
    assert (N : t :: tail <> []) by discriminate.
    destruct (Hn N) as [Hp _]. discriminate Hp.
Qed.

Lemma spacy_items_prov (s : list (str * str)) (key : str) (it : str * str) :
  In it (items_for key (contribs spacy_item s)) -> snd it = L "spacy".
Proof.
  unfold items_for, contribs. intros H.
  apply in_map_iff in H. destruct H as ([k it'] & <- & H).
  apply filter_In in H. destruct H as [H _].
  apply in_flat_map in H. destruct H as ([label val] & _ & H).
  unfold spacy_item in H. destruct (Str.is_empty val); [contradiction|].
  destruct H as [H | []]. injection H as _ <-. reflexivity.
Qed.




Lemma seen_after_app (key : str) (a b : list str) :
  seen_after key (a ++ b) [] = seen_after key b (seen_after key a []).
Proof.
  unfold seen_after. rewrite clean_loop_app. unfold seen_after.
  rewrite map_app, rev_app_distr, !app_nil_r. reflexivity.
Qed.

Lemma get_fused_table (set_order : list str -> list str) (b s : list (str * str))
  (key : str) :
  Dict.get key (fused_table set_order b s) =
  match items_for key (contribs bert_item b) ++ items_for key (contribs spacy_item s) with
  | [] => None
  | l => Some (fuse set_order key l)
  end.
Proof.
  unfold fused_table. rewrite accum_closed, get_map, get_build. simpl.
  rewrite items_for_app.
  destruct (items_for key (contribs bert_item b) ++
            items_for key (contribs spacy_item s)); reflexivity.
Qed.

(** C2, as stated, fails on the fused output: with no candidate at all
    it still carries an empty list under every expected label. *)
Lemma fused_output_has_empty_lists :
  Dict.get (L "court") (merge_entities insertion_order [] []) = Some [] /\
  Forall (fun k => Dict.get k (merge_entities insertion_order [] []) = Some [])
         expected.
Proof. split; [vm_compute; reflexivity | vm_compute; repeat constructor]. Qed.

Lemma dedup_base_long (set_order : list str -> list str) (ps : list str) (p : str) :
  In p (_deduplicate_precedents set_order ps) -> 10 <= List.length (base_name p).
Proof.
  unfold _deduplicate_precedents. destruct ps as [|p0 ps]; [intros []|].
  intros H. apply In_firstn in H.
  destruct (dedup_loop_kept
              (sorted_by_len_desc (set_order (distinct [] (p0 :: ps)))) [] []
              eq_refl (FOP_nil _)) as (added & H1 & H2 & _).
  rewrite H1 in H. simpl in H. exact (proj2 (H2 p H)).
Qed.

(** For a precedent the cleaning loop only trims the candidate and
    asks for fifteen characters. *)
Lemma clean_value_precedent (v v2 : str) :
  clean_value (L "precedent") v = Some v2 ->
  v2 = Str.strip_chars (L ".,;:") (Str.strip v) /\ 15 <= List.length v2.
Proof.
  unfold clean_value. destruct (Str.is_empty v); [discriminate|].
  change (Str.eqb (L "precedent") (L "coram")) with false.
  change (is_party_key (L "precedent")) with false.
  change (Str.eqb (L "precedent") (L "organization")) with false.
  change (Str.eqb (L "precedent") (L "lawyer")) with false.
  change (Str.eqb (L "precedent") (L "statute")) with false.
  change (Str.eqb (L "precedent") (L "precedent")) with true.
  cbv beta iota. cbn [andb].
  destruct (List.length (Str.strip_chars (L ".,;:") (Str.strip v)) <? 15) eqn:E;
    [discriminate|].
  intros H. injection H as <-. apply Nat.ltb_ge in E. split; [reflexivity | exact E].
Qed.

Lemma precedent_not_extra : ~ In (L "precedent") extra_keys.
Proof. vm_compute. intros [X | [X | [X | []]]]; discriminate X. Qed.

Lemma precedent_not_party : is_party_key (L "precedent") = false.
Proof. vm_compute. reflexivity. Qed.

Lemma precedent_expected : existsb (Str.eqb (L "precedent")) expected = true.
Proof. vm_compute. reflexivity. Qed.

Lemma precedent_eqb : Str.eqb (L "precedent") (L "precedent") = true.
Proof. vm_compute. reflexivity. Qed.













(** A line feed in the text hides the tag: the pattern of step 1 does
    not match, the candidate is filed as untagged with the tag left in
    its text, and a body candidate can come before a header one. *)
Lemma line_feed_hides_tag :
  Dict.get_or (L "court") []
    (merge_entities insertion_order
       (map tagged_item
          [Candidate (L "COURT") (L "High Court" ++ [Chr.LF] ++ L "of Delhi") FromBody;
           Candidate (L "COURT") (L "Supreme Court" ++ [Chr.LF] ++ L "of India") FromHeader])
       [])
  = [L "High Court of Delhi [body]"; L "Supreme Court of India [header]"].
Proof. vm_compute. reflexivity. Qed.

Lemma get_or_accum (b s : list (str * str)) (key : str) :
  Dict.get_or key [] (fold_left collect_spacy s (fold_left collect_bert b [])) =
  items_for key (contribs bert_item b) ++ items_for key (contribs spacy_item s).
Proof.
  unfold Dict.get_or. rewrite accum_closed, get_build, items_for_app.
  cbn [Dict.get].
  destruct (items_for key (contribs bert_item b) ++
            items_for key (contribs spacy_item s)); reflexivity.
Qed.

(** What the deduplication returns is among the distinct candidates
    it was given, when the iteration of a set yields its elements. *)
Lemma dedup_from_candidates (set_order : list str -> list str) (ps : list str) (p : str) :
  (forall l, Permutation (set_order l) l) ->
  In p (_deduplicate_precedents set_order ps) -> In p (distinct [] ps).
Proof.
  intros Hperm. unfold _deduplicate_precedents. destruct ps as [|p0 ps]; [intros []|].
  intros H. apply In_firstn in H.
  destruct (dedup_loop_kept
              (sorted_by_len_desc (set_order (distinct [] (p0 :: ps)))) [] []
              eq_refl (FOP_nil _)) as (added & H1 & H2 & _).
  rewrite H1 in H. cbn [app] in H. destruct (H2 p H) as [Hin _].
  apply (Permutation_in _ (sorted_by_len_desc_perm _)) in Hin.
  exact (Permutation_in _ (Hperm _) Hin).
Qed.

(** The precedent list of the result is the cleaned output of the
    deduplication of the candidates. *)
Lemma get_precedent_fused (set_order : list str -> list str) (b s : list (str * str))
  (l : list str) :
  Dict.get (L "precedent") (merge_entities set_order b s) = Some l ->
  l = clean_loop (L "precedent")
        (_deduplicate_precedents set_order
           (combined_of
              (Dict.get_or (L "precedent") []
                 (fold_left collect_spacy s (fold_left collect_bert b []))))) [].
Proof.
  rewrite get_or_accum, merge_entities_unfold.
  rewrite (get_finish_other _ _ precedent_not_extra precedent_not_party).
  rewrite get_ensure, get_fused_table.
  destruct (items_for (L "precedent") (contribs bert_item b) ++
            items_for (L "precedent") (contribs spacy_item s)) as [|i0 il].
  - rewrite precedent_expected. intros H. injection H as <-. reflexivity.
  - unfold fuse. rewrite precedent_eqb. intros H. injection H as <-. reflexivity.
Qed.

(** Every precedent candidate is a value that step 1 or step 2 filed
    under "precedent" for an item of the input. *)
Lemma precedent_candidates_origin (b s : list (str * str)) (v : str) :
  In v (precedent_candidates b s) ->
  (exists item prov, In item b /\ bert_item item = Some (L "precedent", (v, prov))) \/
  (exists item, In item s /\ spacy_item item = Some (L "precedent", (v, L "spacy"))).
Proof.
  unfold precedent_candidates. rewrite get_or_accum. intros H.
  apply distinct_In in H. destruct H as [H _].
  assert (Hit : exists prov,
            In (v, prov) (items_for (L "precedent") (contribs bert_item b) ++
                          items_for (L "precedent") (contribs spacy_item s))).
  { unfold combined_of, bucket in H. rewrite !in_app_iff, !in_map_iff in H.
    destruct H as [H | [H | H]]; destruct H as ([v' prov] & E & H);
      cbn [fst] in E; subst v'; apply filter_In in H; exists prov; exact (proj1 H). }
  destruct Hit as (prov & Hit). apply in_app_iff in Hit.
  destruct Hit as [Hit | Hit].
  - left. unfold items_for, contribs in Hit. apply in_map_iff in Hit.
    destruct Hit as ([k it] & E & Hit). cbn [snd] in E. subst it.
    apply filter_In in Hit. destruct Hit as [Hit Hk]. cbn [fst] in Hk.
    apply str_eqb_eq in Hk. subst k.
    apply in_flat_map in Hit. destruct Hit as (item & Hin & Hit).
    exists item, prov. split; [exact Hin|].
    destruct (bert_item item) as [c|]; [|destruct Hit].
    destruct Hit as [-> | []]. reflexivity.
  - right. pose proof (spacy_items_prov _ _ _ Hit) as Hp. cbn [snd] in Hp. subst prov.
    unfold items_for, contribs in Hit. apply in_map_iff in Hit.
    destruct Hit as ([k it] & E & Hit). cbn [snd] in E. subst it.
    apply filter_In in Hit. destruct Hit as [Hit Hk]. cbn [fst] in Hk.
    apply str_eqb_eq in Hk. subst k.
    apply in_flat_map in Hit. destruct Hit as (item & Hin & Hit).
    exists item. split; [exact Hin|].
    destruct (spacy_item item) as [c|]; [|destruct Hit].
    destruct Hit as [-> | []]. reflexivity.
Qed.

(** C10 (as amended) -- Short base names.  The deduplication never
    returns a precedent whose base name has fewer than ten characters,
    unique or not; and, the iteration of a set yielding its elements,
    every precedent in the fused output is the trimmed form
    (surrounding white space, then surrounding ".,;:", removed) of one
    of the precedent candidates collected from the two input lists
    (each a value that step 1 or step 2 filed under "precedent" for an
    item of the input, [precedent_candidates_origin]), and that
    candidate has a base name of ten characters or more. *)
Theorem short_base_precedents_discarded (set_order : list str -> list str) :
  (forall ps p, List.length (base_name p) < 10 ->
                ~ In p (_deduplicate_precedents set_order ps)) /\
  ((forall l, Permutation (set_order l) l) ->
   forall b s l v2,
     Dict.get (L "precedent") (merge_entities set_order b s) = Some l ->
     In v2 l ->
     exists v, In v (precedent_candidates b s) /\
               10 <= List.length (base_name v) /\
               v2 = Str.strip_chars (L ".,;:") (Str.strip v)).
Proof.
  split.
  - intros ps p Hlt Hin. apply dedup_base_long in Hin. lia.
  - intros Hperm b s l v2 Hg Hin.
    rewrite (get_precedent_fused _ _ _ _ Hg) in Hin.
    destruct (clean_loop_origin _ _ _ _ Hin) as (v & Hv & Hc).
    exists v. split; [|split].
    + exact (dedup_from_candidates _ _ _ Hperm Hv).
    + exact (dedup_base_long _ _ _ Hv).
    + exact (proj1 (clean_value_precedent _ _ Hc)).
Qed.

(** C10 at the unique precedent "A v. B (2023) 5 SCC 100", whose base
    name "A v. B" has six characters, and at a fused list of one
    precedent, which is the trimmed form of the only candidate. *)
Lemma short_base_precedents_discarded_witness :
  (List.length (base_name (L "A v. B (2023) 5 SCC 100")) < 10 /\
   ~ In (L "A v. B (2023) 5 SCC 100")
        (_deduplicate_precedents insertion_order [L "A v. B (2023) 5 SCC 100"])) /\
  (exists v,
     In v (precedent_candidates
             [(L "PRECEDENT", L "Ram Kumar v. State of UP (2020) 5 SCC 100. [body]")] []) /\
     10 <= List.length (base_name v) /\
     L "Ram Kumar v. State of UP (2020) 5 SCC 100"
       = Str.strip_chars (L ".,;:") (Str.strip v)).
Proof.
  split.
  - assert (H : List.length (base_name (L "A v. B (2023) 5 SCC 100")) < 10)
      by (vm_compute; lia).
    split; [exact H|].
    exact (proj1 (short_base_precedents_discarded insertion_order) _ _ H).
  - refine (proj2 (short_base_precedents_discarded insertion_order)
              (fun l => Permutation_refl l)
              [(L "PRECEDENT", L "Ram Kumar v. State of UP (2020) 5 SCC 100. [body]")] []
              [L "Ram Kumar v. State of UP (2020) 5 SCC 100"]
              (L "Ram Kumar v. State of UP (2020) 5 SCC 100") _ _).
    + vm_compute. reflexivity.
    + left. reflexivity.
Defined.

(** C10, as stated, fails on the fused output: the candidate below has
    the base name "......A v. B" of twelve characters and is kept, and
    the text that survives fusion, trimmed of the leading full stops,
    has the base name "A v. B" of six. *)
Lemma surviving_precedent_short_base :
  Dict.get (L "precedent")
    (merge_entities insertion_order
       [(L "PRECEDENT", L "......A v. B (2020) 5 SCC 100")] [])
  = Some [L "A v. B (2020) 5 SCC 100"] /\
  base_name (L "A v. B (2020) 5 SCC 100") = L "A v. B" /\
  List.length (base_name (L "A v. B (2020) 5 SCC 100")) < 10.
Proof. vm_compute. repeat split; lia. Qed.

(** C7 -- Fusion idempotence.  Supplying every candidate twice (both
    input lists doubled) changes nothing: [merge_entities] returns the
    same dictionary, key for key and in the same order, whatever the
    iteration order of sets in the run. *)
Theorem merge_entities_idempotent (set_order : list str -> list str)
  (bert_ents_list spacy_regex_ents : list (str * str)) :
  merge_entities set_order (bert_ents_list ++ bert_ents_list)
                 (spacy_regex_ents ++ spacy_regex_ents)
  = merge_entities set_order bert_ents_list spacy_regex_ents.
Proof.
  rewrite !merge_entities_unfold, fused_table_doubled. reflexivity.
Qed.

End FusionFacts.

(** ** difflib: a sequence matches itself entirely *)

Module DifflibFacts.
Import Difflib.

Lemma row_in_range (b0 : str) (ai : ascii) (n : nat) (bs : str) : forall j prev,
  j + List.length bs <= n ->
  row b0 ai 0 n bs j prev = row_all b0 ai bs prev.
Proof.
  induction bs as [|bj bs IH]; intros j prev H; simpl; [reflexivity|].
  simpl in H. rewrite IH by lia.
  replace (j <? n) with true by (symmetry; apply Nat.ltb_lt; lia).
  reflexivity.
Qed.

Lemma row_all_length (b0 : str) (ai : ascii) (bs : str) : forall prev,
  List.length (row_all b0 ai bs prev) = List.length bs.
Proof. induction bs as [|bj bs IH]; intros prev; simpl; [reflexivity | rewrite IH; reflexivity]. Qed.

Lemma runs_length (b0 : str) (bs : str) : forall d,
  List.length (runs b0 bs d) = List.length bs.
Proof. induction bs as [|c bs IH]; intros d; simpl; [reflexivity | rewrite IH; reflexivity]. Qed.

Lemma in_b2j_np (b0 : str) (ai bj : ascii) :
  in_b2j b0 ai bj = true -> ai = bj /\ negb (popular b0 ai) = true.
Proof.
  unfold in_b2j. rewrite Bool.andb_true_iff. intros [E H].
  apply Ascii.eqb_eq in E. subst. split; [reflexivity | exact H].
Qed.

Lemma in_b2j_refl (b0 : str) (c : ascii) :
  in_b2j b0 c c = negb (popular b0 c).
Proof. unfold in_b2j, Chr.eqb. rewrite Ascii.eqb_refl. reflexivity. Qed.

(** Column bound: a row stays below the runs. *)
Lemma row_all_le_runs (b0 : str) (ai : ascii) (bs : str) : forall prevrow p0 dprev,
  p0 <= dprev ->
  Forall2 le prevrow (runs b0 bs dprev) ->
  Forall2 le (row_all b0 ai bs (p0 :: prevrow)) (runs b0 bs dprev).
Proof.
  induction bs as [|c bs IH]; intros prevrow p0 dprev Hp H; simpl in *.
  - constructor.
  - inversion H as [|q d prevrow' dl Hq Hrest]; subst. simpl.
    constructor.
    + destruct (in_b2j b0 ai c) eqn:E; [|lia].
      apply in_b2j_np in E. destruct E as [-> E]. rewrite E. lia.
    + apply IH; assumption.
Qed.

(** Row bound: a row stays below the run that ends at its own index. *)
Lemma row_all_bound (b0 : str) (ai : ascii) (dp : nat) (bs : str) : forall prev,
  Forall (fun v => v <= dp) prev ->
  Forall (fun v => v <= if negb (popular b0 ai) then S dp else 0)
         (row_all b0 ai bs prev).
Proof.
  induction bs as [|c bs IH]; intros prev H; simpl; constructor.
  - destruct (in_b2j b0 ai c) eqn:E; [|lia].
    apply in_b2j_np in E. destruct E as [_ E]. rewrite E.
    destruct prev as [|p prev]; simpl; [lia|].
    inversion H; subst. lia.
  - apply IH. destruct prev as [|p prev]; simpl; [constructor|].
    inversion H; assumption.
Qed.

Lemma nth_row_all (b0 : str) (ai : ascii) (bs : str) : forall prev j,
  j < List.length bs ->
  nth j (row_all b0 ai bs prev) 0 =
  if in_b2j b0 ai (nth j bs Chr.SP) then S (nth j prev 0) else 0.
Proof.
  induction bs as [|c bs IH]; intros prev j H; simpl in H; [lia|].
  destruct j as [|j]; simpl.
  - destruct prev; reflexivity.
  - rewrite IH by lia. destruct prev as [|p prev]; simpl; [|reflexivity].
    destruct j; reflexivity.
Qed.

Lemma nth_runs (b0 : str) (bs : str) : forall d0 j,
  j < List.length bs ->
  nth j (runs b0 bs d0) 0 =
  if negb (popular b0 (nth j bs Chr.SP))
  then S (match j with 0 => d0 | S j' => nth j' (runs b0 bs d0) 0 end)
  else 0.
Proof.
  induction bs as [|c bs IH]; intros d0 j H; simpl in H; [lia|].
  destruct j as [|j]; simpl; [reflexivity|].
  rewrite IH by lia. destruct j as [|j]; simpl; reflexivity.
Qed.

Lemma best_in_row_app (i : nat) (r1 : list nat) : forall r2 j best,
  best_in_row i (r1 ++ r2) j best =
  best_in_row i r2 (j + List.length r1) (best_in_row i r1 j best).
Proof.
  induction r1 as [|k r1 IH]; intros r2 j best; simpl.
  - rewrite Nat.add_0_r. reflexivity.
  - destruct best as [[bi bj] bk]. rewrite IH.
    replace (S j + List.length r1) with (j + S (List.length r1)) by lia.
    reflexivity.
Qed.

Lemma best_in_row_keep (i : nat) (r : list nat) : forall j bi bj bk,
  Forall (fun v => v <= bk) r ->
  best_in_row i r j (bi, bj, bk) = (bi, bj, bk).
Proof.
  induction r as [|k r IH]; intros j bi bj bk H; simpl; [reflexivity|].
  inversion H; subst.
  replace (bk <? k) with false by (symmetry; apply Nat.ltb_ge; lia).
  apply IH. assumption.
Qed.

Lemma split_nth (A : Type) (l : list A) : forall i d,
  i < List.length l -> l = firstn i l ++ nth i l d :: skipn (S i) l.
Proof.
  induction l as [|a l IH]; intros i d H; simpl in H; [lia|].
  destruct i as [|i]; simpl; [reflexivity|].
  f_equal. apply IH. lia.
Qed.

Lemma Forall_skipn (A : Type) (P : A -> Prop) (l : list A) : forall n,
  Forall P l -> Forall P (skipn n l).
Proof.
  induction l as [|a l IH]; intros [|n] H; simpl; auto.
  inversion H; auto.
Qed.

Lemma Forall2_le_firstn (r dl : list nat) : forall i bk,
  Forall2 le r dl -> Forall (fun d => d <= bk) (firstn i dl) ->
  Forall (fun v => v <= bk) (firstn i r).
Proof.
  intros i bk H. revert i. induction H as [|x y r dl Hxy H IH]; intros [|i] Hd;
    simpl in *; constructor.
  - inversion Hd; subst. lia.
  - apply IH. inversion Hd; assumption.
Qed.

Lemma firstn_S_nth (l : list nat) : forall i,
  i < List.length l -> firstn (S i) l = firstn i l ++ [nth i l 0].
Proof.
  induction l as [|a l IH]; intros i H; simpl in H; [lia|].
  destruct i as [|i]; simpl; [reflexivity|].
  f_equal. apply IH. lia.
Qed.

Lemma skipn_cons_nth (b : str) : forall i ai rest,
  skipn i b = ai :: rest ->
  nth i b Chr.SP = ai /\ skipn (S i) b = rest /\ i < List.length b.
Proof.
  induction b as [|c b IH]; intros i ai rest H.
  - destruct i; discriminate.
  - destruct i as [|i]; simpl in *.
    + injection H as <- <-. repeat split. lia.
    + destruct (IH _ _ _ H) as (H1 & H2 & H3). repeat split; [exact H1 | exact H2 | lia].
Qed.

(** Matching a sequence against itself, the dynamic programme only
    ever improves on the diagonal. *)
Lemma rows_diagonal (b : str) (a' : str) : forall i r bi bk,
  skipn i b = a' ->
  i <= List.length b ->
  List.length r = List.length b ->
  Forall2 le r (runs b b 0) ->
  Forall (fun v => v <= run_before b i) r ->
  match i with 0 => True | S i' => nth i' r 0 = nth i' (runs b b 0) 0 end ->
  Forall (fun d => d <= bk) (firstn i (runs b b 0)) ->
  run_before b i <= i ->
  bi + bk <= i ->
  exists d k,
    rows b 0 (List.length b) a' i (List.length b) r (bi, bi, bk) = (d, d, k) /\
    d + k <= List.length b.
Proof.
  induction a' as [|ai a' IH];
    intros i r bi bk Hs Hi Hlen Hcol Hrow Hdiag Hbest Hrun Hb.
  - simpl. exists bi, bk. split; [reflexivity | lia].
  - destruct (skipn_cons_nth _ _ _ _ Hs) as (Hai & Hs' & Hlt).
    simpl. replace (List.length b <=? i) with false
      by (symmetry; apply Nat.leb_gt; exact Hlt).
    rewrite row_in_range by (simpl; lia).
    set (rnew := row_all b ai b (0 :: r)).
    set (D := if negb (popular b ai) then S (run_before b i) else 0).
    assert (Hn : List.length rnew = List.length b) by apply row_all_length.
    assert (HD : nth i (runs b b 0) 0 = D).
    { rewrite nth_runs by exact Hlt. rewrite Hai. reflexivity. }
    assert (N1 : Forall2 le rnew (runs b b 0)).
    { apply row_all_le_runs; [lia | exact Hcol]. }
    assert (N2 : Forall (fun v => v <= D) rnew).
    { apply row_all_bound. constructor; [lia | exact Hrow]. }
    assert (N3 : nth i rnew 0 = D).
    { unfold rnew. rewrite nth_row_all by exact Hlt.
      rewrite Hai, in_b2j_refl. unfold D.
      destruct (negb (popular b ai)); [|reflexivity].
      f_equal. unfold run_before. destruct i as [|i']; simpl; [reflexivity|].
      exact Hdiag. }
    assert (HDi : D <= S i).
    { unfold D. destruct (negb (popular b ai)); lia. }
    assert (Hsplit : rnew = firstn i rnew ++ D :: skipn (S i) rnew).
    { rewrite <- N3. apply split_nth. lia. }
    assert (Hfl : List.length (firstn i rnew) = i).
    { rewrite length_firstn. lia. }
    assert (Hbr : best_in_row i rnew 0 (bi, bi, bk) =
                  if bk <? D then (i + 1 - D, i + 1 - D, D) else (bi, bi, bk)).
    { rewrite Hsplit at 1. rewrite best_in_row_app.
      rewrite best_in_row_keep by (apply (Forall2_le_firstn _ _ _ _ N1 Hbest)).
      rewrite Hfl. change (0 + i) with i. cbn [best_in_row].
      destruct (bk <? D) eqn:E.
      - apply best_in_row_keep. apply Forall_skipn. exact N2.
      - apply best_in_row_keep. apply Forall_skipn.
        apply Nat.ltb_ge in E.
        eapply Forall_impl; [|exact N2]. simpl. intros; lia. }
    rewrite Hbr.
    assert (Hfirst : firstn (S i) (runs b b 0) = firstn i (runs b b 0) ++ [D]).
    { rewrite <- HD. apply firstn_S_nth. rewrite runs_length. exact Hlt. }
    assert (Hrb : run_before b (S i) = D) by exact HD.
    assert (G1 : Forall (fun v => v <= run_before b (S i)) rnew)
      by (rewrite Hrb; exact N2).
    assert (G2 : nth i rnew 0 = nth i (runs b b 0) 0)
      by (rewrite N3, HD; reflexivity).
    assert (G3 : run_before b (S i) <= S i) by (rewrite Hrb; exact HDi).
    destruct (bk <? D) eqn:E.
    + apply Nat.ltb_lt in E.
      apply (IH (S i) rnew (i + 1 - D) D Hs' Hlt Hn N1 G1 G2); [|exact G3|lia].
      rewrite Hfirst. apply Forall_app. split.
      * eapply Forall_impl; [|exact Hbest]. cbv beta. intros; lia.
      * constructor; [lia | constructor].
    + apply Nat.ltb_ge in E.
      apply (IH (S i) rnew bi bk Hs' Hlt Hn N1 G1 G2); [|exact G3|lia].
      rewrite Hfirst. apply Forall_app. split; [exact Hbest|].
      constructor; [lia | constructor].
Qed.

Lemma Forall2_le_zeros (dl : list nat) :
  Forall2 le (repeat 0 (List.length dl)) dl.
Proof. induction dl; simpl; constructor; [lia | assumption]. Qed.

Lemma Forall_zeros (n : nat) : Forall (fun v => v <= 0) (repeat 0 n).
Proof. induction n; simpl; constructor; [lia | assumption]. Qed.

Lemma extend_left_diagonal (b : str) : forall fuel d k,
  d <= fuel -> extend_left fuel b b 0 0 (d, d, k) = (0, 0, d + k).
Proof.
  induction fuel as [|fuel IH]; intros d k H; simpl.
  - replace d with 0 by lia. reflexivity.
  - destruct d as [|d]; simpl; [reflexivity|].
    unfold Chr.eqb. rewrite Ascii.eqb_refl. simpl.
    rewrite Nat.sub_0_r, IH by lia. f_equal. lia.
Qed.

Lemma extend_right_diagonal (b : str) : forall fuel k,
  k <= List.length b -> List.length b - k <= fuel ->
  extend_right fuel b b (List.length b) (List.length b) (0, 0, k)
  = (0, 0, List.length b).
Proof.
  induction fuel as [|fuel IH]; intros k H1 H2; simpl.
  - replace k with (List.length b) by lia. reflexivity.
  - destruct (k <? List.length b) eqn:E; simpl.
    + unfold Chr.eqb. rewrite Ascii.eqb_refl. simpl.
      apply Nat.ltb_lt in E. apply IH; lia.
    + apply Nat.ltb_ge in E. replace k with (List.length b) by lia. reflexivity.
Qed.

Lemma find_longest_match_self (b : str) :
  find_longest_match b b 0 (List.length b) 0 (List.length b)
  = (0, 0, List.length b).
Proof.
  unfold find_longest_match.
  destruct (rows_diagonal b (skipn 0 b) 0 (repeat 0 (List.length b)) 0 0)
    as (d & k & Hr & Hdk); simpl; auto; try lia.
  - apply repeat_length.
  - rewrite <- (runs_length b b 0) at 1. apply Forall2_le_zeros.
  - apply Forall_zeros.
  - simpl in Hr. rewrite Hr.
    rewrite extend_left_diagonal by lia.
    apply extend_right_diagonal; lia.
Qed.

Lemma matches_self (b : str) : matches b b = List.length b.
Proof.
  unfold matches. cbn [matched]. rewrite find_longest_match_self.
  destruct (List.length b) as [|n] eqn:E; [reflexivity|].
  cbn [Nat.eqb]. cbv iota.
  replace (0 <? 0) with false by reflexivity. cbn [andb].
  replace (0 + S n <? S n) with false by (symmetry; apply Nat.ltb_irrefl).
  cbn [andb]. lia.
Qed.

(** The ratio of a sequence to itself is above the threshold. *)
Lemma ratio_self (b : str) : ratio_above_085 b b = true.
Proof.
  unfold ratio_above_085. rewrite matches_self.
  destruct (List.length b + List.length b =? 0) eqn:E; [reflexivity|].
  apply Nat.eqb_neq in E. apply Nat.ltb_lt. lia.
Qed.

End DifflibFacts.

(** ** postprocessing.py: the fuzzy deduplication of precedents *)

Module DedupFacts.
Import StrFacts Postprocessing DistinctFacts PrecedentFacts DifflibFacts.

Lemma similar_same_base (c r : str) :
  base_name c = base_name r -> similar c r = true.
Proof.
  intros H. unfold similar, lbase. rewrite H. apply ratio_self.
Qed.

Lemma distinct_two (x y : str) : x <> y -> distinct [] [x; y] = [x; y].
Proof.
  intros H. cbn [distinct existsb].
  replace (Str.eqb y x) with false; [reflexivity|].
  symmetry. apply StrFacts.str_eqb_neq. intros E. apply H. symmetry. exact E.
Qed.

Lemma sorted_two (x y : str) (l : list str) :
  List.length x < List.length y ->
  Permutation l [x; y] -> sorted_by_len_desc l = [y; x].
Proof.
  intros Hlen Hp. apply Permutation_sym in Hp.
  apply Permutation_length_2_inv in Hp.
  destruct Hp as [-> | ->]; cbn [sorted_by_len_desc fold_right insert_by_len].
  - replace (List.length x <? List.length y) with true
      by (symmetry; apply Nat.ltb_lt; exact Hlen).
    reflexivity.
  - replace (List.length y <? List.length x) with false
      by (symmetry; apply Nat.ltb_ge; lia).
    reflexivity.
Qed.

Section Dedup.
Variable set_order : list str -> list str.
Hypothesis set_order_perm : forall l, Permutation (set_order l) l.

Lemma In_sorted (precedents : list str) (c : str) :
  In c precedents ->
  In c (sorted_by_len_desc (set_order (distinct [] precedents))).
Proof.
  intros H.
  apply (Permutation_in _ (Permutation_sym (sorted_by_len_desc_perm _))).
  apply (Permutation_in _ (Permutation_sym (set_order_perm _))).
  apply distinct_In. split; [exact H | intros []].
Qed.

Lemma sorted_In (precedents : list str) (c : str) :
  In c (sorted_by_len_desc (set_order (distinct [] precedents))) ->
  In c precedents.
Proof.
  intros H.
  apply (Permutation_in _ (sorted_by_len_desc_perm _)) in H.
  apply (Permutation_in _ (set_order_perm _)) in H.
  apply distinct_In in H. exact (proj1 H).
Qed.

(** C5 (as amended) -- Fuzzy deduplication of precedents.  The result
    is the first fifteen entries of a list [unique] of candidates, each
    with a base name of ten characters or more, in which no entry is a
    near-duplicate (similarity of the lowered base names above 0.85) of
    an earlier one; every candidate with such a base name is in
    [unique] or has a near-duplicate there that is at least as long.
    In particular two candidates [x] and [x + " (2023) 5 SCC 100"] that
    share a base name of ten characters or more collapse to the longer
    one.  (Candidates with a shorter base name are dropped, so the
    pair can also collapse to nothing.) *)
Theorem precedent_fuzzy_dedup :
  (forall precedents, exists unique,
     _deduplicate_precedents set_order precedents = firstn 15 unique /\
     List.length (_deduplicate_precedents set_order precedents) <= 15 /\
     ForallOrdPairs (fun p q => similar q p = false) unique /\
     (forall p, In p unique ->
        In p precedents /\ 10 <= List.length (base_name p)) /\
     (forall c, In c precedents -> 10 <= List.length (base_name c) ->
        In c unique \/
        exists r, In r unique /\ List.length c <= List.length r /\
                  similar c r = true)) /\
  (forall x : str,
     base_name (x ++ L " (2023) 5 SCC 100") = base_name x ->
     10 <= List.length (base_name x) ->
     _deduplicate_precedents set_order [x; x ++ L " (2023) 5 SCC 100"]
     = [x ++ L " (2023) 5 SCC 100"]).
Proof.
  split.
  - intros precedents. destruct precedents as [|p0 ps].
    + exists []. cbn. repeat split; try constructor; try lia; intros ? [].
    + set (precedents := p0 :: ps).
      set (cands := sorted_by_len_desc (set_order (distinct [] precedents))).
      exists (dedup_loop cands [] []).
      assert (Hout : _deduplicate_precedents set_order precedents
                     = firstn 15 (dedup_loop cands [] [])) by reflexivity.
      destruct (dedup_loop_kept cands [] [] eq_refl (FOP_nil _))
        as (added & H1 & H2 & H3).
      split; [exact Hout|]. split; [rewrite Hout; apply firstn_le_length|].
      split; [rewrite H1; exact H3|]. split.
      * intros p Hp. rewrite H1 in Hp. cbn [app] in Hp.
        destruct (H2 p Hp) as [Hin Hb]. split; [|exact Hb].
        apply sorted_In. exact Hin.
      * intros c Hc Hb.
        apply dedup_loop_represented; try assumption.
        -- reflexivity.
        -- apply sorted_by_len_desc_sorted.
        -- intros u c0 [].
        -- apply In_sorted. exact Hc.
  - intros x Hbase Hlen.
    set (y := (x ++ L " (2023) 5 SCC 100") : str) in *.
    assert (Hxy : List.length x < List.length y).
    { unfold y. rewrite length_app. cbn. lia. }
    assert (Hne : x <> y).
    { intros E. rewrite <- E in Hxy. lia. }
    assert (E1 : sorted_by_len_desc (set_order (distinct [] [x; y])) = [y; x]).
    { rewrite (distinct_two x y Hne). apply (sorted_two x y _ Hxy (set_order_perm _)). }
    change (firstn 15 (dedup_loop (sorted_by_len_desc (set_order (distinct [] [x; y])))
                                  [] []) = [y]).
    rewrite E1. cbn [dedup_loop].
    rewrite Hbase.
    replace (List.length (base_name x) <? 10) with false
      by (symmetry; apply Nat.ltb_ge; exact Hlen).
    cbn [existsb app]. rewrite ratio_self. reflexivity.
Qed.

End Dedup.

Lemma insertion_order_perm (l : list str) : Permutation (insertion_order l) l.
Proof. apply Permutation_refl. Qed.

(** C5 at "Kesavananda Bharati v. State of Kerala" with and without
    the citation suffix. *)
Lemma precedent_fuzzy_dedup_witness :
  base_name (L "Kesavananda Bharati v. State of Kerala" ++ L " (2023) 5 SCC 100")
    = base_name (L "Kesavananda Bharati v. State of Kerala") /\
  10 <= List.length (base_name (L "Kesavananda Bharati v. State of Kerala")) /\
  _deduplicate_precedents insertion_order
    [L "Kesavananda Bharati v. State of Kerala";
     L "Kesavananda Bharati v. State of Kerala" ++ L " (2023) 5 SCC 100"]
  = [L "Kesavananda Bharati v. State of Kerala" ++ L " (2023) 5 SCC 100"].
Proof.
  assert (H1 : base_name (L "Kesavananda Bharati v. State of Kerala"
                          ++ L " (2023) 5 SCC 100")
               = base_name (L "Kesavananda Bharati v. State of Kerala"))
    by (vm_compute; reflexivity).
  assert (H2 : 10 <= List.length (base_name (L "Kesavananda Bharati v. State of Kerala")))
    by (vm_compute; lia).
  split; [exact H1|]. split; [exact H2|].
  exact (proj2 (precedent_fuzzy_dedup insertion_order insertion_order_perm) _ H1 H2).
Defined.

(** C5, as stated, fails when the base name is short: "A v. B" with and
    without the suffix collapse to no entry at all. *)
Lemma precedent_pair_lost :
  _deduplicate_precedents insertion_order
    [L "A v. B"; L "A v. B" ++ L " (2023) 5 SCC 100"] = [].
Proof. vm_compute. reflexivity. Qed.

End DedupFacts.

(** ** selectors.py: the primary date *)

Module DateFacts.
Import StrFacts Selectors.

Lemma date_leb_spec (a b : date) :
  date_leb a b = true <->
  year a < year b \/
  (year a = year b /\ (month a < month b \/ (month a = month b /\ day a <= day b))).
Proof.
  unfold date_leb.
  rewrite !Bool.orb_true_iff, !Bool.andb_true_iff, !Bool.orb_true_iff,
          !Bool.andb_true_iff, !Nat.ltb_lt, !Nat.eqb_eq, Nat.leb_le.
  tauto.
Qed.

Lemma date_leb_refl (a : date) : date_leb a a = true.
Proof. apply date_leb_spec. lia. Qed.

Lemma date_leb_trans (a b c : date) :
  date_leb a b = true -> date_leb b c = true -> date_leb a c = true.
Proof. rewrite !date_leb_spec. lia. Qed.

Lemma date_leb_total (a b : date) :
  date_leb a b = false -> date_leb b a = true.
Proof.
  intros H. apply date_leb_spec.
  destruct (Nat.lt_trichotomy (year a) (year b)) as [Hy | [Hy | Hy]].
  - assert (X : date_leb a b = true) by (apply date_leb_spec; lia). congruence.
  - destruct (Nat.lt_trichotomy (month a) (month b)) as [Hm | [Hm | Hm]].
    + assert (X : date_leb a b = true) by (apply date_leb_spec; lia). congruence.
    + destruct (Nat.le_gt_cases (day a) (day b)) as [Hd | Hd].
      * assert (X : date_leb a b = true) by (apply date_leb_spec; lia). congruence.
      * lia.
    + lia.
  - lia.
Qed.

Lemma latest_in (l : list (str * date)) : forall best,
  In (latest best l) (best :: l).
Proof.
  induction l as [|x l IH]; intros best; simpl; [left; reflexivity|].
  destruct (IH (if date_leb (snd x) (snd best) then best else x)) as [H | H].
  - destruct (date_leb (snd x) (snd best)); [left | right; left]; exact H.
  - right. right. exact H.
Qed.

Lemma latest_ge_best (l : list (str * date)) : forall best,
  date_leb (snd best) (snd (latest best l)) = true.
Proof.
  induction l as [|x l IH]; intros best; simpl; [apply date_leb_refl|].
  destruct (date_leb (snd x) (snd best)) eqn:E; [apply IH|].
  apply (date_leb_trans _ (snd x)); [|apply IH].
  apply date_leb_total. exact E.
Qed.

Lemma latest_max (l : list (str * date)) : forall best x,
  In x (best :: l) -> date_leb (snd x) (snd (latest best l)) = true.
Proof.
  induction l as [|y l IH]; intros best x Hx.
  - destruct Hx as [<- | []]. apply date_leb_refl.
  - simpl. destruct Hx as [-> | [-> | Hx]].
    + destruct (date_leb (snd y) (snd x)) eqn:E; [apply latest_ge_best|].
      apply (date_leb_trans _ (snd y)); [|apply latest_ge_best].
      apply date_leb_total. exact E.
    + destruct (date_leb (snd x) (snd best)) eqn:E.
      * apply (date_leb_trans _ (snd best)); [exact E | apply latest_ge_best].
      * apply latest_ge_best.
    + apply IH. right. exact Hx.
Qed.

Lemma valid_dates_In (now : date) (cands : list str) (s : str) (dt : date) :
  In (s, dt) (valid_dates now cands) <->
  In s cands /\ _try_parse_date s = Some dt /\ date_leb dt now = true.
Proof.
  induction cands as [|d rest IH]; cbn [valid_dates In]; [tauto|].
  destruct (_try_parse_date d) as [dt0|] eqn:P.
  - destruct (date_leb dt0 now) eqn:E.
    + cbn [In]. rewrite IH. split.
      * intros [H | H]; [injection H as <- <-; auto | tauto].
      * intros [[<- | H] [H1 H2]]; [left; congruence | right; tauto].
    + rewrite IH. split; [tauto|].
      intros [[<- | H] [H1 H2]]; [congruence | tauto].
  - rewrite IH. split; [tauto|].
    intros [[<- | H] [H1 H2]]; [congruence | tauto].
Qed.

Lemma find_first (f : str -> bool) (l1 : list str) (d : str) (l2 : list str) :
  f d = true -> (forall x, In x l1 -> f x = false) ->
  find f (l1 ++ d :: l2) = Some d.
Proof.
  intros Hd. induction l1 as [|x l1 IH]; intros H; simpl.
  - rewrite Hd. reflexivity.
  - rewrite (H x) by (left; reflexivity). apply IH.
    intros y Hy. apply H. right. exact Hy.
Qed.

Lemma find_none (f : str -> bool) (l : list str) :
  (forall x, In x l -> f x = false) -> find f l = None.
Proof.
  induction l as [|x l IH]; intros H; simpl; [reflexivity|].
  rewrite (H x) by (left; reflexivity). apply IH.
  intros y Hy. apply H. right. exact Hy.
Qed.

(** Without a usable header text the selection is the latest valid
    date, or the first candidate. *)
Lemma select_without_header (now : date) (dates : list str) (header_text : option str) :
  (header_text = None \/ header_text = Some [] \/
   exists h, header_text = Some h /\
             forall x, In x (date_candidates dates []) ->
                       Str.contains (Str.lower x) (Str.lower h) = false) ->
  select_primary_date now dates header_text =
  match valid_dates now (date_candidates dates []) with
  | v :: vs => Some (fst (latest v vs))
  | [] => hd_error (date_candidates dates [])
  end.
Proof.
  intros H. unfold select_primary_date.
  destruct dates as [|d0 ds]; [reflexivity|].
  set (cands := date_candidates (d0 :: ds) []) in *.
  destruct H as [-> | [-> | (h & -> & Hh)]]; try reflexivity.
  destruct (Str.truthy h); [|reflexivity].
  rewrite (find_none _ _ Hh). reflexivity.
Qed.

Lemma parse_12_march : _try_parse_date (L "12 March 2023") = Some (Date 2023 3 12).
Proof. vm_compute. reflexivity. Qed.

Lemma parse_2099 : _try_parse_date (L "01-01-2099") = Some (Date 2099 1 1).
Proof. vm_compute. reflexivity. Qed.

Lemma candidates_example :
  date_candidates [L "12 March 2023"; L "01-01-2099"] []
  = [L "12 March 2023"; L "01-01-2099"].
Proof. vm_compute. reflexivity. Qed.

(** C4 (as amended) -- The primary date.  With [candidates] the
    trimmed, non-blank, case-insensitively distinct input strings: if a
    non-empty header text is supplied and holds a candidate
    (case-insensitively), the first such candidate is returned;
    otherwise, if some candidate parses to a date not after the
    processing date, the result is a candidate whose parsed date is the
    latest among those; and if none does -- none parses, or all parse
    to later dates -- the result is the first candidate, or nothing
    when every string is blank.  In particular, with "now" before 2099,
    ["12 March 2023", "01-01-2099"] gives "12 March 2023". *)
Theorem select_primary_date_spec (now : date) (dates : list str)
  (header_text : option str) :
  (forall h l1 d l2,
     header_text = Some h -> h <> [] ->
     date_candidates dates [] = l1 ++ d :: l2 ->
     Str.contains (Str.lower d) (Str.lower h) = true ->
     (forall x, In x l1 -> Str.contains (Str.lower x) (Str.lower h) = false) ->
     select_primary_date now dates header_text = Some d)
  /\
  ((header_text = None \/ header_text = Some [] \/
    exists h, header_text = Some h /\
              forall x, In x (date_candidates dates []) ->
                        Str.contains (Str.lower x) (Str.lower h) = false) ->
   (forall s dt,
      In s (date_candidates dates []) -> _try_parse_date s = Some dt ->
      date_leb dt now = true ->
      exists s0 dt0,
        select_primary_date now dates header_text = Some s0 /\
        In s0 (date_candidates dates []) /\
        _try_parse_date s0 = Some dt0 /\ date_leb dt0 now = true /\
        forall s' dt',
          In s' (date_candidates dates []) -> _try_parse_date s' = Some dt' ->
          date_leb dt' now = true -> date_leb dt' dt0 = true)
   /\
   ((forall s dt,
       In s (date_candidates dates []) -> _try_parse_date s = Some dt ->
       date_leb dt now = false) ->
    select_primary_date now dates header_text = hd_error (date_candidates dates [])))
  /\
  (date_leb (Date 2099 1 1) now = false ->
   select_primary_date now [L "12 March 2023"; L "01-01-2099"] None
   = Some (L "12 March 2023")).
Proof.
  split; [|split].
  - intros h l1 d l2 -> Hne Hc Hd Hl1. unfold select_primary_date.
    destruct dates as [|d0 ds]; [destruct l1; discriminate Hc|].
    rewrite Hc.
    replace (Str.truthy h) with true
      by (symmetry; apply truthy_nonempty; exact Hne).
    rewrite (find_first (fun x => Str.contains (Str.lower x) (Str.lower h))
               l1 d l2 Hd Hl1).
    reflexivity.
  - intros Hh. rewrite (select_without_header now dates header_text Hh).
    split.
    + intros s dt Hs Hp Hle.
      assert (Hin : In (s, dt) (valid_dates now (date_candidates dates [])))
        by (apply valid_dates_In; auto).
      destruct (valid_dates now (date_candidates dates [])) as [|v vs] eqn:Ev;
        [destruct Hin|].
      pose proof (latest_in vs v) as Hl. rewrite <- Ev in Hl.
      destruct (latest v vs) as [s0 dt0] eqn:El.
      apply valid_dates_In in Hl. destruct Hl as (H1 & H2 & H3).
      exists s0, dt0. repeat split; try assumption.
      intros s' dt' Hs' Hp' Hle'.
      assert (Hin' : In (s', dt') (v :: vs)).
      { rewrite <- Ev. apply valid_dates_In. auto. }
      pose proof (latest_max vs v (s', dt') Hin') as Hm.
      rewrite El in Hm. exact Hm.
    + intros Hnone.
      destruct (valid_dates now (date_candidates dates [])) as [|[s dt] vs] eqn:Ev;
        [reflexivity|].
      assert (Hin : In (s, dt) (valid_dates now (date_candidates dates [])))
        by (rewrite Ev; left; reflexivity).
      apply valid_dates_In in Hin. destruct Hin as (H1 & H2 & H3).
      rewrite (Hnone s dt H1 H2) in H3. discriminate H3.
  - intros Hnow.
    rewrite (select_without_header now _ None) by (left; reflexivity).
    rewrite candidates_example. cbn [valid_dates].
    rewrite parse_12_march, parse_2099, Hnow.
    destruct (date_leb (Date 2023 3 12) now); reflexivity.
Qed.

(** C4 on the third of November 2026. *)
Lemma select_primary_date_spec_witness :
  date_leb (Date 2099 1 1) (Date 2026 11 3) = false /\
  select_primary_date (Date 2026 11 3) [L "12 March 2023"; L "01-01-2099"] None
  = Some (L "12 March 2023").
Proof.
  assert (H : date_leb (Date 2099 1 1) (Date 2026 11 3) = false)
    by (vm_compute; reflexivity).
  split; [exact H|].
  exact (proj2 (proj2 (select_primary_date_spec (Date 2026 11 3) [] None)) H).
Defined.

(** C4, as stated, fails when every candidate lies in the future: the
    first candidate is returned although it parses to a date after the
    processing date. *)
Lemma future_date_returned :
  _try_parse_date (L "01-01-2099") = Some (Date 2099 1 1) /\
  date_leb (Date 2099 1 1) (Date 2026 11 3) = false /\
  select_primary_date (Date 2026 11 3) [L "01-01-2099"] None
  = Some (L "01-01-2099").
Proof. vm_compute. repeat split. Qed.

End DateFacts.

(** ** party_extractor.py: the caps *)

Module PartyFacts.
Import PartyExtractor.

Lemma keep_name_length (part : str) :
  keep_name part = true -> 3 <= List.length part.
Proof.
  unfold keep_name. rewrite !Bool.andb_true_iff, Nat.leb_le. tauto.
Qed.

Lemma unique_names_In (names : list str) : forall seen n,
  In n (unique_names seen names) -> In n names.
Proof.
  induction names as [|x names IH]; intros seen n H; simpl in H; [contradiction|].
  destruct (existsb (Str.eqb (Str.lower x)) seen).
  - right. exact (IH _ _ H).
  - destruct H as [-> | H]; [left; reflexivity | right; exact (IH _ _ H)].
Qed.

Lemma names_long (block : str) :
  Forall (fun n => 3 <= List.length n) (_extract_names_from_block block).
Proof.
  unfold _extract_names_from_block. destruct (Str.is_empty block); [constructor|].
  apply Forall_forall. intros n H. apply unique_names_In in H.
  apply filter_In in H. apply keep_name_length. tauto.
Qed.

Lemma names_of_long (s : str) (m : option Re.rmatch) (default : list str) :
  Forall (fun n => 3 <= List.length n) default ->
  Forall (fun n => 3 <= List.length n) (names_of s m default).
Proof. intros H. destruct m; [apply names_long | exact H]. Qed.

Lemma firstn_long (k : nat) (l : list str) :
  Forall (fun n => 3 <= List.length n) l ->
  Forall (fun n => 3 <= List.length n) (firstn k l).
Proof.
  rewrite !Forall_forall. intros H n Hn. apply H.
  apply (PrecedentFacts.In_firstn _ _ _ _ Hn).
Qed.

Lemma labelled_long (header_text : str) (appellants respondents : list str) :
  Forall (fun n => 3 <= List.length n) appellants ->
  Forall (fun n => 3 <= List.length n) respondents ->
  Forall (fun n => 3 <= List.length n) (fst (labelled header_text appellants respondents))
  /\ Forall (fun n => 3 <= List.length n)
       (snd (labelled header_text appellants respondents)).
Proof.
  intros Ha Hr. unfold labelled. cbv zeta. cbn [fst snd].
  split; apply firstn_long.
  - destruct (is_nil _); repeat apply names_of_long; exact Ha.
  - destruct (is_nil _); repeat apply names_of_long; exact Hr.
Qed.

Lemma inline_long (header_text : str) (appellants respondents : list str) :
  Forall (fun n => 3 <= List.length n) appellants ->
  Forall (fun n => 3 <= List.length n) respondents ->
  Forall (fun n => 3 <= List.length n) (fst (inline header_text appellants respondents))
  /\ Forall (fun n => 3 <= List.length n)
       (snd (inline header_text appellants respondents)).
Proof.
  intros Ha Hr. unfold inline.
  destruct (Re.search Re.I inline_versus header_text) as [m|];
    [|apply labelled_long; assumption].
  destruct (is_nil appellants); [|apply labelled_long; assumption].
  cbv zeta.
  match goal with
  | |- context [if ?c then _ else _] => destruct c eqn:E
  end; [|apply labelled_long; assumption].
  rewrite !Bool.andb_true_iff, !Nat.leb_le in E. cbn [fst snd].
  split; repeat constructor; tauto.
Qed.

(** Every name returned, by whichever strategy, has at least three
    characters. *)
Lemma extract_parties_long (header_text : str) (entities : Dict.t (list str)) :
  Forall (fun n => 3 <= List.length n) (fst (extract_parties header_text entities))
  /\ Forall (fun n => 3 <= List.length n) (snd (extract_parties header_text entities)).
Proof.
  unfold extract_parties.
  destruct (Str.is_empty header_text); [split; constructor|].
  destruct (Re.search Re.IM versus_pattern header_text) as [m|];
    [|apply inline_long; constructor].
  cbv zeta.
  match goal with
  | |- context [if ?c then _ else _] => destruct c
  end.
  - cbn [fst snd]. split; apply names_long.
  - apply inline_long; apply names_long.
Qed.

(** C6 -- the versus-block strategy returns its lists as they are: six
    names above a VERSUS line give six appellants, one more than the
    cap of five that the last [return] of [extract_parties] applies. *)
Theorem versus_block_not_capped :
  extract_parties
    (L "A KUMAR, B SINGH, C DEVI, D RAO, E KHAN, F DAS" ++ [Chr.LF]
     ++ L "VERSUS" ++ [Chr.LF] ++ L "STATE OF KERALA" ++ [Chr.LF]) []
  = ([L "A KUMAR"; L "B SINGH"; L "C DEVI"; L "D RAO"; L "E KHAN"; L "F DAS"],
     [L "STATE OF KERALA"]).
Proof. vm_compute. reflexivity. Qed.

End PartyFacts.

(** ** ner_predictor.py: the closed label set *)

Module NerFacts.
Import StrFacts DictFacts NerPredictor.

Lemma add_span_keys (d : Dict.t (list str)) (ls : str * str) :
  Dict.keys (add_span d ls) = Dict.keys d.
Proof.
  unfold add_span. cbv zeta.
  destruct (Dict.get (Str.strip (Str.upper (fst ls))) d) as [values|] eqn:E;
    [|reflexivity].
  destruct (Str.truthy _); [|reflexivity].
  rewrite keys_set. unfold Dict.mem. rewrite E. reflexivity.
Qed.

Lemma fold_add_span_keys (l : list (str * str)) : forall d : Dict.t (list str),
  Dict.keys (fold_left add_span l d) = Dict.keys d.
Proof.
  induction l as [|ls l IH]; intros d; simpl; [reflexivity|].
  rewrite IH. apply add_span_keys.
Qed.

Lemma add_span_outside (d : Dict.t (list str)) (ls : str * str) :
  existsb (Str.eqb (Str.strip (Str.upper (fst ls)))) (Dict.keys d) = false ->
  add_span d ls = d.
Proof.
  intros H. unfold add_span. cbv zeta.
  replace (Dict.get (Str.strip (Str.upper (fst ls))) d) with (@None (list str));
    [reflexivity|].
  symmetry. apply get_none_keys. intros Hin.
  assert (X : existsb (Str.eqb (Str.strip (Str.upper (fst ls)))) (Dict.keys d) = true).
  { apply existsb_exists. exists (Str.strip (Str.upper (fst ls))).
    split; [exact Hin | apply str_eqb_refl]. }
  congruence.
Qed.

(** The spans whose label is outside the set leave the table as it is. *)
Lemma fold_add_span_filter (l : list (str * str)) : forall d : Dict.t (list str),
  Dict.keys d = ALL_LABELS ->
  fold_left add_span l d =
  fold_left add_span (filter (fun ls => in_label_set (fst ls)) l) d.
Proof.
  induction l as [|ls l IH]; intros d Hk; cbn [filter fold_left]; [reflexivity|].
  destruct (in_label_set (fst ls)) eqn:E.
  - cbn [fold_left]. apply IH. rewrite add_span_keys. exact Hk.
  - rewrite add_span_outside; [apply IH; exact Hk|].
    rewrite Hk. exact E.
Qed.

Lemma initial_keys :
  Dict.keys (map (fun label : str => (label, @nil str)) ALL_LABELS) = ALL_LABELS.
Proof. unfold Dict.keys. rewrite map_map. apply map_id. Qed.

Lemma merge_filter (grouped fallback : list (str * str)) :
  merge grouped fallback =
  merge (filter (fun ls => in_label_set (fst ls)) grouped) fallback.
Proof.
  unfold merge. cbv zeta.
  rewrite (fold_add_span_filter grouped _ initial_keys). reflexivity.
Qed.

Lemma merge_keys (grouped fallback : list (str * str)) :
  Forall (fun k => In k (map Str.lower ALL_LABELS))
    (Dict.keys (merge grouped fallback)).
Proof.
  apply Forall_forall. intros k Hk.
  unfold merge, Dict.keys in Hk. cbv zeta in Hk.
  apply in_map_iff in Hk. destruct Hk as ([k' v'] & <- & Hin).
  apply in_map_iff in Hin. destruct Hin as ([l vs] & Heq & Hin).
  injection Heq as <- _. apply filter_In in Hin. destruct Hin as [Hin _].
  apply in_map_iff. exists l. split; [reflexivity|].
  assert (X : In l (Dict.keys
                      (fold_left add_span fallback
                         (fold_left add_span grouped
                            (map (fun label : str => (label, @nil str)) ALL_LABELS))))).
  { unfold Dict.keys. apply in_map_iff. exists (l, vs). split; [reflexivity | exact Hin]. }
  rewrite !fold_add_span_keys, initial_keys in X. exact X.
Qed.

(** C8 -- Labels outside the closed set are dropped.  For every text
    and every sequence of tagger predictions, the adapter's output is
    the output computed from the grouped spans whose label, put in
    upper case and trimmed, is one of the twelve labels: the other
    spans change nothing (and no step of the merge can fail); and every
    key of the output is the lower-case form of one of the twelve
    labels. *)
Theorem labels_outside_set_dropped (text : str) (raw_preds : list token) :
  post_process_ner text raw_preds =
  merge (filter (fun ls => in_label_set (fst ls)) (group_spans text raw_preds None []))
        (fallback_matches text)
  /\ Forall (fun k => In k (map Str.lower ALL_LABELS))
       (Dict.keys (post_process_ner text raw_preds)).
Proof.
  split.
  - unfold post_process_ner. apply merge_filter.
  - unfold post_process_ner. apply merge_keys.
Qed.

End NerFacts.

(** ** app.py: the assembled record *)

Module AppFacts.
Import StrFacts RunFacts Re Selectors App.

Lemma last_app_ne (A : Type) (a b : list A) (d : A) :
  b <> [] -> last (a ++ b) d = last b d.
Proof.
  intros Hb. induction a as [|x a IH]; [reflexivity|].
  simpl. destruct (a ++ b) eqn:E; [|exact IH].
  apply app_eq_nil in E. destruct E as [_ E]. contradiction.
Qed.

Lemma last_In (A : Type) (l : list A) (d : A) : l <> [] -> In (last l d) l.
Proof.
  induction l as [|x l IH]; intros H; [contradiction|].
  destruct l as [|y l]; [left; reflexivity|].
  right. apply IH. discriminate.
Qed.

Lemma upper1_not_space (c : ascii) :
  Chr.is_space c = false -> Chr.is_space (Chr.upper1 c) = false.
Proof.
  destruct c as [[] [] [] [] [] [] [] []]; vm_compute; intros H;
    first [reflexivity | discriminate H].
Qed.

Lemma capitalize_first_last (name : str) :
  name <> [] -> Chr.is_space (last name Chr.SP) = false ->
  capitalize_first name <> [] /\
  Chr.is_space (last (capitalize_first name) Chr.SP) = false.
Proof.
  intros Hne Hl. unfold capitalize_first.
  destruct name as [|c [|c2 rest]]; [contradiction| |].
  - cbn [List.length Nat.ltb Nat.leb Str.upper flat_map].
    destruct (Chr.code c =? 223).
    + split; [discriminate | vm_compute; reflexivity].
    + split; [discriminate|]. simpl. apply upper1_not_space. exact Hl.
  - cbn [List.length Nat.ltb Nat.leb].
    split.
    + intros E. apply app_eq_nil in E. destruct E as [_ E]. discriminate E.
    + rewrite last_app_ne by discriminate. exact Hl.
Qed.

(** A normalised case name is not empty and does not end with white
    space. *)
Lemma normalize_case_name_last (x : option str) (cn : str) :
  normalize_case_name x = Some cn ->
  cn <> [] /\ Chr.is_space (last cn Chr.SP) = false.
Proof.
  unfold normalize_case_name. destruct x as [name|]; [|discriminate].
  destruct (Str.is_empty name); [discriminate|]. cbv zeta.
  set (n := Str.strip _).
  destruct (Str.truthy n) eqn:T; [|discriminate].
  intros H. injection H as <-.
  apply truthy_nonempty in T.
  apply capitalize_first_last; [exact T|].
  unfold n, Str.strip, Str.strip_by in *. apply rstrip_last. exact T.
Qed.

(** When the separator cuts such a name in two, the second part holds
    more than white space. *)
Lemma split_re_v_second (s p0 p1 : str) :
  s <> [] -> Chr.is_space (last s Chr.SP) = false ->
  split I re_v s = [p0; p1] -> Str.strip p1 <> [].
Proof.
  intros Hne Hlast Hs.
  destruct (split_two _ _ _ _ _ Hs) as (m & Hsearch & ->).
  destruct (ReFacts.search_match_at _ _ _ _ Hsearch) as (k & adv & Hk & _ & Hm).
  unfold match_at in Hm.
  destruct (run I re_v _ _) as [s1|] eqn:R; [|discriminate].
  injection Hm as <-. cbn [m_end].
  change re_v
    with (Cat (plus space) (Cat (chr "v") (Cat (opt (chr ".")) (plus space)))) in R.
  rewrite run_cat in R. apply run_ext in R. destruct R as (t1 & E1 & R).
  cbv beta in R.
  rewrite run_cat in R. apply run_ext in R. destruct R as (t2 & E2 & R).
  cbv beta in R.
  rewrite run_cat in R. apply run_ext in R. destruct R as (t3 & E3 & R).
  cbv beta in R.
  apply run_plus_space in R. destruct R as (t4 & E4 & K & A).
  destruct (adv && _) in K; [discriminate|]. injection K as <-.
  pose proof (ext_trans _ _ _ (ext_trans _ _ _ (ext_trans _ _ _ E1 E2) E3) E4) as E.
  destruct E as (c & C1 & C2 & C3). cbn [m_rest m_pre m_pos] in C1, C2, C3.
  assert (Hs' : s = (firstn k s ++ c) ++ m_rest t4).
  { rewrite <- app_assoc, <- C1. symmetry. apply firstn_skipn. }
  assert (Hlen : List.length (firstn k s ++ c) = m_pos t4).
  { rewrite length_app, length_firstn, C3. lia. }
  assert (Hp1 : skipn (m_pos t4) s = m_rest t4).
  { rewrite Hs' at 1. rewrite <- Hlen. rewrite skipn_app, skipn_all, Nat.sub_diag.
    reflexivity. }
  rewrite Hp1.
  unfold after_space in A. destruct (m_pre t4) as [|x pre] eqn:P; [discriminate|].
  assert (Hf : firstn k s ++ c = rev pre ++ [x]).
  { rewrite <- (rev_involutive (firstn k s ++ c)), rev_app_distr, <- C2.
    reflexivity. }
  destruct (m_rest t4) as [|y rest] eqn:Rt.
  - exfalso. rewrite app_nil_r in Hs'. rewrite Hs', Hf, last_last in Hlast.
    congruence.
  - unfold Str.strip. apply (strip_nonempty _ _ (last s Chr.SP)); [|exact Hlast].
    rewrite Hs' at 1. rewrite last_app_ne by discriminate.
    apply last_In. discriminate.
Qed.

Lemma truthy_opt_some (o : option str) :
  truthy_opt o = true -> exists s, o = Some s /\ s <> [].
Proof.
  destruct o as [s|]; [|discriminate]. simpl. intros H.
  exists s. split; [reflexivity | apply truthy_nonempty; exact H].
Qed.

Lemma parties_from_case_name_nonempty (x : option str) (appellants respondents : list str) :
  Forall (fun n => n <> []) respondents ->
  Forall (fun n => n <> [])
    (snd (parties_from_case_name (normalize_case_name x) appellants respondents)).
Proof.
  intros Hr. unfold parties_from_case_name.
  destruct (truthy_opt (normalize_case_name x)) eqn:T; [|exact Hr].
  destruct (truthy_opt_some _ T) as (cn & Hcn & _).
  rewrite Hcn. cbn [or_empty andb].
  destruct (Str.contains _ cn && _); [|exact Hr].
  destruct (split I re_v cn) as [|p0 [|p1 [|p2 ps]]] eqn:S; try exact Hr.
  cbn [snd]. destruct (is_nil respondents); [|exact Hr].
  constructor; [|constructor].
  destruct (normalize_case_name_last _ _ Hcn) as [H1 H2].
  exact (split_re_v_second _ _ _ H1 H2 S).
Qed.

(** The respondents from which the record takes its first are never
    empty strings. *)
Lemma respondents_nonempty (segments : Segmenter.segments)
  (final_output : Dict.t (list str)) :
  Forall (fun n => n <> []) (snd (fst (parties_and_name segments final_output))).
Proof.
  unfold parties_and_name.
  pose proof (PartyFacts.extract_parties_long (Segmenter.header segments) final_output)
    as [_ Hr].
  destruct (PartyExtractor.extract_parties _ _) as [a r]. cbn [snd] in Hr.
  assert (Hr' : Forall (fun n : str => n <> []) r).
  { apply Forall_forall. intros n Hn E. rewrite Forall_forall in Hr.
    specialize (Hr n Hn). rewrite E in Hr. simpl in Hr. lia. }
  pose proof (parties_from_case_name_nonempty
                (extract_case_name_from_header (Segmenter.header segments)) a r Hr')
    as H.
  destruct (parties_from_case_name _ a r) as [a' r']. exact H.
Qed.

Lemma Ret_inj (A : Type) (a b : A) : Ret a = Ret b -> a = b.
Proof. intros H. injection H as H. exact H. Qed.

Lemma some_inj (A : Type) (a b : A) : Some a = Some b -> a = b.
Proof. intros H. injection H as H. exact H. Qed.

Lemma all_filled_put (cond : bool) (k : string) (v : value) (structured : record) :
  all_filled structured = true -> (cond = true -> filled v = true) ->
  all_filled (put cond k v structured) = true.
Proof.
  intros Hs Hv. unfold put. destruct cond; [|exact Hs].
  unfold all_filled in *. rewrite forallb_app, Hs. simpl.
  rewrite Hv by reflexivity. reflexivity.
Qed.

Lemma filled_opt (o : option str) :
  truthy_opt o = true -> filled (VStr (or_empty o)) = true.
Proof. destruct o; [intros H; exact H | discriminate]. Qed.

Lemma all_filled_put_list (final_output : Dict.t (list str)) (k name : string)
  (structured : record) :
  all_filled structured = true ->
  all_filled (put_list final_output k name structured) = true.
Proof.
  intros H. unfold put_list. apply all_filled_put; [exact H|].
  intros C. exact C.
Qed.

Lemma filled_advocates (a r : list str) :
  negb (is_nil a) || negb (is_nil r) = true ->
  filled (VObj (advocates_object a r)) = true.
Proof. destruct a, r; intros H; first [discriminate H | reflexivity]. Qed.

Lemma filled_content (background_facts : list str) (o : order_summary) :
  negb (is_nil (content_info background_facts o)) = true ->
  filled (VObj (content_info background_facts o)) = true.
Proof.
  unfold content_info, clean_order.
  destruct o as [res dec dir]. cbn [result decision directions].
  destruct background_facts, res, dec, dir; intros H;
    first [discriminate H | reflexivity].
Qed.

(** C2 (as amended) -- Empty-field omission in the assembled record.
    Whenever [extract_full_data] returns a record, no key of it holds
    an empty string, an empty list or an empty object, and the same is
    true of the values inside its nested objects: a field without a
    surviving candidate is left out.  (The fused output that the record
    is assembled from does hold an empty list for every expected label
    without candidates.) *)
Theorem assembled_record_filled
  (set_order : list str -> list str) (now : date)
  (legalbert_model : str -> list NerPredictor.token)
  (apply_spacy_and_regex : str -> list (str * str))
  (extract_advocates : str -> advocates)
  (extract_background_facts : str -> list str)
  (extract_order_summary : str -> order_summary)
  (text : str) (segments : Segmenter.segments) (r : record) :
  extract_full_data set_order now legalbert_model apply_spacy_and_regex
    extract_advocates extract_background_facts extract_order_summary
    text segments = Ret r ->
  all_filled r = true.
Proof.
  unfold extract_full_data. cbv zeta.
  set (fo := final_output_of _ _ _ _ _).
  pose proof (respondents_nonempty segments fo) as Hr.
  destruct (parties_and_name segments fo) as [[appellants respondents] case_name].
  cbn [fst snd] in Hr.
  unfold assemble.
  destruct (select_primary_court _) as [court|]; [|discriminate].
  cbv zeta. intros H. apply Ret_inj in H. rewrite <- H. clear H r.
  apply all_filled_put; [|apply filled_content].
  repeat apply all_filled_put_list.
  apply all_filled_put; [|apply filled_advocates].
  apply all_filled_put.
  2:{ destruct respondents as [|r0 rs]; [discriminate|]. intros _.
      apply Forall_inv in Hr. simpl. apply truthy_nonempty. exact Hr. }
  apply all_filled_put; [|intros C; exact C].
  apply all_filled_put_list.
  repeat (apply all_filled_put; [|apply filled_opt]).
  reflexivity.
Qed.

(** The record of a small judgment, with a tagger and collaborators
    that find nothing. *)
Lemma assembled_record_filled_witness :
  let text := L "Ram Kumar v. State of Kerala" ++ [Chr.LF]
              ++ L "Dated 01-01-2020 and 01-01-2024" in
  let r := [(L "case_name", VStr (L "Ram Kumar v. State of Kerala"));
            (L "date_of_judgment", VStr (L "01-01-2024"));
            (L "appellants", VList [L "Ram Kumar"]);
            (L "respondent", VStr (L "State of Kerala"));
            (L "precedents", VList [L "Ram Kumar v. State"]);
            (L "other_dates", VList [L "01-01-2024"]);
            (L "content_info",
             VObj [(L "order_summary", VObj [(L "result", VStr (L "Not found"))])])] in
  extract_full_data Postprocessing.insertion_order (Date 2026 11 3)
    (fun _ => []) (fun _ => []) (fun _ => Advocates [] []) (fun _ => [])
    (fun _ => OrderSummary (L "Not found") [] [])
    text (Segmenter.split_segments text) = Ret r
  /\ all_filled r = true.
Proof.
  intros text r.
  assert (H : extract_full_data Postprocessing.insertion_order (Date 2026 11 3)
                (fun _ => []) (fun _ => []) (fun _ => Advocates [] []) (fun _ => [])
                (fun _ => OrderSummary (L "Not found") [] [])
                text (Segmenter.split_segments text) = Ret r)
    by (vm_compute; reflexivity).
  split; [exact H|].
  exact (assembled_record_filled _ _ _ _ _ _ _ _ _ _ H).
Defined.

(** *** Two runs *)

Lemma valid_dates_same (now1 now2 : date) (cands : list str) :
  forallb (same_side now1 now2) cands = true ->
  valid_dates now1 cands = valid_dates now2 cands.
Proof.
  induction cands as [|d rest IH]; cbn [forallb valid_dates]; [reflexivity|].
  rewrite Bool.andb_true_iff. intros [Hd Hrest].
  unfold same_side in Hd. destruct (_try_parse_date d) as [dt|]; [|exact (IH Hrest)].
  apply Bool.eqb_prop in Hd. rewrite Hd, (IH Hrest). reflexivity.
Qed.

Lemma select_primary_date_same (now1 now2 : date) (dates : list str) :
  forallb (same_side now1 now2) (date_candidates dates []) = true ->
  select_primary_date now1 dates None = select_primary_date now2 dates None.
Proof.
  intros H.
  rewrite !(DateFacts.select_without_header _ dates None) by (left; reflexivity).
  rewrite (valid_dates_same _ _ _ H). reflexivity.
Qed.

Lemma get_In_NoDup (V : Type) (d : Dict.t V) (k : str) (v : V) :
  NoDup (Dict.keys d) -> In (k, v) d -> Dict.get k d = Some v.
Proof.
  induction d as [|[k0 v0] d IH]; intros Hn Hin; [contradiction|].
  simpl in Hn. inversion Hn as [|? ? Hnot Hn']; subst.
  simpl. destruct Hin as [E | Hin].
  - injection E as -> ->. rewrite str_eqb_refl. reflexivity.
  - destruct (Str.eqb k k0) eqn:E; [|exact (IH Hn' Hin)].
    apply str_eqb_eq in E. subst k0. exfalso. apply Hnot.
    unfold Dict.keys. apply in_map_iff. exists (k, v). auto.
Qed.

(** The fused table depends on the iteration order of sets only
    through the order given to the set of precedent candidates. *)
Lemma merge_entities_same_order (so1 so2 : list str -> list str)
  (b s : list (str * str)) :
  so1 (Postprocessing.precedent_candidates b s)
  = so2 (Postprocessing.precedent_candidates b s) ->
  Postprocessing.merge_entities so1 b s = Postprocessing.merge_entities so2 b s.
Proof.
  intros H. rewrite !FusionFacts.merge_entities_unfold. f_equal.
  unfold Postprocessing.fused_table. apply map_ext_in. intros [k items] Hin.
  cbn [fst snd]. f_equal. unfold Postprocessing.fuse.
  destruct (Str.eqb k (L "precedent")) eqn:E; [|reflexivity].
  apply str_eqb_eq in E. subst k. f_equal.
  unfold Postprocessing._deduplicate_precedents.
  destruct (Postprocessing.combined_of items) as [|c l] eqn:C; [reflexivity|].
  do 2 f_equal. rewrite <- C.
  assert (G : Dict.get (L "precedent")
                (fold_left Postprocessing.collect_spacy s
                   (fold_left Postprocessing.collect_bert b [])) = Some items).
  { apply get_In_NoDup; [|exact Hin].
    rewrite FusionFacts.accum_closed. apply FusionFacts.keys_build_NoDup. }
  unfold Postprocessing.precedent_candidates, Dict.get_or in H.
  rewrite G in H. rewrite H. reflexivity.
Qed.

(** C9 (as amended) -- Two runs on the same text, with the same
    tagger and collaborators, assemble the same record (or both fail)
    provided that they iterate the set of precedent candidates in the
    same order and that every date candidate which parses to a calendar
    date lies on the same side of both processing dates (not after
    either, or after both). *)
Theorem two_runs_same_record
  (so1 so2 : list str -> list str) (now1 now2 : date)
  (legalbert_model : str -> list NerPredictor.token)
  (apply_spacy_and_regex : str -> list (str * str))
  (extract_advocates : str -> advocates)
  (extract_background_facts : str -> list str)
  (extract_order_summary : str -> order_summary)
  (text : str) (segments : Segmenter.segments) :
  so1 (Postprocessing.precedent_candidates
         (bert_ents_list legalbert_model segments) (apply_spacy_and_regex text))
  = so2 (Postprocessing.precedent_candidates
           (bert_ents_list legalbert_model segments) (apply_spacy_and_regex text)) ->
  forallb (same_side now1 now2)
    (date_candidates
       (Dict.get_or (L "date") []
          (final_output_of so1 legalbert_model apply_spacy_and_regex text segments))
       []) = true ->
  extract_full_data so1 now1 legalbert_model apply_spacy_and_regex
    extract_advocates extract_background_facts extract_order_summary text segments
  = extract_full_data so2 now2 legalbert_model apply_spacy_and_regex
      extract_advocates extract_background_facts extract_order_summary text segments.
Proof.
  intros Hso Hdates. unfold extract_full_data. cbv zeta.
  assert (E : final_output_of so2 legalbert_model apply_spacy_and_regex text segments
              = final_output_of so1 legalbert_model apply_spacy_and_regex text segments).
  { unfold final_output_of. cbv zeta. symmetry.
    apply merge_entities_same_order. exact Hso. }
  rewrite E. revert Hdates.
  generalize (final_output_of so1 legalbert_model apply_spacy_and_regex text segments).
  intros fo Hdates.
  destruct (parties_and_name segments fo) as [[appellants respondents] case_name].
  unfold assemble. rewrite (select_primary_date_same now1 now2 _ Hdates).
  reflexivity.
Qed.

Lemma two_runs_same_record_witness :
  let text := L "Ram Kumar v. State of Kerala" ++ [Chr.LF]
              ++ L "Dated 01-01-2020 and 01-01-2024" in
  extract_full_data Postprocessing.insertion_order (Date 2025 1 1)
    (fun _ => []) (fun _ => []) (fun _ => Advocates [] []) (fun _ => [])
    (fun _ => OrderSummary (L "Not found") [] [])
    text (Segmenter.split_segments text)
  = extract_full_data (@rev str) (Date 2026 11 3)
      (fun _ => []) (fun _ => []) (fun _ => Advocates [] []) (fun _ => [])
      (fun _ => OrderSummary (L "Not found") [] [])
      text (Segmenter.split_segments text).
Proof.
  intros text.
  refine (two_runs_same_record Postprocessing.insertion_order (@rev str)
            (Date 2025 1 1) (Date 2026 11 3)
            (fun _ => []) (fun _ => []) (fun _ => Advocates [] []) (fun _ => [])
            (fun _ => OrderSummary (L "Not found") [] [])
            text (Segmenter.split_segments text) _ _);
    vm_compute; reflexivity.
Defined.

(** C9, as stated, fails: the same text, tagger and collaborators give
    different records on different processing dates. *)
Lemma record_depends_on_date :
  let text := L "01-01-2020 01-01-2024" in
  let run := fun now =>
    extract_full_data Postprocessing.insertion_order now
      (fun _ => []) (fun _ => []) (fun _ => Advocates [] []) (fun _ => [])
      (fun _ => OrderSummary (L "Not found") [] [])
      text (Segmenter.split_segments text) in
  run (Date 2022 6 1) <> run (Date 2026 11 3).
Proof. vm_compute. intros H. discriminate H. Qed.

End AppFacts.

(* ================================================================== *)
(** * Further properties of the code *)

(** ** party_extractor.py *)

Module PartyProperties.
Import StrFacts PartyExtractor.

(** X1 -- Whichever strategy of [extract_parties] produces them, the
    names returned, appellants and respondents alike, have at least
    three characters; in particular none is empty. *)
Theorem party_names_three_characters (header_text : str)
  (entities : Dict.t (list str)) :
  Forall (fun n => 3 <= List.length n) (fst (extract_parties header_text entities))
  /\ Forall (fun n => 3 <= List.length n) (snd (extract_parties header_text entities)).
Proof. apply PartyFacts.extract_parties_long. Qed.

Lemma mem_lower_In (k : str) (seen : list str) :
  existsb (Str.eqb k) seen = false -> ~ In k seen.
Proof.
  intros H Hin.
  assert (X : existsb (Str.eqb k) seen = true).
  { apply existsb_exists. exists k. split; [exact Hin | apply str_eqb_refl]. }
  congruence.
Qed.

Lemma unique_names_fresh (names : list str) : forall seen n,
  In n (unique_names seen names) -> ~ In (Str.lower n) seen.
Proof.
  induction names as [|x names IH]; intros seen n H; simpl in H; [contradiction|].
  destruct (existsb (Str.eqb (Str.lower x)) seen) eqn:E; [exact (IH _ _ H)|].
  destruct H as [<- | H]; [apply mem_lower_In; exact E|].
  intros Hin. apply (IH _ _ H). right. exact Hin.
Qed.

Lemma unique_names_NoDup (names : list str) : forall seen,
  NoDup (map Str.lower (unique_names seen names)).
Proof.
  induction names as [|x names IH]; intros seen; simpl; [constructor|].
  destruct (existsb (Str.eqb (Str.lower x)) seen); [apply IH|].
  simpl. constructor; [|apply IH].
  intros Hin. apply in_map_iff in Hin. destruct Hin as (n & Hn & Hin).
  apply (unique_names_fresh _ _ _ Hin). rewrite Hn. left. reflexivity.
Qed.

Lemma names_NoDup (block : str) :
  NoDup (map Str.lower (_extract_names_from_block block)).
Proof.
  unfold _extract_names_from_block. destruct (Str.is_empty block); [constructor|].
  apply unique_names_NoDup.
Qed.

Lemma names_of_NoDup (s : str) (m : option Re.rmatch) (default : list str) :
  NoDup (map Str.lower default) -> NoDup (map Str.lower (names_of s m default)).
Proof. intros H. destruct m; [apply names_NoDup | exact H]. Qed.

Lemma NoDup_firstn_lower (k : nat) (l : list str) :
  NoDup (map Str.lower l) -> NoDup (map Str.lower (firstn k l)).
Proof.
  revert l. induction k as [|k IH]; intros [|x l] H; simpl; try constructor.
  - simpl in H. inversion H as [|? ? Hx Hl]; subst.
    intros Hin. apply Hx. apply in_map_iff in Hin. destruct Hin as (n & Hn & Hin).
    apply in_map_iff. exists n. split; [exact Hn|].
    exact (PrecedentFacts.In_firstn _ _ _ _ Hin).
  - simpl in H. inversion H; subst. apply IH. assumption.
Qed.

Lemma labelled_NoDup (header_text : str) (appellants respondents : list str) :
  NoDup (map Str.lower appellants) -> NoDup (map Str.lower respondents) ->
  NoDup (map Str.lower (fst (labelled header_text appellants respondents)))
  /\ NoDup (map Str.lower (snd (labelled header_text appellants respondents))).
Proof.
  intros Ha Hr. unfold labelled. cbv zeta. cbn [fst snd].
  split; apply NoDup_firstn_lower.
  - destruct (is_nil _); repeat apply names_of_NoDup; exact Ha.
  - destruct (is_nil _); repeat apply names_of_NoDup; exact Hr.
Qed.

Lemma inline_NoDup (header_text : str) (appellants respondents : list str) :
  NoDup (map Str.lower appellants) -> NoDup (map Str.lower respondents) ->
  NoDup (map Str.lower (fst (inline header_text appellants respondents)))
  /\ NoDup (map Str.lower (snd (inline header_text appellants respondents))).
Proof.
  intros Ha Hr. unfold inline.
  destruct (Re.search Re.I inline_versus header_text) as [m|];
    [|apply labelled_NoDup; assumption].
  destruct (is_nil appellants); [|apply labelled_NoDup; assumption].
  cbv zeta.
  match goal with
  | |- context [if ?c then _ else _] => destruct c
  end; [|apply labelled_NoDup; assumption].
  cbn [fst snd map]. split; (constructor; [intros [] | constructor]).
Qed.

(** X2 -- Each list returned by [extract_parties] is free of
    duplicates, names being compared without regard to case. *)
Theorem party_names_deduplicated (header_text : str)
  (entities : Dict.t (list str)) :
  NoDup (map Str.lower (fst (extract_parties header_text entities)))
  /\ NoDup (map Str.lower (snd (extract_parties header_text entities))).
Proof.
  unfold extract_parties.
  destruct (Str.is_empty header_text); [split; constructor|].
  destruct (Re.search Re.IM versus_pattern header_text) as [m|];
    [|apply inline_NoDup; constructor].
  cbv zeta.
  match goal with
  | |- context [if ?c then _ else _] => destruct c
  end.
  - cbn [fst snd]. split; apply names_NoDup.
  - apply inline_NoDup; apply names_NoDup.
Qed.

Lemma labelled_capped (header_text : str) (appellants respondents : list str) :
  List.length (fst (labelled header_text appellants respondents)) <= 5
  /\ List.length (snd (labelled header_text appellants respondents)) <= 3.
Proof.
  unfold labelled. cbv zeta. cbn [fst snd]. split; apply firstn_le_length.
Qed.

Lemma inline_capped (header_text : str) (appellants respondents : list str) :
  List.length (fst (inline header_text appellants respondents)) <= 5
  /\ List.length (snd (inline header_text appellants respondents)) <= 3.
Proof.
  unfold inline.
  destruct (Re.search Re.I inline_versus header_text) as [m|];
    [|apply labelled_capped].
  destruct (is_nil appellants); [|apply labelled_capped].
  cbv zeta.
  match goal with
  | |- context [if ?c then _ else _] => destruct c
  end; [|apply labelled_capped].
  cbn [fst snd List.length]. lia.
Qed.

(** X3 -- The caps of five appellants and three respondents hold on
    every path of [extract_parties] but one: either the versus block
    matched and both of its blocks gave names, and then these two lists
    are returned as they are, or the result has at most five appellants
    and at most three respondents. *)
Theorem parties_capped_outside_versus_block (header_text : str)
  (entities : Dict.t (list str)) :
  (exists m,
     Re.search Re.IM versus_pattern header_text = Some m /\
     extract_parties header_text entities =
       (_extract_names_from_block (Str.strip (Re.group_or_empty header_text 1 m)),
        _extract_names_from_block (Str.strip (Re.group_or_empty header_text 2 m))) /\
     fst (extract_parties header_text entities) <> [] /\
     snd (extract_parties header_text entities) <> [])
  \/ (List.length (fst (extract_parties header_text entities)) <= 5 /\
      List.length (snd (extract_parties header_text entities)) <= 3).
Proof.
  unfold extract_parties.
  destruct (Str.is_empty header_text); [right; simpl; lia|].
  destruct (Re.search Re.IM versus_pattern header_text) as [m|];
    [|right; apply inline_capped].
  cbv zeta.
  destruct (_extract_names_from_block (Str.strip (Re.group_or_empty header_text 1 m)))
    as [|a1 al] eqn:Ea; [right; apply inline_capped|].
  destruct (_extract_names_from_block (Str.strip (Re.group_or_empty header_text 2 m)))
    as [|r1 rl] eqn:Er; [right; apply inline_capped|].
  left. exists m. rewrite Ea, Er. cbn [is_nil negb andb fst snd].
  split; [reflexivity|]. split; [reflexivity|]. split; discriminate.
Qed.

(** X12 -- A party chunk cleaned by [_clean_party_chunk], in the
    party extractor or in the selectors, never begins or ends with a
    blank, a full stop, a comma, a semicolon, a colon or a hyphen:
    trimming it again changes nothing. *)
Theorem party_chunk_trimmed (chunk : str) :
  Str.strip_chars (L " .,;:-") (_clean_party_chunk chunk) = _clean_party_chunk chunk
  /\ Str.strip_chars (L " .,;:-") (Selectors._clean_party_chunk chunk)
     = Selectors._clean_party_chunk chunk.
Proof.
  unfold _clean_party_chunk, Selectors._clean_party_chunk.
  destruct (Str.is_empty chunk); [split; reflexivity|].
  cbv zeta. unfold Str.strip_chars. split; apply strip_idem.
Qed.

End PartyProperties.

(** ** ner_predictor.py *)

Module NerProperties.
Import StrFacts DictFacts NerPredictor.

(** *** The spans grouped from the predictions *)

Lemma flush_spans (current : buffer) (text : str) (grouped : list (str * str))
  (P : str * str -> Prop) :
  (forall e a b span, current = Some (e, a, b) -> Str.truthy e = true ->
                      1 < List.length span ->
                      Str.strip_chars (L " ,.;:") span = span -> P (e, span)) ->
  Forall P grouped ->
  Forall P (_flush_current_span current text grouped).
Proof.
  intros Hc Hg. unfold _flush_current_span.
  destruct current as [[[e a] b]|]; [|exact Hg].
  destruct (Str.truthy e) eqn:T; [|exact Hg]. cbv zeta.
  destruct (1 <? _) eqn:E; [|exact Hg].
  apply Forall_app. split; [exact Hg|]. constructor; [|constructor].
  apply (Hc e a b); [reflexivity | exact T | apply Nat.ltb_lt; exact E|].
  unfold Str.strip_chars. apply strip_idem.
Qed.

(** What holds of a grouped span. *)
Lemma group_spans_invariant (text : str) (raw_preds : list token) :
  forall (current : buffer) (grouped : list (str * str)),
  let P := fun ls : str * str =>
    Str.truthy (fst ls) = true /\ Str.eqb (fst ls) (L "O") = false /\
    1 < List.length (snd ls) /\ Str.strip_chars (L " ,.;:") (snd ls) = snd ls in
  (forall e a b, current = Some (e, a, b) -> Str.eqb e (L "O") = false) ->
  Forall P grouped ->
  Forall P (group_spans text raw_preds current grouped).
Proof.
  induction raw_preds as [|tok rest IH]; intros current grouped P Hc Hg;
    cbn [group_spans].
  - apply flush_spans; [|exact Hg].
    intros e a b span -> T Hl Hs. unfold P. cbn [fst snd].
    repeat split; try assumption. exact (Hc e a b eq_refl).
  - cbv zeta.
    set (entity := Str.last_piece _ _).
    assert (Hflush : Forall P (_flush_current_span current text grouped)).
    { apply flush_spans; [|exact Hg].
      intros e a b span -> T Hl Hs. unfold P. cbn [fst snd].
      repeat split; try assumption. exact (Hc e a b eq_refl). }
    destruct (Str.eqb entity (L "O")) eqn:EO.
    + apply IH; [intros e a b X; discriminate X | exact Hflush].
    + destruct current as [[[e a] b]|].
      * destruct (Str.eqb e entity) eqn:Ee.
        -- apply IH; [|exact Hg]. intros e' a' b' X. injection X as <- _ _.
           exact (Hc e a b eq_refl).
        -- apply IH; [|exact Hflush]. intros e' a' b' X. injection X as <- _ _.
           exact EO.
      * apply IH; [|exact Hg]. intros e' a' b' X. injection X as <- _ _. exact EO.
Qed.

(** X4 -- Every span that the grouping of the tagger's predictions
    yields has a label that is neither empty nor "O" and a text of at
    least two characters from which the surrounding blanks, commas,
    full stops, semicolons and colons are removed. *)
Theorem grouped_spans_well_formed (text : str) (raw_preds : list token) :
  Forall (fun ls : str * str =>
            Str.truthy (fst ls) = true /\ Str.eqb (fst ls) (L "O") = false /\
            1 < List.length (snd ls) /\
            Str.strip_chars (L " ,.;:") (snd ls) = snd ls)
    (group_spans text raw_preds None []).
Proof.
  apply group_spans_invariant; [intros e a b X; discriminate X | constructor].
Qed.

Lemma flush_length (current : buffer) (text : str) (grouped : list (str * str)) :
  List.length (_flush_current_span current text grouped)
  <= List.length grouped + match current with Some _ => 1 | None => 0 end.
Proof.
  unfold _flush_current_span. destruct current as [[[e a] b]|]; [|lia].
  destruct (Str.truthy e); [|lia]. cbv zeta.
  destruct (1 <? _); [|lia]. rewrite length_app. simpl. lia.
Qed.

Lemma group_spans_length (text : str) (raw_preds : list token) :
  forall (current : buffer) (grouped : list (str * str)),
  List.length (group_spans text raw_preds current grouped)
  <= List.length grouped
     + match current with Some _ => 1 | None => 0 end
     + List.length
         (filter (fun tok =>
                    negb (Str.eqb
                            (Str.last_piece "-"%char
                               (match t_entity tok with Some e => e | None => L "O" end))
                            (L "O")))
            raw_preds).
Proof.
  induction raw_preds as [|tok rest IH]; intros current grouped;
    cbn [group_spans filter].
  - pose proof (flush_length current text grouped). simpl. lia.
  - cbv beta zeta.
    set (entity := Str.last_piece _ _).
    pose proof (flush_length current text grouped) as Hf.
    destruct (Str.eqb entity (L "O")) eqn:EO; cbn [negb].
    + specialize (IH None (_flush_current_span current text grouped)).
      cbv iota in IH. lia.
    + cbn [List.length]. destruct current as [[[e a] b]|].
      * destruct (Str.eqb e entity).
        -- specialize (IH (Some (e, a, t_end tok)) grouped). cbv iota in IH. lia.
        -- specialize (IH (Some (entity, t_start tok, t_end tok))
                          (_flush_current_span (Some (e, a, b)) text grouped)).
           cbv iota in IH. lia.
      * specialize (IH (Some (entity, t_start tok, t_end tok)) grouped).
        cbv iota in IH. lia.
Qed.

(** X5 -- The grouping never yields more spans than there are
    predictions with a label other than "O" (a missing label counting
    as "O"); predictions that are all "O" yield no span. *)
Theorem grouped_spans_bounded (text : str) (raw_preds : list token) :
  List.length (group_spans text raw_preds None [])
  <= List.length
       (filter (fun tok =>
                  negb (Str.eqb
                          (Str.last_piece "-"%char
                             (match t_entity tok with Some e => e | None => L "O" end))
                          (L "O")))
          raw_preds).
Proof.
  pose proof (group_spans_length text raw_preds None []) as H. simpl in H. exact H.
Qed.

(** *** The order of the lists *)

Lemma code_inj (a b : ascii) : Chr.code a = Chr.code b -> a = b.
Proof.
  unfold Chr.code. intros H.
  rewrite <- (ascii_nat_embedding a), <- (ascii_nat_embedding b), H. reflexivity.
Qed.

Lemma ltb_irrefl (a : str) : Str.ltb a a = false.
Proof.
  induction a as [|x a IH]; simpl; [reflexivity|].
  rewrite Nat.ltb_irrefl. exact IH.
Qed.

Lemma ltb_trichotomy (a : str) : forall b,
  Str.ltb a b = true \/ a = b \/ Str.ltb b a = true.
Proof.
  induction a as [|x a IH]; intros [|y b]; simpl; auto.
  destruct (Nat.ltb_spec (Chr.code x) (Chr.code y)); [auto|].
  destruct (Nat.ltb_spec (Chr.code y) (Chr.code x)); [auto|].
  assert (x = y) by (apply code_inj; lia). subst y.
  destruct (IH b) as [H1 | [-> | H1]]; auto.
Qed.

Lemma ltb_trans (a : str) : forall b c,
  Str.ltb a b = true -> Str.ltb b c = true -> Str.ltb a c = true.
Proof.
  induction a as [|x a IH]; intros [|y b] [|z c]; simpl; try discriminate; auto.
  destruct (Nat.ltb_spec (Chr.code x) (Chr.code y)),
           (Nat.ltb_spec (Chr.code y) (Chr.code z)),
           (Nat.ltb_spec (Chr.code x) (Chr.code z)); auto; try lia.
  - destruct (Nat.ltb_spec (Chr.code z) (Chr.code y)); [discriminate|]. lia.
  - destruct (Nat.ltb_spec (Chr.code y) (Chr.code x)); [discriminate|]. lia.
  - destruct (Nat.ltb_spec (Chr.code y) (Chr.code x)); [discriminate|].
    destruct (Nat.ltb_spec (Chr.code z) (Chr.code y)); [discriminate|].
    destruct (Nat.ltb_spec (Chr.code z) (Chr.code x)); [lia|].
    apply IH.
Qed.

Lemma insert_sorted_In (x : str) (l : list str) (z : str) :
  In z (insert_sorted x l) <-> z = x \/ In z l.
Proof.
  induction l as [|y l IH]; simpl; [intuition|].
  destruct (Str.ltb y x); simpl; [rewrite IH|]; intuition.
Qed.

Lemma sorted_values_In (l : list str) (z : str) : In z (sorted l) <-> In z l.
Proof.
  unfold sorted. induction l as [|x l IH]; simpl; [tauto|].
  rewrite insert_sorted_In, IH. intuition.
Qed.

Lemma insert_sorted_sorted (x : str) (l : list str) :
  ~ In x l -> StronglySorted (fun a b => Str.ltb a b = true) l ->
  StronglySorted (fun a b => Str.ltb a b = true) (insert_sorted x l).
Proof.
  intros Hx Hs. induction Hs as [|y l Hs IH Hy]; simpl.
  - constructor; constructor.
  - destruct (Str.ltb y x) eqn:E.
    + constructor.
      * apply IH. intros Hin. apply Hx. right. exact Hin.
      * apply Forall_forall. intros z Hz. apply insert_sorted_In in Hz.
        destruct Hz as [-> | Hz]; [exact E|].
        rewrite Forall_forall in Hy. exact (Hy z Hz).
    + assert (Hxy : Str.ltb x y = true).
      { destruct (ltb_trichotomy x y) as [H | [-> | H]]; [exact H | | congruence].
        exfalso. apply Hx. left. reflexivity. }
      constructor; [constructor; assumption|].
      constructor; [exact Hxy|].
      apply Forall_forall. intros z Hz. rewrite Forall_forall in Hy.
      exact (ltb_trans _ _ _ Hxy (Hy z Hz)).
Qed.

Lemma sorted_sorted (l : list str) :
  NoDup l -> StronglySorted (fun a b => Str.ltb a b = true) (sorted l).
Proof.
  unfold sorted. induction 1 as [|x l Hx Hn IH]; simpl; [constructor|].
  apply insert_sorted_sorted; [|exact IH].
  intros Hin. apply Hx. apply (sorted_values_In l x). exact Hin.
Qed.

Lemma sorted_nonempty (l : list str) : l <> [] -> sorted l <> [].
Proof.
  destruct l as [|x l]; [contradiction|]. intros _ E.
  assert (H : In x (sorted (x :: l))) by (apply sorted_values_In; left; reflexivity).
  rewrite E in H. exact H.
Qed.

(** *** The table of the merge *)

Lemma set_add_NoDup (x : str) (s : list str) : NoDup s -> NoDup (set_add x s).
Proof.
  intros H. unfold set_add. destruct (existsb (Str.eqb x) s) eqn:E; [exact H|].
  apply NoDup_app; [exact H | constructor; [intros [] | constructor] |].
  intros a Ha Hx. destruct Hx as [<- | []].
  assert (X : existsb (Str.eqb x) s = true).
  { apply existsb_exists. exists x. split; [exact Ha | apply str_eqb_refl]. }
  congruence.
Qed.

Lemma In_set (V : Type) (k : str) (v : V) (d : Dict.t V) (k' : str) (v' : V) :
  In (k', v') (Dict.set k v d) -> In (k', v') d \/ v' = v.
Proof.
  induction d as [|[k0 v0] d IH]; simpl.
  - intros [E | []]. injection E as _ <-. right. reflexivity.
  - destruct (Str.eqb k k0).
    + intros [E | H]; [injection E as _ <-; right; reflexivity | left; right; exact H].
    + intros [E | H]; [left; left; exact E|].
      destruct (IH H) as [X | X]; [left; right; exact X | right; exact X].
Qed.

Lemma get_In (V : Type) (k : str) (v : V) (d : Dict.t V) :
  Dict.get k d = Some v -> exists k', In (k', v) d.
Proof.
  induction d as [|[k0 v0] d IH]; simpl; [discriminate|].
  destruct (Str.eqb k k0).
  - intros H. injection H as ->. exists k0. left. reflexivity.
  - intros H. destruct (IH H) as (k' & Hk). exists k'. right. exact Hk.
Qed.

Lemma normalize_entity_trimmed (label value : str) :
  Str.strip (normalize_entity label value) = normalize_entity label value.
Proof.
  unfold normalize_entity.
  destruct (Str.eqb label (L "organization")).
  - cbv zeta. destruct (Str.eqb _ (L "Private. Limited")); [reflexivity|].
    apply strip_strip.
  - destruct (Str.eqb label (L "statute")); cbv zeta; apply strip_strip.
Qed.

Lemma add_span_ok (d : Dict.t (list str)) (ls : str * str) :
  table_ok d -> table_ok (add_span d ls).
Proof.
  intros Hd. unfold add_span. cbv zeta.
  set (lab := Str.strip (Str.upper (fst ls))).
  set (value := normalize_entity _ _).
  destruct (Dict.get lab d) as [values|] eqn:G; [|exact Hd].
  destruct (Str.truthy value) eqn:T; [|exact Hd].
  intros k vs Hin. apply In_set in Hin. destruct Hin as [Hin | ->]; [exact (Hd k vs Hin)|].
  destruct (get_In _ _ _ _ G) as (k' & Hk').
  destruct (Hd k' values Hk') as [Hn Hf].
  split; [apply set_add_NoDup; exact Hn|].
  unfold set_add. destruct (existsb (Str.eqb value) values); [exact Hf|].
  apply Forall_app. split; [exact Hf|]. constructor; [|constructor].
  split; [apply truthy_nonempty; exact T | apply normalize_entity_trimmed].
Qed.

Lemma fold_add_span_ok (l : list (str * str)) : forall d,
  table_ok d -> table_ok (fold_left add_span l d).
Proof.
  induction l as [|ls l IH]; intros d Hd; simpl; [exact Hd|].
  apply IH. apply add_span_ok. exact Hd.
Qed.

Lemma merge_lists (grouped fallback : list (str * str)) (k : str) (l : list str) :
  In (k, l) (merge grouped fallback) ->
  exists vs, l = sorted vs /\ vs <> [] /\ NoDup vs /\
             Forall (fun v => v <> [] /\ Str.strip v = v) vs.
Proof.
  unfold merge. cbv zeta. intros H.
  apply in_map_iff in H. destruct H as ([k0 vs] & E & H). injection E as _ <-.
  apply filter_In in H. destruct H as [H Hne]. cbn [snd] in Hne.
  exists vs. split; [reflexivity|].
  split; [destruct vs; [discriminate Hne | discriminate]|].
  refine (fold_add_span_ok fallback _ (fold_add_span_ok grouped _ _) k0 vs H).
  intros k1 v1 Hin. apply in_map_iff in Hin. destruct Hin as (lab & E & _).
  injection E as _ <-. split; constructor.
Qed.

(** X6 -- Every list in the output of [post_process_ner] is not empty
    and strictly ascending in the order of the code points: it is
    sorted and holds no value twice. *)
Theorem ner_lists_sorted (text : str) (raw_preds : list token) :
  Forall (fun kv : str * list str =>
            snd kv <> [] /\
            StronglySorted (fun a b => Str.ltb a b = true) (snd kv))
    (post_process_ner text raw_preds).
Proof.
  apply Forall_forall. intros [k l] H. unfold post_process_ner in H.
  destruct (merge_lists _ _ _ _ H) as (vs & -> & Hne & Hn & _). cbn [snd].
  split; [apply sorted_nonempty; exact Hne | apply sorted_sorted; exact Hn].
Qed.

(** X7 -- Every value in the output of [post_process_ner] is a
    non-empty string without white space at either end. *)
Theorem ner_values_trimmed (text : str) (raw_preds : list token) :
  Forall (fun kv : str * list str =>
            Forall (fun v => v <> [] /\ Str.strip v = v) (snd kv))
    (post_process_ner text raw_preds).
Proof.
  apply Forall_forall. intros [k l] H. unfold post_process_ner in H.
  destruct (merge_lists _ _ _ _ H) as (vs & -> & _ & _ & Hf). cbn [snd].
  apply Forall_forall. intros v Hv. apply (proj1 (sorted_values_In vs v)) in Hv.
  rewrite Forall_forall in Hf. exact (Hf v Hv).
Qed.

End NerProperties.

(** ** selectors.py *)

Module SelectorProperties.
Import StrFacts Re Selectors.

Lemma unique_by_In (key : str -> str) (l : list str) : forall seen c,
  In c (unique_by key seen l) -> In c l.
Proof.
  induction l as [|x l IH]; intros seen c H; simpl in H; [contradiction|].
  destruct (existsb (Str.eqb (key x)) seen).
  - right. exact (IH _ _ H).
  - destruct H as [-> | H]; [left; reflexivity | right; exact (IH _ _ H)].
Qed.

Lemma unique_by_nil (key : str -> str) (l : list str) :
  unique_by key [] l = [] <-> l = [].
Proof.
  destruct l as [|x l]; simpl; [tauto|]. split; discriminate.
Qed.

Lemma filter_truthy_nil (l : list str) :
  filter Str.truthy l = [] <-> Forall (fun c => c = []) l.
Proof.
  induction l as [|x l IH]; simpl; [split; constructor|].
  destruct x as [|c x]; simpl.
  - rewrite IH. split; [constructor; [reflexivity | assumption]|].
    intros H. inversion H. assumption.
  - split; [discriminate|]. intros H. inversion H. discriminate.
Qed.

Lemma court_error_iff (courts : list str) :
  select_primary_court courts = ValueError <->
  courts <> [] /\ Forall (fun c => c = []) courts.
Proof.
  unfold select_primary_court, unique_courts.
  destruct courts as [|c0 cs]; [split; [discriminate | intros [H _]; contradiction]|].
  destruct (unique_by Str.lower [] _) as [|u us] eqn:E.
  - apply unique_by_nil in E. apply map_eq_nil in E.
    apply filter_truthy_nil in E.
    split; [intros _; split; [discriminate | exact E] | reflexivity].
  - split; [discriminate|]. intros [_ H]. exfalso.
    apply filter_truthy_nil in H. rewrite H in E. discriminate E.
Qed.

(** X8 -- [select_primary_court] fails with the [ValueError] of [max]
    exactly when it is given a list that is not empty and holds only
    empty strings; on every other list it returns. *)
Theorem select_primary_court_error (courts : list str) :
  select_primary_court courts = ValueError <->
  courts <> [] /\ Forall (fun c => c = []) courts.
Proof. apply court_error_iff. Qed.

Lemma by_priority_spec (cleaned : list str) (ps : list str) :
  match by_priority ps cleaned with
  | Some c =>
      exists p ps1 ps2,
        ps = ps1 ++ p :: ps2 /\ In c cleaned /\
        Str.contains p (Str.lower c) = true /\
        forall q c', In q ps1 -> In c' cleaned ->
                     Str.contains q (Str.lower c') = false
  | None =>
      forall q c', In q ps -> In c' cleaned -> Str.contains q (Str.lower c') = false
  end.
Proof.
  induction ps as [|p ps IH]; simpl; [intros q c' []|].
  destruct (find (fun c => Str.contains p (Str.lower c)) cleaned) as [c|] eqn:F.
  - apply find_some in F. destruct F as [F1 F2].
    exists p, [], ps. repeat split; try assumption. intros q c' [].
  - destruct (by_priority ps cleaned) as [c|].
    + destruct IH as (p' & ps1 & ps2 & -> & H1 & H2 & H3).
      exists p', (p :: ps1), ps2. repeat split; try assumption.
      intros q c' [<- | Hq] Hc'; [|exact (H3 q c' Hq Hc')].
      exact (find_none _ _ F c' Hc').
    + intros q c' [<- | Hq] Hc'; [|exact (IH q c' Hq Hc')].
      exact (find_none _ _ F c' Hc').
Qed.

Lemma max_by_In (key : str -> nat) (l : list str) : forall best,
  In (max_by key best l) (best :: l).
Proof.
  induction l as [|x l IH]; intros best; simpl; [left; reflexivity|].
  destruct (IH (if key best <? key x then x else best)) as [H | H].
  - destruct (key best <? key x); [right; left | left]; exact H.
  - right. right. exact H.
Qed.

Lemma max_by_ge_best (key : str -> nat) (l : list str) : forall best,
  key best <= key (max_by key best l).
Proof.
  induction l as [|x l IH]; intros best; simpl; [lia|].
  specialize (IH (if key best <? key x then x else best)).
  destruct (Nat.ltb_spec (key best) (key x)); lia.
Qed.

Lemma max_by_max (key : str -> nat) (l : list str) : forall best x,
  In x (best :: l) -> key x <= key (max_by key best l).
Proof.
  induction l as [|y l IH]; intros best x Hx.
  - destruct Hx as [<- | []]. simpl. lia.
  - simpl. destruct Hx as [<- | [<- | Hx]].
    + pose proof (max_by_ge_best key l (if key best <? key y then y else best)).
      destruct (Nat.ltb_spec (key best) (key y)); lia.
    + pose proof (max_by_ge_best key l (if key best <? key y then y else best)).
      destruct (Nat.ltb_spec (key best) (key y)); lia.
    + apply IH. right. exact Hx.
Qed.

(** X9 -- [select_primary_case_number] never invents a case number
    and never gives up on a list that is not empty: its result is one
    of the given strings, trimmed, and it is [None] only for the empty
    list. *)
Theorem case_number_from_input (case_numbers : list str) :
  match select_primary_case_number case_numbers with
  | Some c => In c (map Str.strip case_numbers)
  | None => case_numbers = []
  end.
Proof.
  unfold select_primary_case_number.
  destruct case_numbers as [|c0 cs]; [reflexivity|]. cbv zeta.
  set (cleaned := cleaned_case_numbers (c0 :: cs)).
  assert (Hin : forall c, In c cleaned -> In c (map Str.strip (c0 :: cs))).
  { intros c Hc. exact (unique_by_In _ _ _ _ Hc). }
  pose proof (by_priority_spec cleaned priorities) as Hp.
  destruct (by_priority priorities cleaned) as [c|].
  - destruct Hp as (_ & _ & _ & _ & Hc & _). exact (Hin c Hc).
  - assert (Hne : cleaned <> []).
    { unfold cleaned, cleaned_case_numbers. simpl. discriminate. }
    destruct cleaned as [|c rest]; [contradiction|].
    apply Hin. apply max_by_In.
Qed.

(** X10 -- The choice among the cleaned case numbers goes by keyword
    first and by length second: either the result holds a keyword of
    the priority list and no cleaned candidate holds a keyword listed
    before it, or no cleaned candidate holds any keyword and the result
    is at least as long as every cleaned candidate. *)
Theorem case_number_priority (case_numbers : list str) (c : str) :
  select_primary_case_number case_numbers = Some c ->
  (exists p ps1 ps2,
     priorities = ps1 ++ p :: ps2 /\
     Str.contains p (Str.lower c) = true /\
     forall q c', In q ps1 -> In c' (cleaned_case_numbers case_numbers) ->
                  Str.contains q (Str.lower c') = false)
  \/ ((forall q c', In q priorities -> In c' (cleaned_case_numbers case_numbers) ->
                    Str.contains q (Str.lower c') = false) /\
      forall c', In c' (cleaned_case_numbers case_numbers) ->
                 List.length c' <= List.length c).
Proof.
  unfold select_primary_case_number.
  destruct case_numbers as [|c0 cs]; [discriminate|]. cbv zeta.
  set (cleaned := cleaned_case_numbers (c0 :: cs)).
  pose proof (by_priority_spec cleaned priorities) as Hp.
  destruct (by_priority priorities cleaned) as [c1|].
  - intros H. injection H as <-.
    destruct Hp as (p & ps1 & ps2 & E & _ & H2 & H3).
    left. exists p, ps1, ps2. auto.
  - destruct cleaned as [|c1 rest] eqn:Ec; [discriminate|].
    intros H. injection H as <-. right. split; [exact Hp|].
    intros c' Hc'. apply (max_by_max (@List.length ascii)). exact Hc'.
Qed.

Lemma case_number_priority_witness :
  let case_numbers := [L "SLP 55/2019"; L " Civil Appeal No. 9 of 2020 "] in
  let c := L "Civil Appeal No. 9 of 2020" in
  select_primary_case_number case_numbers = Some c /\
  ((exists p ps1 ps2,
      priorities = ps1 ++ p :: ps2 /\
      Str.contains p (Str.lower c) = true /\
      forall q c', In q ps1 -> In c' (cleaned_case_numbers case_numbers) ->
                   Str.contains q (Str.lower c') = false)
   \/ ((forall q c', In q priorities -> In c' (cleaned_case_numbers case_numbers) ->
                     Str.contains q (Str.lower c') = false) /\
       forall c', In c' (cleaned_case_numbers case_numbers) ->
                  List.length c' <= List.length c)).
Proof.
  intros case_numbers c.
  assert (H : select_primary_case_number case_numbers = Some c)
    by (vm_compute; reflexivity).
  split; [exact H | exact (case_number_priority case_numbers c H)].
Defined.

(** X28 -- The court returned by [select_primary_court] is the
    standard form of a candidate with the highest authority score: no
    cleaned candidate scores higher than the one it is made from (and
    among equals the first wins).  The result is trimmed. *)
Theorem primary_court_highest_score (courts : list str) (c : str) :
  select_primary_court courts = Ret (Some c) ->
  Str.strip c = c /\
  exists u, In u (unique_courts courts) /\ c = standard_court_name u /\
            forall u', In u' (unique_courts courts) -> score u' <= score u.
Proof.
  unfold select_primary_court. destruct courts as [|c0 cs]; [discriminate|].
  destruct (unique_courts (c0 :: cs)) as [|u us]; [discriminate|].
  intros H. apply AppFacts.Ret_inj in H. apply AppFacts.some_inj in H.
  subst c. split; [apply strip_strip|].
  exists (max_by score u us).
  split; [apply max_by_In | split; [reflexivity | apply max_by_max]].
Qed.

Lemma primary_court_highest_score_witness :
  let courts := [L "District Court of Pune"; L "High Court of Judicature at Madras";
                 L "HIGH COURT OF BOMBAY"] in
  let c := L "High Court of Madras" in
  Str.strip c = c /\
  exists u, In u (unique_courts courts) /\ c = standard_court_name u /\
            forall u', In u' (unique_courts courts) -> score u' <= score u.
Proof.
  intros courts c.
  apply (primary_court_highest_score courts c). vm_compute. reflexivity.
Defined.

(** *** Dates *)

Lemma date_candidates_In (dates : list str) : forall seen d,
  In d (date_candidates dates seen) -> In d (map Str.strip dates) /\ d <> [].
Proof.
  induction dates as [|x dates IH]; intros seen d H; simpl in H; [contradiction|].
  destruct (Str.is_empty (Str.strip x)) eqn:E.
  - destruct (IH _ _ H). split; [right|]; assumption.
  - destruct (existsb _ seen).
    + destruct (IH _ _ H). split; [right|]; assumption.
    + destruct H as [<- | H].
      * split; [left; reflexivity|]. intros X. rewrite X in E. discriminate E.
      * destruct (IH _ _ H). split; [right|]; assumption.
Qed.

Lemma date_candidates_nil (dates : list str) :
  date_candidates dates [] = [] -> Forall (fun d => Str.strip d = []) dates.
Proof.
  induction dates as [|x dates IH]; simpl; [constructor|].
  destruct (Str.strip x) as [|c s] eqn:E; simpl; [|discriminate].
  intros H. constructor; [exact E | exact (IH H)].
Qed.

(** X11 -- [select_primary_date] never invents a date: what it
    returns is one of the given strings, trimmed, and not empty; and it
    returns nothing only when every given string is blank (or none is
    given). *)
Theorem primary_date_from_input (now : date) (dates : list str)
  (header_text : option str) :
  match select_primary_date now dates header_text with
  | Some d => In d (map Str.strip dates) /\ d <> []
  | None => Forall (fun d => Str.strip d = []) dates
  end.
Proof.
  unfold select_primary_date. destruct dates as [|d0 ds]; [constructor|].
  cbv zeta. set (cands := date_candidates (d0 :: ds) []).
  assert (Hc : forall d, In d cands -> In d (map Str.strip (d0 :: ds)) /\ d <> []).
  { intros d. apply date_candidates_In. }
  set (in_header := match header_text with Some h => _ | None => None end).
  assert (Hh : forall d, in_header = Some d -> In d cands).
  { unfold in_header. intros d H. destruct header_text as [h|]; [|discriminate].
    destruct (Str.truthy h); [|discriminate].
    apply find_some in H. tauto. }
  destruct in_header as [d|]; [apply Hc; apply Hh; reflexivity|].
  destruct (valid_dates now cands) as [|v vs] eqn:Ev.
  - destruct cands as [|c cs] eqn:Ec; simpl.
    + apply date_candidates_nil. exact Ec.
    + apply Hc. left. reflexivity.
  - apply Hc. pose proof (DateFacts.latest_in vs v) as Hl. rewrite <- Ev in Hl.
    destruct (latest v vs) as [s dt]. apply DateFacts.valid_dates_In in Hl.
    simpl. tauto.
Qed.

Lemma strptime_valid (s : str) (fmt : list directive) (d : date) :
  strptime s fmt = Some d -> valid_date (year d) (month d) (day d) = true.
Proof.
  unfold strptime.
  destruct (match_ I _ s) as [m|]; [|discriminate].
  destruct (negb _); [discriminate|]. cbv zeta.
  match goal with
  | |- match ?X with _ => _ end = _ -> _ => destruct X as [mo|]; [|discriminate]
  end.
  match goal with
  | |- (if valid_date ?y ?m' ?d' then _ else _) = _ -> _ =>
      destruct (valid_date y m' d') eqn:V; [|discriminate]
  end.
  intros H. injection H as <-. simpl. exact V.
Qed.

Lemma first_format_valid (s : str) (fs : list (list directive)) (d : date) :
  first_format s fs = Some d -> valid_date (year d) (month d) (day d) = true.
Proof.
  induction fs as [|f fs IH]; simpl; [discriminate|].
  destruct (strptime s f) as [dt|] eqn:E; [|exact IH].
  intros H. injection H as <-. exact (strptime_valid _ _ _ E).
Qed.

(** A date returned by [_try_parse_date] is a date of the calendar,
    as [strptime] only returns such dates. *)
Lemma parsed_date_valid (s : str) :
  match _try_parse_date s with
  | Some d => valid_date (year d) (month d) (day d) = true
  | None => True
  end.
Proof.
  unfold _try_parse_date. cbv zeta.
  destruct (Str.is_empty (Str.strip s)); [exact Logic.I|].
  set (s' := sub_with I re_ordinal _ _).
  destruct (first_format s' fmts) as [dt|] eqn:E;
    [exact (first_format_valid _ _ _ E)|].
  destruct (search no_flags re_day_month_year s') as [m|]; [|exact Logic.I].
  set (t := _ ++ _).
  destruct (strptime t [D_d; D_ws; D_B; D_ws; D_Y]) as [dt|] eqn:E1;
    [exact (strptime_valid _ _ _ E1)|].
  destruct (strptime t [D_d; D_ws; D_b; D_ws; D_Y]) as [dt|] eqn:E2;
    [exact (strptime_valid _ _ _ E2) | exact Logic.I].
Qed.

(** *** Case names *)

Lemma rstrip_keep_last (p : ascii -> bool) (s : str) :
  s <> [] -> p (last s Chr.SP) = false -> Str.rstrip_by p s = s.
Proof.
  intros Hne Hl. rewrite (app_removelast_last Chr.SP Hne) at 1 2.
  unfold Str.rstrip_by. rewrite rev_app_distr. simpl. rewrite Hl.
  simpl. rewrite rev_involutive. reflexivity.
Qed.

Lemma strip_keep (p : ascii -> bool) (c : ascii) (s : str) :
  p c = false -> p (last (c :: s) Chr.SP) = false ->
  Str.strip_by p (c :: s) = c :: s.
Proof.
  intros Hc Hl. unfold Str.strip_by, Str.lstrip_by. simpl. rewrite Hc.
  apply rstrip_keep_last; [discriminate | exact Hl].
Qed.

Lemma strip_head (s : str) (c : ascii) (t : str) :
  Str.strip s = c :: t -> Chr.is_space c = false.
Proof.
  unfold Str.strip, Str.strip_by, Str.lstrip_by. intros H.
  assert (Hin : In c (Str.dropwhile Chr.is_space s)).
  { apply (rstrip_incl Chr.is_space). rewrite H. left. reflexivity. }
  destruct (Str.dropwhile Chr.is_space s) as [|h u] eqn:E; [contradiction|].
  pose proof (dropwhile_head _ _ _ _ E) as Hh.
  destruct (Chr.is_space c) eqn:Sc; [|reflexivity].
  exfalso.
  assert (h = c).
  { rewrite (rstrip_cons_keep Chr.is_space h u Hh) in H. injection H as H _. exact H. }
  congruence.
Qed.

(** X13 -- A case name returned by [normalize_case_name] is never
    empty and carries no white space at either end. *)
Theorem normalized_case_name_trimmed (name : option str) :
  match normalize_case_name name with
  | Some cn => cn <> [] /\ Str.strip cn = cn
  | None => True
  end.
Proof.
  destruct (normalize_case_name name) as [cn|] eqn:E; [|exact Logic.I].
  destruct (AppFacts.normalize_case_name_last _ _ E) as [Hne Hl].
  split; [exact Hne|].
  unfold normalize_case_name in E. destruct name as [n0|]; [|discriminate].
  destruct (Str.is_empty n0); [discriminate|]. cbv zeta in E.
  set (n := Str.strip _) in E.
  destruct (Str.truthy n); [|discriminate]. injection E as E.
  destruct n as [|c rest] eqn:En; [subst cn; contradiction|].
  pose proof (strip_head _ _ _ En) as Hc.
  assert (Hfirst : exists c' t, cn = c' :: t /\ Chr.is_space c' = false).
  { subst cn. unfold capitalize_first. destruct rest as [|c2 rest].
    - cbn [List.length Nat.ltb Nat.leb Str.upper flat_map].
      destruct (Chr.code c =? 223).
      + exists "S"%char, (L "S"). split; reflexivity.
      + exists (Chr.upper1 c), []. split; [reflexivity|].
        apply AppFacts.upper1_not_space. exact Hc.
    - cbn [List.length Nat.ltb Nat.leb Str.upper flat_map].
      destruct (Chr.code c =? 223).
      + exists "S"%char, (L "S" ++ c2 :: rest). split; reflexivity.
      + exists (Chr.upper1 c), (c2 :: rest). split; [reflexivity|].
        apply AppFacts.upper1_not_space. exact Hc. }
  destruct Hfirst as (c' & t & -> & Hc').
  unfold Str.strip. apply strip_keep; assumption.
Qed.

(** X14 -- A case name found by [extract_case_name_from_header] has
    one of two shapes: two party names of at least three characters
    each around " v. ", or "In Re " followed by a name. *)
Theorem case_name_shape (header : str) :
  match extract_case_name_from_header header with
  | Some n =>
      (exists l r, n = l ++ L " v. " ++ r /\
                   3 <= List.length l /\ 3 <= List.length r)
      \/ (exists x, n = L "In Re " ++ x)
  | None => True
  end.
Proof.
  assert (Hb : forall l r, both_long l r = true ->
                           3 <= List.length l /\ 3 <= List.length r).
  { intros l r H. unfold both_long in H.
    rewrite !Bool.andb_true_iff, !Nat.leb_le in H. tauto. }
  assert (Hs : forall text,
             match standard_name text with
             | Some n =>
                 (exists l r, n = l ++ L " v. " ++ r /\
                              3 <= List.length l /\ 3 <= List.length r)
                 \/ (exists x, n = L "In Re " ++ x)
             | None => True
             end).
  { intros text. unfold standard_name.
    destruct (search I pattern text) as [m|].
    - destruct (sides text m) as [l r].
      destruct (both_long l r) eqn:B; [|exact Logic.I].
      left. exists l, r. split; [reflexivity | exact (Hb _ _ B)].
    - destruct (search I re_in_re text) as [m|]; [|exact Logic.I].
      right. eexists. reflexivity. }
  unfold extract_case_name_from_header.
  destruct (Str.is_empty header); [exact Logic.I|]. cbv zeta.
  set (text := Str.strip (sub no_flags (plus space) (L " ") _)).
  destruct (search I versus_pattern text) as [m|]; [|apply Hs].
  destruct (sides text m) as [l r].
  destruct (both_long l r) eqn:B; [|apply Hs].
  left. exists l, r. split; [reflexivity | exact (Hb _ _ B)].
Qed.

End SelectorProperties.

(** ** postprocessing.py *)

Module FusionProperties.
Import StrFacts DictFacts FusionFacts Postprocessing.

Lemma mem_get (V : Type) (k : str) (d : Dict.t V) :
  Dict.mem k d = true <-> Dict.get k d <> None.
Proof.
  unfold Dict.mem. destruct (Dict.get k d); split; congruence.
Qed.

Lemma mem_party_fallback (final : Dict.t (list str)) (k : str) :
  Dict.mem k final = true -> Dict.mem k (party_fallback final) = true.
Proof.
  rewrite !mem_get. intros H.
  destruct (get_party_fallback final k) as (tail & Ht & _). rewrite Ht.
  destruct (_ || _); [|exact H]. destruct tail; [exact H | discriminate].
Qed.

Lemma mem_set (V : Type) (k k' : str) (v : V) (d : Dict.t V) :
  Dict.mem k' d = true -> Dict.mem k' (Dict.set k v d) = true.
Proof.
  rewrite !mem_get, get_set. destruct (Str.eqb k' k); [discriminate | auto].
Qed.

Lemma mem_set_same (V : Type) (k : str) (v : V) (d : Dict.t V) :
  Dict.mem k (Dict.set k v d) = true.
Proof. rewrite mem_get, get_set_same. discriminate. Qed.

Lemma mem_add_extras (final : Dict.t (list str)) (k : str) :
  Dict.mem k final = true \/ In k extra_keys -> Dict.mem k (add_extras final) = true.
Proof.
  unfold add_extras. cbv zeta. intros [H | H].
  - repeat apply mem_set. exact H.
  - destruct H as [<- | [<- | [<- | []]]].
    + do 2 apply mem_set. apply mem_set_same.
    + apply mem_set. apply mem_set_same.
    + apply mem_set_same.
Qed.

Lemma mem_ensure (final : Dict.t (list str)) (k : str) :
  In k expected -> Dict.mem k (ensure_expected final) = true.
Proof.
  intros H. rewrite mem_get, get_ensure.
  destruct (Dict.get k final); [discriminate|].
  replace (existsb (Str.eqb k) expected) with true; [discriminate|].
  symmetry. apply existsb_exists. exists k. split; [exact H | apply str_eqb_refl].
Qed.

(** X15 -- The table returned by [merge_entities] always holds the
    twelve expected labels and the three [extra_] keys, whatever the
    candidates: a reader of the table never meets a missing key among
    them. *)
Theorem merge_entities_keys (set_order : list str -> list str)
  (b s : list (str * str)) :
  Forall (fun k => Dict.mem k (merge_entities set_order b s) = true)
    (expected ++ extra_keys).
Proof.
  apply Forall_forall. intros k Hk. rewrite merge_entities_unfold. unfold finish.
  apply mem_party_fallback. apply mem_add_extras.
  apply in_app_or in Hk. destruct Hk as [Hk | Hk]; [left | right; exact Hk].
  apply mem_ensure. exact Hk.
Qed.

Ltac neq_keys := let X := fresh in intros X; vm_compute in X; discriminate X.

Lemma extras_tl (k : str) (final : Dict.t (list str)) :
  extras k final = tl (Dict.get_or k [] final).
Proof.
  unfold extras. cbv zeta. destruct (Dict.get_or k [] final) as [|x [|y l]]; reflexivity.
Qed.

Lemma get_party_fallback_other (final : Dict.t (list str)) (k : str) :
  is_party_key k = false ->
  Dict.get k (party_fallback final) = Dict.get k final.
Proof.
  intros H. destruct (get_party_fallback final k) as (tail & Ht & _).
  unfold is_party_key in H. rewrite H in Ht. exact Ht.
Qed.

Lemma get_or_set_other (V : Type) (k k' : str) (v default : V) (d : Dict.t V) :
  k' <> k -> Dict.get_or k' default (Dict.set k v d) = Dict.get_or k' default d.
Proof. intros H. unfold Dict.get_or. rewrite get_set_other by exact H. reflexivity. Qed.

Lemma extras_are_tails (set_order : list str -> list str)
  (b s : list (str * str)) :
  Dict.get (L "extra_case_numbers") (merge_entities set_order b s)
  = Some (tl (Dict.get_or (L "case_number") [] (merge_entities set_order b s)))
  /\ Dict.get (L "extra_courts") (merge_entities set_order b s)
     = Some (tl (Dict.get_or (L "court") [] (merge_entities set_order b s)))
  /\ Dict.get (L "extra_dates") (merge_entities set_order b s)
     = Some (tl (Dict.get_or (L "date") [] (merge_entities set_order b s))).
Proof.
  rewrite merge_entities_unfold. unfold finish.
  generalize (ensure_expected (fused_table set_order b s)). intros E.
  unfold Dict.get_or at 1 2 3.
  rewrite !get_party_fallback_other by (vm_compute; reflexivity).
  unfold add_extras. cbv zeta. rewrite !extras_tl.
  repeat split.
  - rewrite !get_set_other by neq_keys. rewrite get_set_same.
    unfold Dict.get_or. rewrite !get_set_other by neq_keys. reflexivity.
  - rewrite (get_set_other _ (L "extra_dates") (L "extra_courts")) by neq_keys.
    rewrite get_set_same.
    unfold Dict.get_or. rewrite !get_set_other by neq_keys. reflexivity.
  - rewrite get_set_same.
    unfold Dict.get_or. rewrite !get_set_other by neq_keys. reflexivity.
Qed.

(** X16 -- The three compatibility lists are the tails of the lists
    they are derived from: [extra_case_numbers], [extra_courts] and
    [extra_dates] hold the case numbers, courts and dates of the result
    after the first one (nothing when there is at most one). *)
Theorem extra_lists_are_tails (set_order : list str -> list str)
  (b s : list (str * str)) :
  Dict.get (L "extra_case_numbers") (merge_entities set_order b s)
  = Some (tl (Dict.get_or (L "case_number") [] (merge_entities set_order b s)))
  /\ Dict.get (L "extra_courts") (merge_entities set_order b s)
     = Some (tl (Dict.get_or (L "court") [] (merge_entities set_order b s)))
  /\ Dict.get (L "extra_dates") (merge_entities set_order b s)
     = Some (tl (Dict.get_or (L "date") [] (merge_entities set_order b s))).
Proof. apply extras_are_tails. Qed.

(** *** No value twice *)

Lemma clean_loop_fresh (key : str) (l : list str) : forall seen v,
  In v (clean_loop key l seen) -> ~ In (Str.lower v) seen.
Proof.
  induction l as [|x l IH]; intros seen v H; simpl in H; [contradiction|].
  destruct (clean_value key x) as [v2|]; [|exact (IH _ _ H)].
  destruct (existsb (Str.eqb (Str.lower v2)) seen) eqn:E; [exact (IH _ _ H)|].
  destruct H as [<- | H].
  - intros Hin.
    assert (X : existsb (Str.eqb (Str.lower v2)) seen = true).
    { apply existsb_exists. exists (Str.lower v2). split; [exact Hin | apply str_eqb_refl]. }
    congruence.
  - intros Hin. apply (IH _ _ H). right. exact Hin.
Qed.

Lemma clean_loop_NoDup (key : str) (l : list str) : forall seen,
  NoDup (map Str.lower (clean_loop key l seen)).
Proof.
  induction l as [|x l IH]; intros seen; simpl; [constructor|].
  destruct (clean_value key x) as [v2|]; [|apply IH].
  destruct (existsb (Str.eqb (Str.lower v2)) seen); [apply IH|].
  simpl. constructor; [|apply IH].
  intros Hin. apply in_map_iff in Hin. destruct Hin as (v & Hv & Hin).
  apply (clean_loop_fresh _ _ _ _ Hin). rewrite Hv. left. reflexivity.
Qed.

Lemma get_append_cases (k k0 : str) (x : str) (d : Dict.t (list str)) (l : list str) :
  Dict.get k (Dict.append k0 x d) = Some l ->
  Dict.get k d = Some l \/ l = Dict.get_or k0 [] d ++ [x].
Proof.
  rewrite get_append. destruct (Str.eqb k k0); [|auto].
  intros H. injection H as <-. right. reflexivity.
Qed.

(** Step 6 leaves a list as it is or makes it a list of one name. *)
Lemma party_fallback_get (final : Dict.t (list str)) (k : str) (l : list str) :
  Dict.get k (party_fallback final) = Some l ->
  Dict.get k final = Some l \/ exists p, l = [p].
Proof.
  unfold party_fallback.
  destruct (negb (truthy_list (Dict.get_or (L "petitioner") [] final))) eqn:Ep;
    [|left; assumption].
  destruct (negb (truthy_list (Dict.get_or (L "respondent") [] final))) eqn:Er;
    [|left; assumption].
  apply truthy_list_false in Ep. apply truthy_list_false in Er. cbn [andb].
  destruct (_infer_parties_from_case_name _) as [pet resp].
  set (f1 := match pet with
             | Some p0 => if Str.truthy p0
                          then Dict.append (L "petitioner") p0 final else final
             | None => final
             end).
  assert (H1 : forall l', Dict.get k f1 = Some l' ->
                          Dict.get k final = Some l' \/ exists p, l' = [p]).
  { intros l' H. unfold f1 in H. destruct pet as [p0|]; [|left; exact H].
    destruct (Str.truthy p0); [|left; exact H].
    apply get_append_cases in H. destruct H as [H | H]; [left; exact H|].
    right. exists p0. rewrite Ep in H. exact H. }
  assert (Hr : Dict.get_or (L "respondent") [] f1 = []).
  { unfold f1. destruct pet as [p0|]; [|exact Er].
    destruct (Str.truthy p0); [|exact Er].
    unfold Dict.get_or, Dict.append.
    rewrite get_set_other by neq_keys. exact Er. }
  intros H. destruct resp as [p1|]; [|exact (H1 _ H)].
  destruct (Str.truthy p1); [|exact (H1 _ H)].
  apply get_append_cases in H. destruct H as [H | H]; [exact (H1 _ H)|].
  right. exists p1. rewrite Hr in H. exact H.
Qed.

Lemma NoDup_lower_tl (l : list str) :
  NoDup (map Str.lower l) -> NoDup (map Str.lower (tl l)).
Proof. destruct l as [|x l]; simpl; [auto|]. intros H. inversion H. assumption. Qed.

Lemma fused_NoDup (set_order : list str -> list str) (b s : list (str * str))
  (k : str) (l : list str) :
  ~ In k extra_keys ->
  Dict.get k (merge_entities set_order b s) = Some l -> NoDup (map Str.lower l).
Proof.
  intros Hx. rewrite merge_entities_unfold. unfold finish. intros H.
  apply party_fallback_get in H.
  destruct H as [H | (p & ->)]; [|simpl; constructor; [intros [] | constructor]].
  rewrite (get_add_extras _ _ Hx), get_ensure, get_fused_table in H.
  destruct (items_for k (contribs bert_item b) ++ items_for k (contribs spacy_item s))
    as [|i0 il].
  - destruct (existsb (Str.eqb k) expected); [|discriminate].
    injection H as <-. constructor.
  - injection H as <-. unfold fuse. cbv zeta. apply clean_loop_NoDup.
Qed.

(** X17 -- No list of the table returned by [merge_entities] holds a
    value twice, values being compared without regard to case. *)
Theorem fused_lists_deduplicated (set_order : list str -> list str)
  (b s : list (str * str)) (k : str) :
  match Dict.get k (merge_entities set_order b s) with
  | Some l => NoDup (map Str.lower l)
  | None => True
  end.
Proof.
  destruct (Dict.get k (merge_entities set_order b s)) as [l|] eqn:G;
    [|exact Logic.I].
  destruct (in_dec (list_eq_dec ascii_dec) k extra_keys) as [Hx | Hx].
  - pose proof (extras_are_tails set_order b s) as (T1 & T2 & T3).
    assert (Hsrc : forall k0, ~ In k0 extra_keys ->
                     NoDup (map Str.lower
                              (Dict.get_or k0 [] (merge_entities set_order b s)))).
    { intros k0 H0. unfold Dict.get_or.
      destruct (Dict.get k0 (merge_entities set_order b s)) as [l0|] eqn:G0;
        [exact (fused_NoDup _ _ _ _ _ H0 G0) | constructor]. }
    destruct Hx as [<- | [<- | [<- | []]]].
    + rewrite T1 in G. apply AppFacts.some_inj in G. rewrite <- G. apply NoDup_lower_tl.
      apply Hsrc.
      intros [X | [X | [X | []]]]; vm_compute in X; discriminate X.
    + rewrite T2 in G. apply AppFacts.some_inj in G. rewrite <- G. apply NoDup_lower_tl.
      apply Hsrc.
      intros [X | [X | [X | []]]]; vm_compute in X; discriminate X.
    + rewrite T3 in G. apply AppFacts.some_inj in G. rewrite <- G. apply NoDup_lower_tl.
      apply Hsrc.
      intros [X | [X | [X | []]]]; vm_compute in X; discriminate X.
  - exact (fused_NoDup _ _ _ _ _ Hx G).
Qed.

(** *** The order of a set *)

Lemma sorted_unique (l1 : list str) : forall l2,
  StronglySorted longer_first l1 -> StronglySorted longer_first l2 ->
  Permutation l1 l2 -> NoDup (map (@List.length ascii) l1) -> l1 = l2.
Proof.
  induction l1 as [|a l1 IH]; intros l2 S1 S2 P N.
  - apply Permutation_nil in P. symmetry. exact P.
  - destruct l2 as [|b l2];
      [apply Permutation_sym, Permutation_nil in P; discriminate P|].
    apply StronglySorted_inv in S1. destruct S1 as [S1 F1].
    apply StronglySorted_inv in S2. destruct S2 as [S2 F2].
    simpl in N. inversion N as [|? ? Na N']; subst.
    assert (E : a = b).
    { destruct (list_eq_dec ascii_dec a b) as [E | E]; [exact E|]. exfalso.
      assert (Ha : In a l2).
      { destruct (Permutation_in a P (or_introl eq_refl)) as [X | X];
          [congruence | exact X]. }
      assert (Hb : In b l1).
      { destruct (Permutation_in b (Permutation_sym P) (or_introl eq_refl)) as [X | X];
          [congruence | exact X]. }
      rewrite Forall_forall in F1, F2.
      pose proof (F1 b Hb) as X1. pose proof (F2 a Ha) as X2.
      unfold longer_first in X1, X2.
      apply Na. apply in_map_iff. exists b. split; [lia | exact Hb]. }
    subst b. f_equal. apply IH; try assumption.
    exact (Permutation_cons_inv P).
Qed.

(** X18 -- The fuzzy deduplication depends on the iteration order of
    the set of candidates only through candidates of equal length: when
    the distinct candidates have pairwise different lengths, every
    iteration order of the set gives the same result. *)
Theorem dedup_order_independent (so1 so2 : list str -> list str)
  (precedents : list str) :
  (forall l, Permutation (so1 l) l) -> (forall l, Permutation (so2 l) l) ->
  NoDup (map (@List.length ascii) (distinct [] precedents)) ->
  _deduplicate_precedents so1 precedents = _deduplicate_precedents so2 precedents.
Proof.
  intros P1 P2 N. unfold _deduplicate_precedents.
  destruct precedents as [|p0 ps]; [reflexivity|]. cbv zeta.
  set (X := distinct [] (p0 :: ps)) in *.
  replace (sorted_by_len_desc (so2 X)) with (sorted_by_len_desc (so1 X));
    [reflexivity|].
  apply sorted_unique.
  - apply PrecedentFacts.sorted_by_len_desc_sorted.
  - apply PrecedentFacts.sorted_by_len_desc_sorted.
  - rewrite !PrecedentFacts.sorted_by_len_desc_perm, P1, P2. reflexivity.
  - apply (Permutation_NoDup (l := map (@List.length ascii) X)); [|exact N].
    apply Permutation_map. symmetry.
    rewrite PrecedentFacts.sorted_by_len_desc_perm. apply P1.
Qed.

Lemma dedup_order_independent_witness :
  _deduplicate_precedents insertion_order
    [L "Ram Kumar v. State of Kerala"; L "Shyam Lal Gupta v. Union of India"]
  = _deduplicate_precedents (@rev str)
      [L "Ram Kumar v. State of Kerala"; L "Shyam Lal Gupta v. Union of India"].
Proof.
  apply (dedup_order_independent insertion_order (@rev str)).
  - intros l. reflexivity.
  - intros l. symmetry. apply Permutation_rev.
  - vm_compute. constructor; [|constructor; [intros [] | constructor]].
    intros [H | []]. discriminate H.
Defined.

(** *** Thresholds *)

Lemma fused_origin (set_order : list str -> list str) (b s : list (str * str))
  (k : str) (v : str) :
  ~ In k extra_keys -> is_party_key k = false ->
  In v (Dict.get_or k [] (merge_entities set_order b s)) ->
  exists v0, clean_value k v0 = Some v.
Proof.
  intros Hx Hp. unfold Dict.get_or.
  rewrite merge_entities_unfold, (get_finish_other _ _ Hx Hp), get_ensure,
          get_fused_table.
  destruct (items_for k (contribs bert_item b) ++ items_for k (contribs spacy_item s))
    as [|i0 il].
  - destruct (existsb (Str.eqb k) expected); intros [].
  - unfold fuse. cbv zeta. intros H.
    destruct (clean_loop_origin _ _ _ _ H) as (v0 & _ & Hv). exists v0. exact Hv.
Qed.

Lemma clean_value_statute (v v2 : str) :
  clean_value (L "statute") v = Some v2 -> 6 <= List.length v2.
Proof.
  unfold clean_value. destruct (Str.is_empty v); [discriminate|].
  change (Str.eqb (L "statute") (L "coram")) with false.
  change (is_party_key (L "statute")) with false.
  change (Str.eqb (L "statute") (L "organization")) with false.
  change (Str.eqb (L "statute") (L "lawyer")) with false.
  change (Str.eqb (L "statute") (L "statute")) with true.
  cbv beta iota. cbn [andb].
  destruct (List.length (Str.strip_chars (L ".,;:") (Str.strip v)) <? 6) eqn:E;
    [discriminate|].
  change (Str.eqb (L "statute") (L "precedent")) with false. cbn [andb].
  intros H. injection H as <-. apply Nat.ltb_ge in E. exact E.
Qed.

(** X19 -- Every statute in the table returned by [merge_entities]
    has at least six characters. *)
Theorem fused_statutes_long (set_order : list str -> list str)
  (b s : list (str * str)) :
  Forall (fun v => 6 <= List.length v)
    (Dict.get_or (L "statute") [] (merge_entities set_order b s)).
Proof.
  apply Forall_forall. intros v Hv.
  destruct (fused_origin set_order b s (L "statute") v) as (v0 & H0);
    [intros [X | [X | [X | []]]]; vm_compute in X; discriminate X
    | vm_compute; reflexivity | exact Hv |].
  exact (clean_value_statute _ _ H0).
Qed.

Lemma clean_value_lawyer (v v2 : str) :
  clean_value (L "lawyer") v = Some v2 -> _is_probable_lawyer v2 = true.
Proof.
  unfold clean_value. destruct (Str.is_empty v); [discriminate|].
  change (Str.eqb (L "lawyer") (L "coram")) with false.
  change (is_party_key (L "lawyer")) with false.
  change (Str.eqb (L "lawyer") (L "organization")) with false.
  change (Str.eqb (L "lawyer") (L "lawyer")) with true.
  cbv beta iota.
  match goal with
  | |- context [_is_probable_lawyer ?x] => destruct (_is_probable_lawyer x) eqn:E
  end; [|discriminate].
  change (Str.eqb (L "lawyer") (L "statute")) with false.
  change (Str.eqb (L "lawyer") (L "precedent")) with false. cbn [andb].
  intros H. injection H as <-. exact E.
Qed.

(** X20 -- Every lawyer in the table returned by [merge_entities]
    passes [_is_probable_lawyer]: the name has at least two words and
    four characters and holds no word of the organisation list. *)
Theorem fused_lawyers_probable (set_order : list str -> list str)
  (b s : list (str * str)) :
  Forall (fun v => _is_probable_lawyer v = true /\
                   2 <= List.length (Str.words v) /\ 4 <= List.length v)
    (Dict.get_or (L "lawyer") [] (merge_entities set_order b s)).
Proof.
  apply Forall_forall. intros v Hv.
  destruct (fused_origin set_order b s (L "lawyer") v) as (v0 & H0);
    [intros [X | [X | [X | []]]]; vm_compute in X; discriminate X
    | vm_compute; reflexivity | exact Hv |].
  pose proof (clean_value_lawyer _ _ H0) as H. split; [exact H|].
  unfold _is_probable_lawyer in H.
  destruct (Str.is_empty v); [discriminate|].
  destruct (Nat.ltb_spec (List.length (Str.words v)) 2); [discriminate|].
  destruct (Re.found Re.I re_organisation_word v); [discriminate|].
  destruct (Nat.ltb_spec (List.length v) 4); [discriminate|]. lia.
Qed.

(** *** Empty candidates *)

Lemma bert_item_empty (label : str) : bert_item (label, []) = None.
Proof. reflexivity. Qed.

Lemma bert_item_tag_only (label : str) : bert_item (label, L " [header]") = None.
Proof. reflexivity. Qed.

Lemma spacy_item_empty (label : str) : spacy_item (label, []) = None.
Proof. reflexivity. Qed.

Lemma contribs_skip (f : str * str -> option (str * (str * str)))
  (l1 l2 : list (str * str)) (x : str * str) :
  f x = None -> contribs f (l1 ++ x :: l2) = contribs f (l1 ++ l2).
Proof.
  intros H. rewrite !contribs_app. f_equal. unfold contribs. simpl. rewrite H.
  reflexivity.
Qed.

(** X21 -- Candidates without text change nothing: an empty value in
    either list given to [merge_entities], or a tagger value that
    consists of the zone tag alone, can be removed without changing the
    result. *)
Theorem empty_candidates_ignored (set_order : list str -> list str)
  (b1 b2 s1 s2 : list (str * str)) (label : str) :
  merge_entities set_order (b1 ++ (label, []) :: b2) (s1 ++ s2)
  = merge_entities set_order (b1 ++ b2) (s1 ++ s2)
  /\ merge_entities set_order (b1 ++ (label, L " [header]") :: b2) (s1 ++ s2)
     = merge_entities set_order (b1 ++ b2) (s1 ++ s2)
  /\ merge_entities set_order (b1 ++ b2) (s1 ++ (label, []) :: s2)
     = merge_entities set_order (b1 ++ b2) (s1 ++ s2).
Proof.
  rewrite !merge_entities_unfold. unfold fused_table. rewrite !accum_closed.
  split; [|split].
  - rewrite (contribs_skip bert_item b1 b2) by reflexivity. reflexivity.
  - rewrite (contribs_skip bert_item b1 b2) by reflexivity. reflexivity.
  - rewrite (contribs_skip spacy_item s1 s2) by reflexivity. reflexivity.
Qed.

End FusionProperties.

(** ** segmenter.py *)

Module SegmenterProperties.
Import StrFacts Segmenter.

(** X22 -- The three zones returned by [split_segments] are trimmed:
    none begins or ends with white space, also when the order is cut
    out of the body by the "Held:" or "ORDER" heuristic. *)
Theorem segments_trimmed (text : str) :
  Str.strip (header (split_segments text)) = header (split_segments text)
  /\ Str.strip (body (split_segments text)) = body (split_segments text)
  /\ Str.strip (order (split_segments text)) = order (split_segments text).
Proof.
  unfold split_segments. cbv zeta.
  destruct (Str.is_empty _ && _).
  - destruct (Re.search Re.IS re_embedded_order _) as [m|];
      cbn [header body order]; repeat split; apply strip_strip.
  - cbn [header body order]. repeat split; apply strip_strip.
Qed.

Lemma step_header_bound (b : buffers) (raw : str) :
  List.length (header_lines b) <= 51 ->
  List.length (header_lines (step b raw)) <= 51.
Proof.
  intros H. unfold step. cbv zeta.
  destruct (Str.is_empty _).
  - destruct (is_body (state b) && _); [simpl; exact H | exact H].
  - destruct (if _looks_like_order_start _ then Order else state b);
      [|simpl; exact H | simpl; exact H].
    destruct (Re.found Re.I re_body_opening _); [simpl; exact H|].
    destruct (Nat.ltb_spec 50 (List.length (header_lines b))); [simpl; exact H|].
    destruct (negb _ && _); [simpl; exact H|].
    simpl. rewrite length_app. simpl. lia.
Qed.

Lemma fold_header_bound (lines : list str) : forall b,
  List.length (header_lines b) <= 51 ->
  List.length (header_lines (fold_left step lines b)) <= 51.
Proof.
  induction lines as [|raw lines IH]; intros b H; simpl; [exact H|].
  apply IH. apply step_header_bound. exact H.
Qed.

Lemma header_of_split (text : str) :
  header (split_segments text)
  = Str.strip (Str.join [Chr.LF]
                 (header_lines (fold_left step (Str.splitlines text) initial))).
Proof.
  unfold split_segments. cbv zeta.
  destruct (Str.is_empty _ && _); [|reflexivity].
  destruct (Re.search Re.IS re_embedded_order _); reflexivity.
Qed.

(** X25 -- The header zone never holds more than fifty-one lines:
    once the header buffer has more than fifty lines, the next line
    that is not blank opens the body. *)
Theorem header_at_most_51_lines (text : str) :
  List.length (nonblank_lines (header (split_segments text))) <= 51.
Proof.
  rewrite header_of_split.
  pose proof (SegmenterFacts.inv_final text) as [_ _ _ Ch _ _].
  rewrite (LineFacts.nbl_zone _ Ch).
  pose proof (fold_header_bound (Str.splitlines text) initial) as H.
  specialize (H ltac:(simpl; lia)).
  pose proof (filter_length_le Str.truthy
                (header_lines (fold_left step (Str.splitlines text) initial))).
  lia.
Qed.

End SegmenterProperties.

(** ** app.py *)

Module RecordProperties.
Import StrFacts Selectors App.

Lemma subseq_snoc_keep (a b : list str) (x : str) :
  subseq a b -> subseq (a ++ [x]) (b ++ [x]).
Proof.
  induction 1; simpl; [repeat constructor | constructor; assumption
                      | constructor; assumption].
Qed.

Lemma subseq_snoc_skip (a b : list str) (x : str) :
  subseq a b -> subseq a (b ++ [x]).
Proof.
  induction 1; simpl; [repeat constructor | constructor; assumption
                      | constructor; assumption].
Qed.

Lemma subseq_put (cond : bool) (k : string) (v : value) (structured : record)
  (ks : list str) :
  subseq (map fst structured) ks ->
  subseq (map fst (put cond k v structured)) (ks ++ [L k]).
Proof.
  intros H. unfold put. destruct cond.
  - rewrite map_app. apply subseq_snoc_keep. exact H.
  - apply subseq_snoc_skip. exact H.
Qed.

Lemma subseq_In (a b : list str) : subseq a b -> forall x, In x a -> In x b.
Proof.
  induction 1; intros y Hy; [contradiction| |].
  - destruct Hy as [<- | Hy]; [left; reflexivity | right; auto].
  - right. auto.
Qed.

Lemma subseq_NoDup (a b : list str) : subseq a b -> NoDup b -> NoDup a.
Proof.
  induction 1 as [|x a b H IH|x a b H IH]; intros N; [constructor| |].
  - inversion N as [|? ? Hx N']; subst. constructor; [|exact (IH N')].
    intros Hin. apply Hx. exact (subseq_In _ _ H _ Hin).
  - inversion N; subst. auto.
Qed.

Lemma assemble_keys (now : date) (case_name : option str)
  (final_output : Dict.t (list str)) (appellants respondents : list str)
  (adv_split : advocates) (background_facts : list str) (o : order_summary)
  (r : record) :
  assemble now case_name final_output appellants respondents adv_split
    background_facts o = Ret r ->
  subseq (map fst r) record_keys.
Proof.
  unfold assemble. destruct (select_primary_court _) as [court|]; [|discriminate].
  cbv zeta. intros H. apply AppFacts.Ret_inj in H. rewrite <- H. clear H r.
  unfold put_list.
  change record_keys     with (((((((((((((((@nil str) ++ [L "case_name"]) ++ [L
      "appeal_number"]) ++ [L "court"]) ++ [L "date_of_judgment"]) ++ [L "coram"]) ++ [L
      "appellants"]) ++ [L "respondent"]) ++ [L "advocates"]) ++ [L "precedents"]) ++ [L
      "provisions"]) ++ [L "statutes"]) ++ [L "lower_courts"]) ++ [L "other_dates"]) ++
      [L "content_info"]).
  repeat apply subseq_put. constructor.
Qed.

(** X23 -- The keys of an assembled record are distinct and appear in
    one fixed order: the list of keys is the list case_name,
    appeal_number, court, date_of_judgment, coram, appellants,
    respondent, advocates, precedents, provisions, statutes,
    lower_courts, other_dates, content_info with some keys left out. *)
Theorem record_keys_ordered
  (set_order : list str -> list str) (now : date)
  (legalbert_model : str -> list NerPredictor.token)
  (apply_spacy_and_regex : str -> list (str * str))
  (extract_advocates : str -> advocates)
  (extract_background_facts : str -> list str)
  (extract_order_summary : str -> order_summary)
  (text : str) (segments : Segmenter.segments) (r : record) :
  extract_full_data set_order now legalbert_model apply_spacy_and_regex
    extract_advocates extract_background_facts extract_order_summary
    text segments = Ret r ->
  subseq (map fst r) record_keys /\ NoDup (map fst r).
Proof.
  unfold extract_full_data. cbv zeta.
  destruct (parties_and_name _ _) as [[appellants respondents] case_name].
  intros H. apply assemble_keys in H. split; [exact H|].
  apply (subseq_NoDup _ _ H). vm_compute.
  repeat (constructor; [simpl; intuition discriminate|]). constructor.
Qed.

Lemma record_keys_ordered_witness :
  let text := L "Ram Kumar v. State of Kerala" ++ [Chr.LF]
              ++ L "Dated 01-01-2020 and 01-01-2024" in
  let keys := map L ["case_name"; "date_of_judgment"; "appellants"; "respondent";
                     "precedents"; "other_dates"; "content_info"]%string in
  subseq keys record_keys /\ NoDup keys.
Proof.
  intros text keys.
  assert (H : extract_full_data Postprocessing.insertion_order (Date 2026 11 3)
                (fun _ => []) (fun _ => []) (fun _ => Advocates [] []) (fun _ => [])
                (fun _ => OrderSummary (L "Not found") [] [])
                text (Segmenter.split_segments text)
              = Ret [(L "case_name", VStr (L "Ram Kumar v. State of Kerala"));
                     (L "date_of_judgment", VStr (L "01-01-2024"));
                     (L "appellants", VList [L "Ram Kumar"]);
                     (L "respondent", VStr (L "State of Kerala"));
                     (L "precedents", VList [L "Ram Kumar v. State"]);
                     (L "other_dates", VList [L "01-01-2024"]);
                     (L "content_info",
                      VObj [(L "order_summary",
                             VObj [(L "result", VStr (L "Not found"))])])])
    by (vm_compute; reflexivity).
  exact (record_keys_ordered _ _ _ _ _ _ _ _ _ _ H).
Defined.

(** X24 -- [extract_full_data] fails, with the [ValueError] raised in
    [select_primary_court], exactly when the fused table holds a court
    list that is not empty and consists of empty strings only; in every
    other case it returns a record. *)
Theorem extract_full_data_error
  (set_order : list str -> list str) (now : date)
  (legalbert_model : str -> list NerPredictor.token)
  (apply_spacy_and_regex : str -> list (str * str))
  (extract_advocates : str -> advocates)
  (extract_background_facts : str -> list str)
  (extract_order_summary : str -> order_summary)
  (text : str) (segments : Segmenter.segments) :
  extract_full_data set_order now legalbert_model apply_spacy_and_regex
    extract_advocates extract_background_facts extract_order_summary
    text segments = ValueError
  <->
  Dict.get_or (L "court") []
    (final_output_of set_order legalbert_model apply_spacy_and_regex text segments)
  <> []
  /\ Forall (fun c => c = [])
       (Dict.get_or (L "court") []
          (final_output_of set_order legalbert_model apply_spacy_and_regex
             text segments)).
Proof.
  unfold extract_full_data. cbv zeta.
  generalize (final_output_of set_order legalbert_model apply_spacy_and_regex
                text segments).
  intros fo.
  destruct (parties_and_name _ _) as [[appellants respondents] case_name].
  rewrite <- SelectorProperties.court_error_iff. unfold assemble.
  destruct (select_primary_court _); split; intros H;
    first [reflexivity | discriminate H].
Qed.

End RecordProperties.

(** ** content_extractor.py *)

Module ContentProperties.
Import StrFacts ContentExtractor.

Lemma clean_text_trimmed (text : str) : Str.strip (clean_text text) = clean_text text.
Proof.
  unfold clean_text. destruct (Str.is_empty text); [reflexivity|].
  cbv zeta. apply strip_strip.
Qed.

Lemma Forall_firstn (P : str -> Prop) (n : nat) (l : list str) :
  Forall P l -> Forall P (firstn n l).
Proof.
  rewrite !Forall_forall. intros H x Hx. apply H.
  exact (PrecedentFacts.In_firstn _ _ _ _ Hx).
Qed.

Lemma section_facts_ok (facts_text : str) :
  Forall (fun p => 50 <= List.length p /\ Str.strip p = p) (section_facts facts_text).
Proof.
  unfold section_facts. apply Forall_forall. intros p Hp.
  apply filter_In in Hp. destruct Hp as [Hin Hf].
  apply Bool.andb_true_iff in Hf. destruct Hf as [Hl _]. apply Nat.leb_le in Hl.
  split; [exact Hl|].
  apply in_map_iff in Hin. destruct Hin as (q & <- & _). apply clean_text_trimmed.
Qed.

Lemma facts_by_marker_ok (body_text : str) (markers : list Re.regex) (facts : list str) :
  facts_by_marker body_text markers = Some facts ->
  List.length facts <= 10 /\
  Forall (fun p => 50 <= List.length p /\ Str.strip p = p) facts.
Proof.
  induction markers as [|marker rest IH]; cbn [facts_by_marker]; [discriminate|].
  destruct (Re.search Re.IM (fact_pattern marker) body_text) as [m|]; [|exact IH].
  cbv zeta. destruct (Str.truthy _); [|exact IH].
  pose proof (section_facts_ok (Str.strip (Re.group_or_empty body_text 1 m))) as Hs.
  destruct (section_facts _) as [|f fs]; [exact IH|].
  intros H. apply AppFacts.some_inj in H. rewrite <- H.
  split; [apply firstn_le_length | apply Forall_firstn; exact Hs].
Qed.

(** X26 -- [extract_background_facts] returns at most ten paragraphs;
    each has at least fifty characters and is trimmed of white space at
    both ends. *)
Theorem background_facts_bounded (body_text : str) :
  List.length (extract_background_facts body_text) <= 10
  /\ Forall (fun p => 50 <= List.length p /\ Str.strip p = p)
       (extract_background_facts body_text).
Proof.
  unfold extract_background_facts.
  destruct (Str.is_empty body_text); [split; [simpl; lia | constructor]|].
  destruct (facts_by_marker body_text fact_markers) as [facts|] eqn:E;
    [exact (facts_by_marker_ok _ _ _ E)|].
  cbv zeta. split.
  - etransitivity; [apply firstn_le_length | lia].
  - apply Forall_firstn. apply Forall_forall. intros p Hp.
    apply filter_In in Hp. destruct Hp as [Hin Hf].
    apply Bool.andb_true_iff in Hf. destruct Hf as [Hl _]. apply Nat.leb_le in Hl.
    split; [lia|].
    apply in_map_iff in Hin. destruct Hin as (q & <- & _). apply clean_text_trimmed.
Qed.

End ContentProperties.

(** ** ner_predictor.py: [clean_bert_output] *)

Module CleanOutputProperties.
Import StrFacts NerPredictor.

Lemma upper1_word (c : ascii) :
  non_word_or_underscore c = false ->
  non_word_or_underscore (Chr.upper1 c) = false.
Proof.
  destruct c as [[] [] [] [] [] [] [] []]; vm_compute; intros H;
    first [reflexivity | discriminate H].
Qed.

Lemma upper_first_length (c : ascii) : 1 <= List.length (Str.upper [c]).
Proof.
  unfold Str.upper. simpl. destruct (Chr.code c =? 223); simpl; lia.
Qed.

Lemma upper_first_word (c : ascii) :
  non_word_or_underscore c = false ->
  non_word_or_underscore (hd " "%char (Str.upper [c])) = false.
Proof.
  intros H. unfold Str.upper. simpl. destruct (Chr.code c =? 223); simpl.
  - reflexivity.
  - apply upper1_word. exact H.
Qed.

Lemma clean_entity_ok (e e' : str * str) :
  clean_entity e = Some e' ->
  fst e' = fst e /\ 3 <= List.length (snd e') /\
  non_word_or_underscore (hd " "%char (snd e')) = false.
Proof.
  unfold clean_entity. destruct e as [label value]. cbv zeta.
  set (v := Str.dropwhile non_word_or_underscore (Str.strip value)).
  assert (Hh : forall c t, v = c :: t -> non_word_or_underscore c = false).
  { intros c t E. exact (dropwhile_head _ _ _ _ E). }
  destruct (Str.is_empty v || (List.length v <? 3)) eqn:E; [discriminate|].
  apply Bool.orb_false_iff in E. destruct E as [_ E]. apply Nat.ltb_ge in E.
  destruct (existsb (Str.eqb label) capitalised_labels && (1 <? List.length v)).
  - intros H. injection H as <-. cbn [fst snd].
    destruct v as [|c t]; [simpl in E; lia|].
    cbn [firstn skipn]. split; [reflexivity|]. split.
    + rewrite length_app. pose proof (upper_first_length c). simpl in E. lia.
    + pose proof (upper_first_word c (Hh c t eq_refl)) as Hw.
      destruct (Str.upper [c]) as [|u us] eqn:U; [|exact Hw].
      pose proof (upper_first_length c) as Hl. rewrite U in Hl. simpl in Hl. lia.
  - intros H. injection H as <-. cbn [fst snd].
    split; [reflexivity|]. split; [exact E|].
    destruct v as [|c t]; [simpl in E; lia|]. exact (Hh c t eq_refl).
Qed.

(** X27 -- [clean_bert_output] keeps only values of at least three
    characters that begin with a letter or a digit (a word character
    other than the underscore); it keeps the label of every entity it
    keeps and never returns more entities than it was given. *)
Theorem clean_bert_output_values (entities : list (str * str)) :
  List.length (clean_bert_output entities) <= List.length entities
  /\ Forall (fun e' => In (fst e') (map fst entities) /\
                       3 <= List.length (snd e') /\
                       non_word_or_underscore (hd " "%char (snd e')) = false)
       (clean_bert_output entities).
Proof.
  unfold clean_bert_output. induction entities as [|e es [IHl IHf]]; simpl.
  - split; [lia | constructor].
  - destruct (clean_entity e) as [e'|] eqn:E; simpl.
    + destruct (clean_entity_ok _ _ E) as (H1 & H2 & H3).
      split; [lia|]. constructor.
      * split; [left; symmetry; exact H1 | split; assumption].
      * apply Forall_forall. intros x Hx. rewrite Forall_forall in IHf.
        destruct (IHf x Hx) as (X1 & X2 & X3). split; [right; exact X1 | split; assumption].
    + split; [lia|]. apply Forall_forall. intros x Hx. rewrite Forall_forall in IHf.
      destruct (IHf x Hx) as (X1 & X2 & X3). split; [right; exact X1 | split; assumption].
Qed.

End CleanOutputProperties.
